(** * Notebook cell operations, bulk cell edits and the debug adapter registry

  A shallow embedding of
  - [src/vs/workbench/contrib/notebook/browser/controller/cellOperations.ts],
  - [BulkCellEdits] and [convertToCellEdit] (bulkCellEdits.ts),
  - [AdapterManager.createDebugAdapter] (debugAdapterManager.ts),
  together with the properties the specification states about them. *)

From Stdlib Require Import ZArith List String Ascii Lia Bool Arith.
From stdpp Require Import base strings gmap list.

Import ListNotations.
Local Open Scope Z_scope.

(* ===================================================================== *)
(** ** Shared notebook vocabulary (notebookCommon.ts, notebookRange.ts)   *)
(* ===================================================================== *)

Module NotebookCommon.

(** [CellKind]: the two members the sources name, [CellKind.Markup] and
    [CellKind.Code].  Both are non-zero numbers, so a [constraint] that
    is given is truthy. *)
Inductive CellKind := Markup | Code.

Definition CellKind_eqb (a b : CellKind) : bool :=
  match a, b with
  | Markup, Markup | Code, Code => true
  | _, _ => false
  end.

(** The members of [CellEditType] that [convertToCellEdit] switches on. *)
Inductive CellEditType :=
| Replace | Output | Metadata | CellLanguage | DocumentMetadata
| Move | OutputItems | PartialMetadata | PartialInternalMetadata.

(** [ICellRange]: [{ start, end }], a half-open interval of cell
    indices.  The fields are JavaScript numbers; the operations compute
    [start - 1] without a guard, so they are integers here. *)
Record ICellRange := mkRange { r_start : Z; r_end : Z }.

(** The payload of a new cell in a Replace edit ([ICellDto]). *)
Record ICellDto := mkDto {
  dto_cellKind : CellKind;
  dto_source : string;
  dto_language : string;
  dto_mime : option string;
  dto_outputs : list string;
  dto_metadata : option string
}.

(** [ICellEditOperation], a union tagged by [editType].  Only Replace
    and Move carry data the embedded code reads. *)
Inductive ICellEditOperation :=
| CellReplaceEdit (index count : Z) (cells : list ICellDto)
| CellOutputEdit
| CellMetadataEdit
| CellLanguageEdit
| DocumentMetadataEdit
| CellMoveEdit (index length newIdx : Z)
| CellOutputItemsEdit
| CellPartialMetadataEdit
| CellPartialInternalMetadataEdit.

Definition editType (e : ICellEditOperation) : CellEditType :=
  match e with
  | CellReplaceEdit _ _ _ => Replace
  | CellOutputEdit => Output
  | CellMetadataEdit => Metadata
  | CellLanguageEdit => CellLanguage
  | DocumentMetadataEdit => DocumentMetadata
  | CellMoveEdit _ _ _ => Move
  | CellOutputItemsEdit => OutputItems
  | CellPartialMetadataEdit => PartialMetadata
  | CellPartialInternalMetadataEdit => PartialInternalMetadata
  end.

(** [ISelectionState] of kind Index: a focus range and selections. *)
Record ISelectionState := mkSel {
  sel_focus : ICellRange;
  sel_selections : list ICellRange
}.

End NotebookCommon.

(* ===================================================================== *)
(** ** The debug adapter registry (debugAdapterManager.ts)                *)
(* ===================================================================== *)

Module Debug.
Section AdapterManager.

(** The adapter objects are the host's; the registry only passes them
    through. *)
Variable IDebugAdapter : Type.

(** [session.configuration.type] is all the registry reads of a session. *)
Record IDebugSession := mkSession {
  session_name : string;
  configuration_type : string
}.

Record IDebugAdapterFactory := mkFactory {
  factory_createDebugAdapter : IDebugSession -> IDebugAdapter
}.

(** [private debugAdapterFactories = new Map<string, IDebugAdapterFactory>()] *)
Record AdapterManager := mkManager {
  debugAdapterFactories : gmap string IDebugAdapterFactory
}.

Definition emptyManager : AdapterManager := mkManager ∅.

(** [registerDebugAdapterFactory]: sets the launcher under every type. *)
Definition registerDebugAdapterFactory (debugTypes : list string)
    (debugAdapterLauncher : IDebugAdapterFactory) (m : AdapterManager)
  : AdapterManager :=
  mkManager
    (fold_left (fun fs debugType => <[debugType := debugAdapterLauncher]> fs)
               debugTypes (debugAdapterFactories m)).

(** The [dispose] of the returned disposable: deletes every type. *)
Definition disposeDebugAdapterFactory (debugTypes : list string)
    (m : AdapterManager) : AdapterManager :=
  mkManager
    (fold_left (fun fs debugType => delete debugType fs)
               debugTypes (debugAdapterFactories m)).

(** [createDebugAdapter(session)]: [undefined] is [None]. *)
Definition createDebugAdapter (m : AdapterManager) (session : IDebugSession)
  : option IDebugAdapter :=
  let factory := debugAdapterFactories m !! configuration_type session in
  match factory with
  | Some factory => Some (factory_createDebugAdapter factory session)
  | None => None
  end.

End AdapterManager.


Arguments createDebugAdapter {IDebugAdapter} m session.
Arguments registerDebugAdapterFactory {IDebugAdapter} debugTypes debugAdapterLauncher m.
Arguments disposeDebugAdapterFactory {IDebugAdapter} debugTypes m.
Arguments emptyManager {IDebugAdapter}.
Arguments debugAdapterFactories {IDebugAdapter} _.
Arguments mkFactory {IDebugAdapter} _.

End Debug.

(* ===================================================================== *)
(** ** Bulk cell edits (bulkCellEdits.ts)                                 *)
(* ===================================================================== *)

Module Bulk.
Import NotebookCommon.

(** [ResourceNotebookCellEdit]: a cell edit addressed to the notebook
    at [resource] (the URI, as [resource.toString()] gives it). *)
Record ResourceNotebookCellEdit := mkResourceEdit {
  resource : string;
  cellEdit : ICellEditOperation
}.

(** How a loop body ends: normally, or by a thrown [TypeError]. *)
Inductive Completion := Normal | TypeError.

Section BulkCellEdits.

(** [ICellEdit] is the SQL notebook's own edit type; its declaration is
    not among the sources, and [convertToCellEdit] builds no value of it. *)
Variable ICellEdit : Type.

(** [groupBy] of vs/base/common/arrays is not among the sources; [apply]
    only iterates over what it returns. *)
Variable groupBy : list ResourceNotebookCellEdit -> list (list ResourceNotebookCellEdit).

(** [convertToCellEdit]: every case of the switch is [continue]; no
    statement pushes onto [convertedEdits]. *)
Definition convertToCellEdit (edits : list ICellEditOperation) : list ICellEdit :=
  fold_left
    (fun convertedEdits edit =>
       match editType edit with
       | Replace
       | Output
       | Metadata
       | CellLanguage
       | DocumentMetadata
       | Move
       | OutputItems
       | PartialMetadata
       | PartialInternalMetadata => convertedEdits
       end)
    edits [].

(** What the host sees of a run of [apply]: the calls
    [editor.applyCellEdits(edits)] in order (editor handle and the list
    passed), the number of [progress.report] calls, and the number of
    reads of [token.isCancellationRequested]. *)
Record Host := mkHost {
  applied : list (nat * list ICellEdit);
  reports : nat;
  tokenChecks : nat
}.

Definition host0 : Host := mkHost [] 0 0.

(** [INotebookService.findNotebookEditor]: the open editors by resource. *)
Definition NotebookService := gmap string nat.

(** The cancellation token as [apply] observes it: the value of
    [isCancellationRequested] at its i-th read.  Every iteration awaits
    the host, so the value may change between two reads. *)
Definition CancellationToken := nat -> bool.

(** One iteration of the [for] loop after the token check:
    [const [first] = group] and [first.resource] (a [TypeError] on an
    empty group), the editor lookup, the call and the progress report. *)
Definition applyGroup (svc : NotebookService)
    (group : list ResourceNotebookCellEdit) (h : Host) : Completion * Host :=
  match group with
  | [] => (TypeError, h)
  | first :: _ =>
      let editor := svc !! resource first in
      let h1 :=
        match editor with
        | Some editor =>
            let edits := map cellEdit group in
            mkHost (applied h ++ [(editor, convertToCellEdit edits)])
                   (reports h) (tokenChecks h)
        | None => h
        end in
      (Normal, mkHost (applied h1) (S (reports h1)) (tokenChecks h1))
  end.

(** The [for (let group of editsByNotebook)] loop; [i] counts the
    iterations begun so far. *)
Fixpoint applyLoop (svc : NotebookService) (token : CancellationToken)
    (i : nat) (groups : list (list ResourceNotebookCellEdit)) (h : Host)
  : Completion * Host :=
  match groups with
  | [] => (Normal, h)
  | group :: rest =>
      let h := mkHost (applied h) (reports h) (S (tokenChecks h)) in
      if token i then (Normal, h)
      else
        match applyGroup svc group h with
        | (Normal, h') => applyLoop svc token (S i) rest h'
        | (TypeError, h') => (TypeError, h')
        end
  end.

(** [BulkCellEdits.apply()] *)
Definition apply (svc : NotebookService) (token : CancellationToken)
    (_edits : list ResourceNotebookCellEdit) (h : Host) : Completion * Host :=
  let editsByNotebook := groupBy _edits in
  applyLoop svc token 0 editsByNotebook h.

(** [findNotebookEditor(first.resource)] for a group: the editor that
    has the notebook of the group open, if there is one. *)
Definition groupEditor (svc : NotebookService)
    (group : list ResourceNotebookCellEdit) : option nat :=
  match group with
  | [] => None
  | first :: _ => svc !! resource first
  end.

(** The editors of the groups that have one, in the order of the groups. *)
Definition groupEditors (svc : NotebookService)
    (groups : list (list ResourceNotebookCellEdit)) : list nat :=
  flat_map (fun group =>
              match groupEditor svc group with
              | Some editor => [editor]
              | None => []
              end) groups.

(** A group commits when its editor receives the [applyCellEdits] call.
    The whole batch has been committed between [h] and [h']: the editor of
    every per-notebook group that has one has been called, once for each
    group and in the order of the groups, and no other call was made. *)
Definition wholeBatchCommitted (svc : NotebookService)
    (_edits : list ResourceNotebookCellEdit) (h h' : Host) : Prop :=
  map fst (applied h') = map fst (applied h) ++ groupEditors svc (groupBy _edits).

(** None of the batch has been committed between [h] and [h']: no editor
    has been called. *)
Definition nothingCommitted (h h' : Host) : Prop :=
  applied h' = applied h.

(** The batch is applied atomically: after the run "the whole batch
    commits or none does". *)
Definition atomic (svc : NotebookService) (token : CancellationToken)
    (_edits : list ResourceNotebookCellEdit) (h : Host) : Prop :=
  wholeBatchCommitted svc _edits h (snd (apply svc token _edits h))
  \/ nothingCommitted h (snd (apply svc token _edits h)).

(** The index of the first read at which the token answers true, among
    the first [n] reads ([n] if none does). *)
Fixpoint firstCancelled (token : CancellationToken) (i n : nat) : nat :=
  match n with
  | O => O
  | S n' => if token i then O else S (firstCancelled token (S i) n')
  end.

(** The calls an uncancelled pass over [groups] makes. *)
Definition groupCalls (svc : NotebookService)
    (groups : list (list ResourceNotebookCellEdit)) : list (nat * list ICellEdit) :=
  flat_map (fun group =>
              match group with
              | [] => []
              | first :: _ =>
                  match svc !! resource first with
                  | Some editor => [(editor, convertToCellEdit (map cellEdit group))]
                  | None => []
                  end
              end) groups.

End BulkCellEdits.

(** Insertion into a list sorted by resource, before the entries that
    compare equal. *)
Fixpoint insertByResource (e : ResourceNotebookCellEdit)
    (sorted : list ResourceNotebookCellEdit) : list ResourceNotebookCellEdit :=
  match sorted with
  | [] => [e]
  | x :: rest =>
      match String.compare (resource e) (resource x) with
      | Gt => x :: insertByResource e rest
      | _ => e :: sorted
      end
  end.

(** The edits sorted by resource, stably: each edit is inserted before
    the later ones of the same resource. *)
Definition sortByResource (edits : list ResourceNotebookCellEdit)
  : list ResourceNotebookCellEdit :=
  fold_right insertByResource [] edits.

(** A sorted list cut into its runs of equal resource. *)
Fixpoint groupRuns (sorted : list ResourceNotebookCellEdit)
  : list (list ResourceNotebookCellEdit) :=
  match sorted with
  | [] => []
  | e :: rest =>
      match groupRuns rest with
      | (x :: g) :: gs =>
          if String.eqb (resource e) (resource x)
          then (e :: x :: g) :: gs
          else [e] :: (x :: g) :: gs
      | gs => [e] :: gs
      end
  end.

(** Modelled from the spec: [groupBy(edits, (a, b) =>
    compare(a.resource.toString(), b.resource.toString()))], missing from
    the sources: one group for each notebook, the groups in the order of
    their resources and each in the order of the edits. *)
Definition groupByResource (edits : list ResourceNotebookCellEdit)
  : list (list ResourceNotebookCellEdit) :=
  groupRuns (sortByResource edits).

Arguments host0 {ICellEdit}.
Arguments applied {ICellEdit} _.
Arguments reports {ICellEdit} _.
Arguments tokenChecks {ICellEdit} _.

End Bulk.

(* ===================================================================== *)
(** ** Text buffers and positions                                         *)
(* ===================================================================== *)

Module Text.

(** [IPosition]: [{ lineNumber, column }], both counted from 1. *)
Record IPosition := Position { lineNumber : nat; column : nat }.

(** [new Range(startLineNumber, startColumn, endLineNumber, endColumn)] *)
Record Range := mkTextRange {
  startLineNumber : nat;
  startColumn : nat;
  endLineNumber : nat;
  endColumn : nat
}.

(** Modelled from the spec: the text buffer of a cell
    ([IReadonlyTextBuffer]) is not among the sources.  A Cell "has a text
    buffer"; it is taken as its lines and the line break between them,
    with the four accessors the cell operations call. *)
Record TextBuffer := mkBuffer {
  buf_lines : list string;
  buf_eol : string
}.

(** Modelled from the spec: [getLineCount()] of the text buffer, the
    number of its lines. *)
Definition getLineCount (b : TextBuffer) : nat := length (buf_lines b).

(** Modelled from the spec: the text of line [ln] of the text buffer
    (lines are counted from 1). *)
Definition lineContent (b : TextBuffer) (ln : nat) : string :=
  nth (ln - 1) (buf_lines b) EmptyString.

(** Modelled from the spec: [getLineLength(lineNumber)] of the text
    buffer, the number of characters of the line. *)
Definition getLineLength (b : TextBuffer) (ln : nat) : nat :=
  String.length (lineContent b ln).

(** Modelled from the spec: [getEOL()] of the text buffer. *)
Definition getEOL (b : TextBuffer) : string := buf_eol b.

(** The text after the first [n] characters. *)
Fixpoint dropString (n : nat) (s : string) : string :=
  match n, s with
  | O, _ => s
  | S n', String _ s' => dropString n' s'
  | S _, EmptyString => EmptyString
  end.

(** The lines [from .. to) joined, each followed by the line break. *)
Definition linesBetween (b : TextBuffer) (from to : nat) : string :=
  fold_right (fun l acc => String.append l (String.append (buf_eol b) acc))
             EmptyString
             (firstn (to - from) (skipn (from - 1) (buf_lines b))).

(** Modelled from the spec: [getValueInRange(range,
    EndOfLinePreference.TextDefined)] of the text buffer, for a range
    whose start is not after its end: the text from the start position up
    to the end position, line breaks included. *)
Definition getValueInRange (b : TextBuffer) (r : Range) : string :=
  if (startLineNumber r =? endLineNumber r)%nat then
    String.substring (startColumn r - 1) (endColumn r - startColumn r)
                     (lineContent b (startLineNumber r))
  else
    String.append (dropString (startColumn r - 1) (lineContent b (startLineNumber r)))
      (String.append (buf_eol b)
         (String.append (linesBetween b (S (startLineNumber r)) (endLineNumber r))
            (String.substring 0 (endColumn r - 1) (lineContent b (endLineNumber r))))).

(** The lines joined by the line break. *)
Fixpoint joinLines (eol : string) (ls : list string) : string :=
  match ls with
  | [] => EmptyString
  | [l] => l
  | l :: rest => String.append l (String.append eol (joinLines eol rest))
  end.

(** Modelled from the spec: the whole text of the buffer, which
    [getText()] of a cell returns. *)
Definition getValue (b : TextBuffer) : string := joinLines (buf_eol b) (buf_lines b).

(** The lines of a source text, cut at line feeds. *)
Fixpoint splitLines (s : string) : list string :=
  match s with
  | EmptyString => [EmptyString]
  | String c s' =>
      if Ascii.eqb c "010"%char then EmptyString :: splitLines s'
      else match splitLines s' with
           | l :: ls => String c l :: ls
           | [] => [String c EmptyString]
           end
  end.

(** Modelled from the spec: the text buffer a new cell gets for its
    source text. *)
Definition createTextBuffer (source : string) : TextBuffer :=
  mkBuffer (splitLines source) (String "010"%char EmptyString).

(** A position inside the buffer: an existing line, and a column from 1
    to one past its last character. *)
Definition validPosition (b : TextBuffer) (p : IPosition) : Prop :=
  (1 <= lineNumber p <= getLineCount b)%nat /\
  (1 <= column p <= getLineLength b (lineNumber p) + 1)%nat.

End Text.

(* ===================================================================== *)
(** ** The notebook document, its editor and the edit applier             *)
(* ===================================================================== *)

Module Model.
Import NotebookCommon Text.

Inductive CellEditState := Preview | Editing.

(** A cell as the operations see it: the view model's cell together with
    the fields of its text model that they read. *)
Record Cell := mkCell {
  handle : nat;
  cellKind : CellKind;
  textBuffer : TextBuffer;
  language : string;
  mime : option string;
  outputs : list string;
  metadata : option string;
  editState : CellEditState
}.

(** [cell.getText()] *)
Definition getText (c : Cell) : string := getValue (textBuffer c).

(** Modelled from the spec: an undo-stack entry, which is missing from
    the sources with the undo stack; it holds "the Document content and
    the Selection State captured before the batch". *)
Record UndoEntry := mkUndo {
  undo_cells : list Cell;
  undo_selection : ISelectionState
}.

(** Modelled from the spec: the Document ([NotebookTextModel], not among
    the sources), an "ordered sequence of Cells": its resource, its cells,
    the pool the handles of new cells come from, and the undo stack
    (newest first). *)
Record NotebookTextModel := mkTextModel {
  uri : string;
  cells : list Cell;
  nextHandle : nat;
  undoStack : list UndoEntry
}.

(** What the operations ask the host to show. *)
Inductive UiEvent :=
| FocusNotebookCell (cell : option nat) (focusItem : string)
| RevealCellRangeInView (range : ICellRange).

(** The editor without its document: the read-only flag
    ([editor.isReadOnly], [viewModel.options.isReadOnly]), the Selection
    State of the view model, the languages of the active kernel
    ([activeKernel?.supportedLanguages]) and the requests made to the host. *)
Record EditorView := mkView {
  isReadOnly : bool;
  focus : ICellRange;
  selections : list ICellRange;
  supportedLanguages : option (list string);
  uiLog : list UiEvent
}.

(** [IActiveNotebookEditor]: an editor that has its text model. *)
Record IActiveNotebookEditor := mkActive {
  view : EditorView;
  textModel : NotebookTextModel
}.

(** [INotebookEditor]: the text model may be absent. *)
Record INotebookEditor := mkEditor {
  n_view : EditorView;
  n_textModel : option NotebookTextModel
}.

(** [notebookEditor.hasModel()] *)
Definition hasModel (e : INotebookEditor) : bool :=
  match n_textModel e with Some _ => true | None => false end.

(** An active editor seen as an editor. *)
Definition toEditor (e : IActiveNotebookEditor) : INotebookEditor :=
  mkEditor (view e) (Some (textModel e)).

(** The document of the editor is absent or read-only. *)
Definition absentOrReadOnly (e : INotebookEditor) : Prop :=
  hasModel e = false \/ isReadOnly (n_view e) = true.

(** *** Accessors of the editor

    The editor and view-model accessors ([getLength], [cellAt],
    [getCellIndex], [getCellsInRange], [getFocus], [getSelections]) are
    not among the sources.  The Document is "an ordered sequence of
    Cells" and a Cell Range a "half-open index interval [start, end) over
    the Document's cell sequence". *)

(** Modelled from the spec: [editor.getLength()] and [textModel.length],
    missing from the sources: the number of cells of the Document. *)
Definition getLength (e : IActiveNotebookEditor) : Z :=
  Z.of_nat (length (cells (textModel e))).

(** Modelled from the spec: the cell at an index of the cell sequence,
    [undefined] outside it. *)
Definition cellAtList (l : list Cell) (index : Z) : option Cell :=
  if index <? 0 then None else nth_error l (Z.to_nat index).

(** Modelled from the spec: [editor.cellAt(index)], missing from the
    sources. *)
Definition cellAt (e : IActiveNotebookEditor) (index : Z) : option Cell :=
  cellAtList (cells (textModel e)) index.

(** [cells.findIndex(cell => cell.handle === h)]: -1 when there is none. *)
Fixpoint findIndexByHandle (l : list Cell) (h : nat) (i : Z) : Z :=
  match l with
  | [] => -1
  | c :: rest => if (handle c =? h)%nat then i else findIndexByHandle rest h (i + 1)
  end.

(** Modelled from the spec: [editor.getCellIndex(cell)], missing from the
    sources: the index of the cell in the Document, -1 when it is not
    there. *)
Definition getCellIndex (e : IActiveNotebookEditor) (cell : Cell) : Z :=
  findIndexByHandle (cells (textModel e)) (handle cell) 0.

Definition clampZ (x lo hi : Z) : Z := Z.min (Z.max x lo) hi.

(** Modelled from the spec: [editor.getCellsInRange(range)], missing from
    the sources: the cells of the part of the half-open [range] that lies
    inside the Document. *)
Definition getCellsInRange (e : IActiveNotebookEditor) (range : ICellRange) : list Cell :=
  let len := getLength e in
  let s := clampZ (r_start range) 0 len in
  let t := clampZ (r_end range) 0 len in
  firstn (Z.to_nat (t - s)) (skipn (Z.to_nat s) (cells (textModel e))).

(** Modelled from the spec: [editor.getFocus()], the focus range of the
    Selection State. *)
Definition getFocus (e : IActiveNotebookEditor) : ICellRange := focus (view e).

(** Modelled from the spec: [editor.getSelections()], the selection
    ranges of the Selection State. *)
Definition getSelections (e : IActiveNotebookEditor) : list ICellRange :=
  selections (view e).

(** [{ kind: SelectionStateType.Index, focus: editor.getFocus(),
       selections: editor.getSelections() }] *)
Definition currentSelectionState (e : IActiveNotebookEditor) : ISelectionState :=
  mkSel (getFocus e) (getSelections e).

(** *** The applier ([NotebookTextModel.applyEdits])

    [applyEdits] and the undo stack are not among the sources.  In the
    specification the applier "accepts an ordered list of Edit Operations,
    a compute-before Selection State and a deferred compute-after Selection
    State function (evaluated after the edits are staged)"; Replace(index,
    count, newCells) and Move(index, length, newIndex) each describe "a
    single structural change", Move with its target "in the index space of
    the Document after the moved range has been conceptually removed"; it
    "never raises for out-of-range indices"; it "registers exactly one
    undo-stack entry for the whole batch", and "undo restores both the
    Document content and the Selection State captured before the batch".
    The specification names no batch without an undo-stack entry, so the
    callers' last argument, which [insertCellAtIndex] names
    [pushUndoStop], changes nothing in the applier as it is modelled
    here. *)

(** Modelled from the spec: how the applier, which "never raises for
    out-of-range indices", takes a start index: as
    [Array.prototype.splice] on the cell array does, a negative start
    counting from the end and every start clamped to the array. *)
Definition spliceStart (len start : Z) : Z :=
  if start <? 0 then Z.max (len + start) 0 else Z.min start len.

(** Modelled from the spec: the number of cells a splice removes, clamped
    to what lies behind the start. *)
Definition spliceDeleteCount (len actualStart deleteCount : Z) : Z :=
  Z.min (Z.max deleteCount 0) (len - actualStart).

(** Modelled from the spec: [splice(start, deleteCount, ...items)] on the
    cell array of the Document. *)
Definition splice {A} (l : list A) (start deleteCount : Z) (items : list A) : list A :=
  let len := Z.of_nat (length l) in
  let actualStart := spliceStart len start in
  let actualDeleteCount := spliceDeleteCount len actualStart deleteCount in
  firstn (Z.to_nat actualStart) l ++ items
    ++ skipn (Z.to_nat (actualStart + actualDeleteCount)) l.

(** Modelled from the spec: the cells a splice removes (its return
    value). *)
Definition spliced {A} (l : list A) (start deleteCount : Z) : list A :=
  let len := Z.of_nat (length l) in
  let actualStart := spliceStart len start in
  let actualDeleteCount := spliceDeleteCount len actualStart deleteCount in
  firstn (Z.to_nat actualDeleteCount) (skipn (Z.to_nat actualStart) l).

(** Modelled from the spec: the new cell the applier makes of a dto,
    with the next free handle. *)
Definition cellOfDto (h : nat) (d : ICellDto) : Cell :=
  mkCell h (dto_cellKind d) (createTextBuffer (dto_source d)) (dto_language d)
         (dto_mime d) (dto_outputs d) (dto_metadata d) Preview.

(** Modelled from the spec: the new cells of a Replace, with consecutive
    handles. *)
Fixpoint cellsOfDtos (h : nat) (ds : list ICellDto) : list Cell :=
  match ds with
  | [] => []
  | d :: rest => cellOfDto h d :: cellsOfDtos (S h) rest
  end.

(** Modelled from the spec: one Edit Operation on the cell sequence, for
    the applier that is missing from the sources.  Replace removes [count]
    cells at [index] and puts the new cells there; Move takes [length]
    cells out at [index] and puts them back at [newIdx], counted in the
    sequence without them.  The other edit types change no cell's place. *)
Definition applyEdit (st : list Cell * nat) (edit : ICellEditOperation)
  : list Cell * nat :=
  let '(cs, h) := st in
  match edit with
  | CellReplaceEdit index count dtos =>
      (splice cs index count (cellsOfDtos h dtos), (h + length dtos)%nat)
  | CellMoveEdit index len newIdx =>
      let moved := spliced cs index len in
      (splice (splice cs index len []) newIdx 0 moved, h)
  | _ => (cs, h)
  end.

(** Modelled from the spec: [textModel.applyEdits(rawEdits, synchronous,
    beginSelectionState, endSelectionsComputer, undoRedoGroup,
    computeUndoRedo)], missing from the sources.  The operations are
    applied in order; "exactly one undo-stack entry for the whole batch",
    with the cells and the Selection State from before the batch, is
    pushed, whatever [computeUndoRedo] is; the Selection State becomes
    what the deferred function computes on the editor with the edits
    staged.  [undoRedoGroup] is [undefined] at every call and is left
    out. *)
Definition applyEdits (rawEdits : list ICellEditOperation) (synchronous : bool)
    (beginSelectionState : ISelectionState)
    (endSelectionsComputer : IActiveNotebookEditor -> ISelectionState)
    (computeUndoRedo : bool) (e : IActiveNotebookEditor) : IActiveNotebookEditor :=
  let tm := textModel e in
  let '(cs, h) := fold_left applyEdit rawEdits (cells tm, nextHandle tm) in
  let stack := mkUndo (cells tm) beginSelectionState :: undoStack tm in
  let staged := mkActive (view e) (mkTextModel (uri tm) cs h stack) in
  let endSelections := endSelectionsComputer staged in
  mkActive (mkView (isReadOnly (view e)) (sel_focus endSelections)
                   (sel_selections endSelections)
                   (supportedLanguages (view e)) (uiLog (view e)))
           (mkTextModel (uri tm) cs h stack).

(** Modelled from the spec: undo of the newest undo-stack entry, missing
    from the sources: "undo restores both the Document content and the
    Selection State captured before the batch". *)
Definition undo (e : IActiveNotebookEditor) : IActiveNotebookEditor :=
  match undoStack (textModel e) with
  | [] => e
  | entry :: rest =>
      mkActive (mkView (isReadOnly (view e)) (sel_focus (undo_selection entry))
                       (sel_selections (undo_selection entry))
                       (supportedLanguages (view e)) (uiLog (view e)))
               (mkTextModel (uri (textModel e)) (undo_cells entry)
                            (nextHandle (textModel e)) rest)
  end.



(** What a batch removes and inserts, as its operations state it. *)
Definition removedBy (edit : ICellEditOperation) : Z :=
  match edit with
  | CellReplaceEdit _ count _ => count
  | CellMoveEdit _ len _ => len
  | _ => 0
  end.

Definition insertedBy (edit : ICellEditOperation) : Z :=
  match edit with
  | CellReplaceEdit _ _ dtos => Z.of_nat (length dtos)
  | CellMoveEdit _ len _ => len
  | _ => 0
  end.

Definition sumZ (l : list Z) : Z := fold_right Z.add 0 l.

(** An operation whose range lies inside a document of [len] cells. *)
Definition editInRange (len : Z) (edit : ICellEditOperation) : Prop :=
  match edit with
  | CellReplaceEdit index count _ => 0 <= index /\ 0 <= count /\ index + count <= len
  | CellMoveEdit index l newIdx =>
      0 <= index /\ 0 <= l /\ index + l <= len /\ 0 <= newIdx /\ newIdx <= len - l
  | _ => True
  end.


(** A batch registers exactly one undo-stack entry: the stack is one
    entry longer after it than before. *)
Definition registersOneUndoEntry (before after : IActiveNotebookEditor) : Prop :=
  length (undoStack (textModel after)) = S (length (undoStack (textModel before))).


(** Selections in ascending order and apart from each other (no two
    overlap or touch), each inside a document of [n] cells, the first
    starting at [lo] or later. *)
Fixpoint selectionsApart (lo n : Z) (sels : list ICellRange) : Prop :=
  match sels with
  | [] => True
  | s :: rest =>
      lo <= r_start s /\ r_start s <= r_end s /\ r_end s <= n
      /\ selectionsApart (r_end s + 1) n rest
  end.

(** The cells from index [lo] on that lie in none of the selections. *)
Fixpoint keptFrom (lo : Z) (sels : list ICellRange) (cs : list Cell) : list Cell :=
  match sels with
  | [] => skipn (Z.to_nat lo) cs
  | s :: rest =>
      firstn (Z.to_nat (r_start s - lo)) (skipn (Z.to_nat lo) cs)
      ++ keptFrom (r_end s) rest cs
  end.

End Model.

(* ===================================================================== *)
(** ** cellOperations.ts                                                  *)
(* ===================================================================== *)

Module CellOperations.
Import NotebookCommon Text Model.

(** A call returns a value or throws (a property read on [undefined]). *)
Inductive Outcome (A : Type) :=
| Returns (a : A)
| Throws.
Arguments Returns {A} a.
Arguments Throws {A}.

Inductive MoveDirection := up | down.
Inductive JoinDirection := above | below.

(** [INotebookActionContext]: [ui], [cell] and [selectedCells] are optional. *)
Record INotebookActionContext := mkContext {
  notebookEditor : INotebookEditor;
  ui : bool;
  cell : option Cell;
  selectedCells : option (list Cell)
}.

(** [INotebookCellActionContext]: the cell is there. *)
Record INotebookCellActionContext := mkCellContext {
  c_notebookEditor : INotebookEditor;
  c_ui : bool;
  c_cell : Cell
}.

(** [ResourceEdit]: a text edit of one cell's buffer (the cell is named by
    its handle), or a cell edit of the notebook. *)
Inductive ResourceEdit :=
| ResourceTextEdit (cellUri : nat) (range : Range) (text : string)
| ResourceNotebookCellEdit (resource : string) (cellEdit : ICellEditOperation).

(** What [joinNotebookCells] resolves to when it is not [null]. *)
Record JoinResult := mkJoin {
  edits : list ResourceEdit;
  join_cell : Cell;
  endFocus : ICellRange;
  endSelections : list ICellRange
}.

(** Requests to the host. *)
Definition logUi (ev : UiEvent) (e : IActiveNotebookEditor) : IActiveNotebookEditor :=
  mkActive (mkView (isReadOnly (view e)) (focus (view e)) (selections (view e))
                   (supportedLanguages (view e)) (uiLog (view e) ++ [ev]))
           (textModel e).

(** [notebookEditor.focusNotebookCell(cell, focusItem)] *)
Definition focusNotebookCell (c : option Cell) (focusItem : string)
    (e : IActiveNotebookEditor) : IActiveNotebookEditor :=
  logUi (FocusNotebookCell (option_map handle c) focusItem) e.

(** [editor.revealCellRangeInView(range)] *)
Definition revealCellRangeInView (r : ICellRange) (e : IActiveNotebookEditor)
  : IActiveNotebookEditor :=
  logUi (RevealCellRangeInView r) e.

(** [selections.reverse()] reverses the array in place: every later
    [getSelections()] reads the reversed array. *)
Definition reverseSelections (e : IActiveNotebookEditor) : IActiveNotebookEditor :=
  mkActive (mkView (isReadOnly (view e)) (focus (view e)) (rev (selections (view e)))
                   (supportedLanguages (view e)) (uiLog (view e)))
           (textModel e).

(** [availableLanguages[0] ?? 'plaintext'] with
    [availableLanguages = activeKernel?.supportedLanguages ?? []] *)
Definition firstAvailableLanguage (e : IActiveNotebookEditor) : string :=
  match supportedLanguages (view e) with
  | Some (l :: _) => l
  | _ => "plaintext"%string
  end.

(** [a ?? b] *)
Definition orElse {A} (a b : option A) : option A :=
  match a with Some _ => a | None => b end.

Section Operations.

(** Helpers of the notebook that are not among the sources. *)
Variable expandCellRangesWithHiddenCells :
  IActiveNotebookEditor -> list ICellRange -> list ICellRange.
Variable cellRangesToIndexes : list ICellRange -> list Z.
Variable cellRangeContains : ICellRange -> ICellRange -> bool.
Variable cloneNotebookCellTextModel : Cell -> ICellDto.
Variable getNextVisibleCellIndex : IActiveNotebookEditor -> Z -> Z.
Variable nearestCodeCellIndex : IActiveNotebookEditor -> Z -> Z.
(** [modeService.getRegisteredModes()] *)
Variable getRegisteredModes : list string.

(** The Replace edit both branches of [changeCellToKind] build. *)
Definition changeKindEdit (kind : CellKind) (e : IActiveNotebookEditor)
    (language mime : option string) (cell : Cell) : ICellEditOperation * string :=
  let text := getText cell in
  let idx := getCellIndex e cell in
  let language :=
    match language with
    | Some l => l
    | None => firstAvailableLanguage e
    end in
  (CellReplaceEdit idx 1
     [mkDto kind text language (orElse mime (Model.mime cell))
            (outputs cell) (metadata cell)],
   language).

(** [changeCellToKind(kind, context, language?, mime?)] *)
Definition changeCellToKind (kind : CellKind) (context : INotebookActionContext)
    (language mime : option string) : INotebookEditor :=
  let notebookEditor := notebookEditor context in
  match n_textModel notebookEditor with
  | None => notebookEditor
  | Some tm =>
      let e := mkActive (n_view notebookEditor) tm in
      if isReadOnly (view e) then notebookEditor
      else
        match ui context, cell context with
        | true, Some cell =>
            if CellKind_eqb (cellKind cell) kind then notebookEditor
            else
              let idx := getCellIndex e cell in
              let e1 :=
                applyEdits [fst (changeKindEdit kind e language mime cell)] true
                           (currentSelectionState e)
                           (fun staged => currentSelectionState staged)
                           true e in
              let newCell := cellAt e1 idx in
              toEditor
                (focusNotebookCell newCell
                   (match editState cell with
                    | Editing => "editor"%string
                    | Preview => "container"%string
                    end) e1)
        | _, _ =>
            match selectedCells context with
            | Some selectedCells =>
                let '(rawEdits, _) :=
                  fold_left
                    (fun '(rawEdits, language) cell =>
                       if CellKind_eqb (cellKind cell) kind then (rawEdits, language)
                       else
                         let '(edit, l) := changeKindEdit kind e language mime cell in
                         (rawEdits ++ [edit], Some l))
                    selectedCells ([], language) in
                toEditor
                  (applyEdits rawEdits true (currentSelectionState e)
                              (fun staged => currentSelectionState staged)
                              true e)
            | None => notebookEditor
            end
        end
  end.

Definition shiftRange (d : Z) (r : ICellRange) : ICellRange :=
  mkRange (r_start r + d) (r_end r + d).

Definition singleCellState (i : Z) : ISelectionState :=
  mkSel (mkRange i (i + 1)) [mkRange i (i + 1)].

(** The Replace edit that deletes the cells of a selection. *)
Definition deleteEdit (s : ICellRange) : ICellEditOperation :=
  CellReplaceEdit (r_start s) (r_end s - r_start s) [].

(** [runDeleteAction(editor, cell)] *)
Definition runDeleteAction (editor : IActiveNotebookEditor) (cell : Cell)
  : IActiveNotebookEditor :=
  let selections := getSelections editor in
  let targetCellIndex := getCellIndex editor cell in
  let containingSelection :=
    find (fun selection =>
            (r_start selection <=? targetCellIndex) && (targetCellIndex <? r_end selection))
         selections in
  match containingSelection with
  | Some containingSelection =>
      let editor := reverseSelections editor in
      let edits := map deleteEdit (getSelections editor) in
      let nextCellAfterContainingSelection :=
        if r_end containingSelection >=? getLength editor then None
        else cellAt editor (r_end containingSelection) in
      applyEdits edits true (currentSelectionState editor)
        (fun staged =>
           match nextCellAfterContainingSelection with
           | Some next =>
               let cellIndex :=
                 findIndexByHandle (cells (textModel staged)) (handle next) 0 in
               singleCellState cellIndex
           | None =>
               if getLength staged =? 0
               then mkSel (mkRange 0 0) [mkRange 0 0]
               else
                 let lastCellIndex := getLength staged - 1 in
                 singleCellState lastCellIndex
           end)
        true editor
  | None =>
      let focus := getFocus editor in
      let edits := [CellReplaceEdit targetCellIndex 1 []] in
      let finalSelections :=
        map (fun selection =>
               if r_end selection <=? targetCellIndex then selection
               else if r_start selection >? targetCellIndex then shiftRange (-1) selection
               else mkRange targetCellIndex (targetCellIndex + 1))
            selections in
      let focusIsTarget :=
        match cellAt editor (r_start focus) with
        | Some c => (handle c =? handle cell)%nat
        | None => false
        end in
      if focusIsTarget then
        let newFocus :=
          if r_end focus =? getLength editor then shiftRange (-1) focus else focus in
        applyEdits edits true (currentSelectionState editor)
                   (fun _ => mkSel newFocus finalSelections) true editor
      else
        let newFocus :=
          if r_start focus >? targetCellIndex then shiftRange (-1) focus else focus in
        applyEdits edits true (currentSelectionState editor)
                   (fun _ => mkSel newFocus finalSelections) true editor
  end.


(** [editor.getSelections()[0] ?? editor.getFocus()] *)
Definition focusRangeOf (e : IActiveNotebookEditor) : ICellRange :=
  match getSelections e with
  | s :: _ => s
  | [] => getFocus e
  end.

(** The Move edit of [moveCellRange], by direction. *)
Definition moveRangeEdit (direction : MoveDirection) (range : ICellRange)
  : ICellEditOperation :=
  match direction with
  | up => CellMoveEdit (r_start range - 1) 1 (r_end range - 1)
  | down => CellMoveEdit (r_end range) 1 (r_start range)
  end.

(** [moveCellRange(context, direction)] *)
Definition moveCellRange (context : INotebookCellActionContext)
    (direction : MoveDirection) : INotebookEditor :=
  match n_textModel (c_notebookEditor context) with
  | None => c_notebookEditor context
  | Some tm =>
      let editor := mkActive (n_view (c_notebookEditor context)) tm in
      if isReadOnly (view editor) then c_notebookEditor context
      else
        let selections := getSelections editor in
        let modelRanges := expandCellRangesWithHiddenCells editor selections in
        match modelRanges with
        | [] => c_notebookEditor context
        | range :: _ =>
            if r_start range =? r_end range then c_notebookEditor context
            else
              match direction with
              | up =>
                  if r_start range =? 0 then c_notebookEditor context
                  else
                    let finalSelection := mkRange (r_start range - 1) (r_end range - 1) in
                    let focus := getFocus editor in
                    let newFocus :=
                      if cellRangeContains range focus
                      then mkRange (r_start focus - 1) (r_end focus - 1)
                      else mkRange (r_start range - 1) (r_start range) in
                    let editor :=
                      applyEdits [moveRangeEdit up range] true
                                 (currentSelectionState editor)
                                 (fun _ => mkSel newFocus [finalSelection]) true editor in
                    toEditor (revealCellRangeInView (focusRangeOf editor) editor)
              | down =>
                  if r_end range >=? getLength editor then c_notebookEditor context
                  else
                    let finalSelection := mkRange (r_start range + 1) (r_end range + 1) in
                    let focus := getFocus editor in
                    let newFocus :=
                      if cellRangeContains range focus
                      then mkRange (r_start focus + 1) (r_end focus + 1)
                      else mkRange (r_start range + 1) (r_start range + 2) in
                    let editor :=
                      applyEdits [moveRangeEdit down range] true
                                 (currentSelectionState editor)
                                 (fun _ => mkSel newFocus [finalSelection]) true editor in
                    toEditor (revealCellRangeInView (focusRangeOf editor) editor)
              end
        end
  end.

(** [cellRangesToIndexes([range]).map(index =>
      cloneNotebookCellTextModel(editor.cellAt(index)!.model))]:
    reading [.model] of a missing cell throws. *)
Fixpoint cloneCellsAt (editor : IActiveNotebookEditor) (indexes : list Z)
  : Outcome (list ICellDto) :=
  match indexes with
  | [] => Returns []
  | index :: rest =>
      match cellAt editor index with
      | None => Throws
      | Some c =>
          match cloneCellsAt editor rest with
          | Returns ds => Returns (cloneNotebookCellTextModel c :: ds)
          | Throws => Throws
          end
      end
  end.

(** [copyCellRange(context, direction)] *)
Definition copyCellRange (context : INotebookCellActionContext)
    (direction : MoveDirection) : Outcome INotebookEditor :=
  match n_textModel (c_notebookEditor context) with
  | None => Returns (c_notebookEditor context)
  | Some tm =>
      let editor := mkActive (n_view (c_notebookEditor context)) tm in
      if isReadOnly (view editor) then Returns (c_notebookEditor context)
      else
        let range :=
          if c_ui context then
            let targetCell := c_cell context in
            let targetCellIndex := getCellIndex editor targetCell in
            Some (mkRange targetCellIndex (targetCellIndex + 1))
          else
            let selections := getSelections editor in
            let modelRanges := expandCellRangesWithHiddenCells editor selections in
            head modelRanges in
        match range with
        | None => Returns (c_notebookEditor context)
        | Some range =>
            if r_start range =? r_end range then Returns (c_notebookEditor context)
            else
              match direction with
              | up =>
                  let focus := getFocus editor in
                  let selections := getSelections editor in
                  match cloneCellsAt editor (cellRangesToIndexes [range]) with
                  | Throws => Throws
                  | Returns newCells =>
                      Returns
                        (toEditor
                           (applyEdits [CellReplaceEdit (r_end range) 0 newCells] true
                                       (mkSel focus selections)
                                       (fun _ => mkSel focus selections) true editor))
                  end
              | down =>
                  let focus := getFocus editor in
                  let selections := getSelections editor in
                  match cloneCellsAt editor (cellRangesToIndexes [range]) with
                  | Throws => Throws
                  | Returns newCells =>
                      let countDelta := Z.of_nat (length newCells) in
                      let newFocus :=
                        if c_ui context then focus
                        else mkRange (r_start focus + countDelta) (r_end focus + countDelta) in
                      let newSelections :=
                        if c_ui context then selections
                        else [mkRange (r_start range + countDelta) (r_end range + countDelta)] in
                      let editor :=
                        applyEdits [CellReplaceEdit (r_end range) 0 newCells] true
                                   (mkSel focus selections)
                                   (fun _ => mkSel newFocus newSelections) true editor in
                      Returns (toEditor (revealCellRangeInView (focusRangeOf editor) editor))
                  end
              end
        end
  end.

(** [constraint && cell.cellKind !== constraint] *)
Definition violates (constraint : option CellKind) (c : Cell) : bool :=
  match constraint with
  | Some k => negb (CellKind_eqb (cellKind c) k)
  | None => false
  end.

(** [cells.map(cell => (cell.textBuffer.getEOL() ?? '') + cell.getText()).join('')] *)
Definition joinedContent (cs : list Cell) : string :=
  fold_right (fun c acc => String.append (String.append (getEOL (textBuffer c)) (getText c)) acc)
             EmptyString cs.

(** The empty range at the end of the last line of a cell's buffer. *)
Definition endOfBuffer (c : Cell) : Range :=
  let lineCount := getLineCount (textBuffer c) in
  let lastLineEndColumn := getLineLength (textBuffer c) lineCount in
  mkTextRange lineCount (lastLineEndColumn + 1) lineCount (lastLineEndColumn + 1).

(** [joinNotebookCells(editor, range, direction, constraint?)]; [None] is
    the [null] it resolves to. *)
Definition joinNotebookCells (editor : IActiveNotebookEditor) (range : ICellRange)
    (direction : JoinDirection) (constraint : option CellKind)
  : Outcome (option JoinResult) :=
  if isReadOnly (view editor) then Returns None
  else
    let textModel := textModel editor in
    let cells := getCellsInRange editor range in
    match cells with
    | [] => Returns None
    | cell :: _ =>
        if (r_start range =? 0)
           && (match direction with above => true | below => false end)
        then Returns None
        else if (r_end range =? Z.of_nat (length (Model.cells textModel)))
                && (match direction with below => true | above => false end)
        then Returns None
        else if existsb (violates constraint) cells then Returns None
        else
          match direction with
          | above =>
              match cellAt editor (r_start range - 1) with
              | None => Throws
              | Some aboveCell =>
                  if violates constraint aboveCell then Returns None
                  else
                    let insertContent := joinedContent cells in
                    Returns (Some (mkJoin
                      [ResourceTextEdit (handle aboveCell) (endOfBuffer aboveCell) insertContent;
                       ResourceNotebookCellEdit (uri textModel)
                         (CellReplaceEdit (r_start range) (r_end range - r_start range) [])]
                      aboveCell
                      (mkRange (r_start range - 1) (r_start range))
                      [mkRange (r_start range - 1) (r_start range)]))
              end
          | below =>
              match cellAt editor (r_end range) with
              | None => Throws
              | Some belowCell =>
                  if violates constraint belowCell then Returns None
                  else
                    let restCells := tl cells ++ [belowCell] in
                    let insertContent := joinedContent restCells in
                    Returns (Some (mkJoin
                      [ResourceTextEdit (handle cell) (endOfBuffer cell) insertContent;
                       ResourceNotebookCellEdit (uri textModel)
                         (CellReplaceEdit (r_start range + 1) (r_end range - r_start range) [])]
                      cell
                      (mkRange (r_start range) (r_start range + 1))
                      [mkRange (r_start range) (r_start range + 1)]))
              end
          end
    end.

(** The cell next to the range on the side the join goes to. *)
Definition adjacentCell (editor : IActiveNotebookEditor) (range : ICellRange)
    (direction : JoinDirection) : option Cell :=
  match direction with
  | above => cellAt editor (r_start range - 1)
  | below => cellAt editor (r_end range)
  end.

(** The range spans the document boundary in the direction of the join. *)
Definition spansBoundary (editor : IActiveNotebookEditor) (range : ICellRange)
    (direction : JoinDirection) : Prop :=
  (r_start range = 0 /\ direction = above) \/
  (r_end range = getLength editor /\ direction = below).

(** A cell-kind constraint is given and a cell of the range, or the cell
    next to it, is of another kind. *)
Definition kindConstraintViolated (editor : IActiveNotebookEditor) (range : ICellRange)
    (direction : JoinDirection) (constraint : option CellKind) : Prop :=
  exists k, constraint = Some k /\
    ((exists c, In c (getCellsInRange editor range) /\ cellKind c <> k) \/
     (exists c, adjacentCell editor range direction = Some c /\ cellKind c <> k)).

(** The rejection rule as the specification words it: exactly the two
    conditions above. *)
Definition rejectsExactlyWhenStated (editor : IActiveNotebookEditor) (range : ICellRange)
    (direction : JoinDirection) (constraint : option CellKind) : Prop :=
  joinNotebookCells editor range direction constraint = Returns None <->
  (spansBoundary editor range direction
   \/ kindConstraintViolated editor range direction constraint).

(** The comparator of the sort in [_splitPointsToBoundaries]. *)
Definition compareSplitPoints (l r : IPosition) : Z :=
  let lineDiff := Z.of_nat (lineNumber l) - Z.of_nat (lineNumber r) in
  let columnDiff := Z.of_nat (column l) - Z.of_nat (column r) in
  if negb (lineDiff =? 0) then lineDiff else columnDiff.

(** [Array.prototype.sort(compare)], a stable sort: insertion from the
    right, each element going before the first one it compares below. *)
Fixpoint insertSplitPoint (p : IPosition) (sorted : list IPosition) : list IPosition :=
  match sorted with
  | [] => [p]
  | q :: rest =>
      if compareSplitPoints p q <=? 0 then p :: sorted
      else q :: insertSplitPoint p rest
  end.

Definition sortSplitPoints (splitPoints : list IPosition) : list IPosition :=
  fold_right insertSplitPoint [] splitPoints.

(** [_pushIfAbsent(positions, p)] *)
Definition _pushIfAbsent (positions : list IPosition) (p : IPosition) : list IPosition :=
  match last positions with
  | None => positions ++ [p]
  | Some l =>
      if negb (lineNumber l =? lineNumber p)%nat || negb (column l =? column p)%nat
      then positions ++ [p]
      else positions
  end.

(** The body of the [for (let sp of splitPoints)] loop. *)
Definition boundaryOf (textBuffer : TextBuffer) (sp : IPosition) : IPosition :=
  let lineCnt := getLineCount textBuffer in
  if ((getLineLength textBuffer (lineNumber sp) + 1 =? column sp)%nat
      && negb (column sp =? 1)%nat
      && (lineNumber sp <? lineCnt)%nat)
  then Position (lineNumber sp + 1) 1
  else sp.

(** [_splitPointsToBoundaries(splitPoints, textBuffer)] *)
Definition _splitPointsToBoundaries (splitPoints : list IPosition)
    (textBuffer : TextBuffer) : option (list IPosition) :=
  let lineCnt := getLineCount textBuffer in
  let splitPoints := sortSplitPoints splitPoints in
  let boundaries :=
    fold_left (fun boundaries sp => _pushIfAbsent boundaries (boundaryOf textBuffer sp))
              splitPoints [] in
  match boundaries with
  | [] => None
  | _ =>
      let modelStart := Position 1 1 in
      let modelEnd := Position lineCnt (getLineLength textBuffer lineCnt + 1) in
      Some (modelStart :: boundaries ++ [modelEnd])
  end.

(** The loop of [computeCellLinesContents]: the text between each
    boundary and the next. *)
Fixpoint rangesContents (textBuffer : TextBuffer) (rangeBoundaries : list IPosition)
  : list string :=
  match rangeBoundaries with
  | start :: ((end_ :: _) as rest) =>
      getValueInRange textBuffer
        (mkTextRange (lineNumber start) (column start) (lineNumber end_) (column end_))
      :: rangesContents textBuffer rest
  | _ => []
  end.

(** [computeCellLinesContents(cell, splitPoints)] *)
Definition computeCellLinesContents (cell : Cell) (splitPoints : list IPosition)
  : option (list string) :=
  match _splitPointsToBoundaries splitPoints (textBuffer cell) with
  | None => None
  | Some rangeBoundaries => Some (rangesContents (textBuffer cell) rangeBoundaries)
  end.

(** The two ends of a buffer ([modelStart] and [modelEnd]). *)
Definition startOfModel : IPosition := Position 1 1.
Definition endOfModel (textBuffer : TextBuffer) : IPosition :=
  Position (getLineCount textBuffer)
           (getLineLength textBuffer (getLineCount textBuffer) + 1).

(** The text between two positions. *)
Definition textBetween (textBuffer : TextBuffer) (p q : IPosition) : string :=
  getValueInRange textBuffer
    (mkTextRange (lineNumber p) (column p) (lineNumber q) (column q)).

(** The order of positions in a text: by line, then by column. *)
Definition posLe (p q : IPosition) : Prop :=
  (lineNumber p < lineNumber q)%nat
  \/ (lineNumber p = lineNumber q /\ (column p <= column q)%nat).

Definition posLt (p q : IPosition) : Prop :=
  (lineNumber p < lineNumber q)%nat
  \/ (lineNumber p = lineNumber q /\ (column p < column q)%nat).

Fixpoint ascending (l : list IPosition) : Prop :=
  match l with
  | [] => True
  | p :: rest => Forall (posLe p) rest /\ ascending rest
  end.

Fixpoint strictlyAscending (l : list IPosition) : Prop :=
  match l with
  | [] => True
  | p :: rest => Forall (posLt p) rest /\ strictlyAscending rest
  end.

(** The split-point property as the specification states it: when a
    split point lands at an end-of-line boundary (its column is the line
    length plus one), the list returned has no empty trailing segment. *)
Definition noEmptyTrailingSegment (cell : Cell) (splitPoints : list IPosition) : Prop :=
  forall segments,
    computeCellLinesContents cell splitPoints = Some segments ->
    (exists sp, In sp splitPoints
                /\ column sp = (getLineLength (textBuffer cell) (lineNumber sp) + 1)%nat) ->
    last segments <> Some EmptyString.

(** [insertCellAtIndex(viewModel, index, source, language, type, metadata,
    outputs, synchronous, pushUndoStop = true)] *)
Definition insertCellAtIndex (viewModel : IActiveNotebookEditor) (index : Z)
    (source language : string) (type : CellKind) (metadata : option string)
    (outputs : list string) (synchronous pushUndoStop : bool)
  : option Cell * IActiveNotebookEditor :=
  let endSelections := mkSel (mkRange index (index + 1)) [mkRange index (index + 1)] in
  let viewModel :=
    applyEdits
      [CellReplaceEdit index 0 [mkDto type source language None outputs metadata]]
      synchronous (mkSel (getFocus viewModel) (getSelections viewModel))
      (fun _ => endSelections) pushUndoStop viewModel in
  (cellAt viewModel index, viewModel).

(** [x || fallback] on a string that may be missing. *)
Definition orDefault (x : option string) (fallback : string) : string :=
  match x with
  | Some s => if String.eqb s EmptyString then fallback else s
  | None => fallback
  end.

(** [insertCell(modeService, editor, index, type, direction = 'above',
    initialText = '', ui = false)]; [None] is the [null] returned. *)
Definition insertCell (editor : IActiveNotebookEditor) (index : Z) (type : CellKind)
    (direction : JoinDirection) (initialText : string) (ui : bool)
  : Outcome (option (option Cell) * IActiveNotebookEditor) :=
  let viewModel := editor in
  if isReadOnly (view viewModel) then Returns (None, editor)
  else
    let cell := cellAt editor index in
    let nextIndex := if ui then getNextVisibleCellIndex viewModel index else index + 1 in
    let language : Outcome string :=
      match type with
      | Code =>
          let supportedLanguages :=
            match supportedLanguages (view editor) with
            | Some ls => ls
            | None => getRegisteredModes
            end in
          let defaultLanguage := orDefault (head supportedLanguages) "plaintext" in
          let language : Outcome string :=
            match option_map cellKind cell with
            | Some Code =>
                Returns (match cell with Some c => language c | None => defaultLanguage end)
            | Some Markup =>
                let nearest := nearestCodeCellIndex viewModel index in
                if nearest >? -1 then
                  match cellAt viewModel nearest with
                  | Some c => Returns (language c)
                  | None => Throws
                  end
                else Returns defaultLanguage
            | None =>
                match direction with
                | above =>
                    Returns
                      (orDefault
                         (option_map language
                            (find (fun c => CellKind_eqb (cellKind c) Code)
                                  (cells (textModel viewModel))))
                         defaultLanguage)
                | below => Returns defaultLanguage
                end
            end in
          match language with
          | Returns l =>
              if existsb (String.eqb l) supportedLanguages then Returns l
              else Returns defaultLanguage
          | Throws => Throws
          end
      | Markup => Returns "markdown"%string
      end in
    match language with
    | Throws => Throws
    | Returns language =>
        let insertIndex :=
          match cell with
          | Some _ => match direction with above => index | below => nextIndex end
          | None => index
          end in
        let '(c, e) :=
          insertCellAtIndex viewModel insertIndex initialText language type None [] true true in
        Returns (Some c, e)
    end.

(** [moveCellToIdx(editor, index, length, newIdx, synchronous,
    pushedToUndoStack = true)]: the last parameter is not passed on.  The
    end of the range, [newIdx + 1], is the sum of the source where a
    number holds it exactly, that is for [newIdx] from -2^53 to
    2^53 - 1. *)
Definition moveCellToIdx (editor : IActiveNotebookEditor) (index length newIdx : Z)
    (synchronous pushedToUndoStack : bool) : bool * IActiveNotebookEditor :=
  match cellAt editor index with
  | None => (false, editor)
  | Some viewCell =>
      (true,
       applyEdits [CellMoveEdit index length newIdx] synchronous
                  (mkSel (getFocus editor) (getSelections editor))
                  (fun _ => mkSel (mkRange newIdx (newIdx + 1)) [mkRange newIdx (newIdx + 1)])
                  true editor)
  end.

End Operations.
End CellOperations.

(* ===================================================================== *)
(** ** Vocabulary for further properties of the cell operations           *)
(* ===================================================================== *)

Module CellOperationsMore.
Import NotebookCommon Text Model CellOperations.

(** The texts of a list joined without a separator ([join('')]). *)
Definition concatStrings (l : list string) : string :=
  fold_right String.append EmptyString l.

(** No position of the list equals the one right after it. *)
Fixpoint noAdjacentEqual (l : list IPosition) : Prop :=
  match l with
  | p :: ((q :: _) as rest) => p <> q /\ noAdjacentEqual rest
  | _ => True
  end.

(** The number of cells of a range. *)
Definition rangeSize (r : ICellRange) : Z := r_end r - r_start r.


(** The indexes of one range in ascending order, what
    [cellRangesToIndexes([range])] lists for a range. *)
Definition indexesOfRange (r : ICellRange) : list Z :=
  map (fun k => r_start r + Z.of_nat k) (seq 0 (Z.to_nat (rangeSize r))).

(** The cells of the list at the indexes [start .. end). *)
Definition cellsBetween (cs : list Cell) (start end_ : Z) : list Cell :=
  firstn (Z.to_nat (end_ - start)) (skipn (Z.to_nat start) cs).

(** *** joinCellsWithSurrounds, on the selections

    The branch of [joinCellsWithSurrounds] that is not from the UI, up to
    the point where it hands its edits to the bulk edit service. *)

(** What the branch has collected when it goes on to apply: the edits,
    the cell that becomes the primary one, and the cells that are put
    into Editing state and selected. *)
Record SurroundsPlan := mkPlan {
  plan_edits : list ResourceEdit;
  plan_cell : Cell;
  plan_cells : list Cell
}.

(** [selection.end >= textModel.length && direction === 'below'
     || selection.start === 0 && direction === 'above'] *)
Definition atDocumentEdge (editor : IActiveNotebookEditor) (direction : JoinDirection)
    (selection : ICellRange) : bool :=
  ((r_end selection >=? getLength editor)
   && match direction with below => true | above => false end)
  || ((r_start selection =? 0)
      && match direction with above => true | below => false end).

Section Surrounds.

(** [cellRangeContains] is not among the sources. *)
Variable cellRangeContains : ICellRange -> ICellRange -> bool.

(** One round of the loop over the selections; [edits], [cell] and
    [cells] are the three variables of the loop, and [Returns None] is
    the [return] that leaves the function. *)
Definition joinSelection (editor : IActiveNotebookEditor) (direction : JoinDirection)
    (focus : ICellRange)
    (state : list ResourceEdit * option Cell * list Cell) (selection : ICellRange)
  : Outcome (option (list ResourceEdit * option Cell * list Cell)) :=
  let '(edits, cell, cells) := state in
  let containFocus := cellRangeContains selection focus in
  if atDocumentEdge editor direction selection then
    let cell := if containFocus then cellAt editor (r_start focus) else cell in
    Returns (Some (edits, cell, cells ++ getCellsInRange editor selection))
  else
    match joinNotebookCells editor selection direction None with
    | Throws => Throws
    | Returns None => Returns None
    | Returns (Some singleRet) =>
        Returns (Some (edits ++ CellOperations.edits singleRet,
                       (if containFocus then Some (join_cell singleRet) else cell),
                       cells ++ [join_cell singleRet]))
    end.

(** The loop [for (let i = selections.length - 1; i >= 0; i--)], over the
    selections in the order it visits them. *)
Fixpoint joinSelections (editor : IActiveNotebookEditor) (direction : JoinDirection)
    (focus : ICellRange) (visited : list ICellRange)
    (state : list ResourceEdit * option Cell * list Cell)
  : Outcome (option (list ResourceEdit * option Cell * list Cell)) :=
  match visited with
  | [] => Returns (Some state)
  | selection :: rest =>
      match joinSelection editor direction focus state selection with
      | Returns (Some state) => joinSelections editor direction focus rest state
      | other => other
      end
  end.

(** [joinCellsWithSurrounds(bulkEditService, context, direction)] with
    [context.ui] not set, up to [bulkEditService.apply]. *)
Definition joinCellsWithSurrounds (editor : IActiveNotebookEditor)
    (direction : JoinDirection) : Outcome (option SurroundsPlan) :=
  let selections := getSelections editor in
  match selections with
  | [] => Returns None
  | _ =>
      let focus := getFocus editor in
      match joinSelections editor direction focus (rev selections) ([], None, []) with
      | Throws => Throws
      | Returns None => Returns None
      | Returns (Some (edits, cell, cells)) =>
          match edits with
          | [] => Returns None
          | _ =>
              match cell, cells with
              | Some cell, _ :: _ => Returns (Some (mkPlan edits cell cells))
              | _, _ => Returns None
              end
          end
      end
  end.

End Surrounds.

End CellOperationsMore.

(* ===================================================================== *)
(** ** Concrete notebooks, sessions and batches                           *)
(* ===================================================================== *)

Module Examples.
Import NotebookCommon Text Model CellOperations.
Local Open Scope string_scope.

(** A registry of adapters named by strings, with one factory for "node". *)
Definition nodeFactory : Debug.IDebugAdapterFactory string :=
  Debug.mkFactory (fun s => String.append "adapter:" (Debug.session_name s)).

Definition nodeSession : Debug.IDebugSession := Debug.mkSession "s1" "node".
Definition pythonSession : Debug.IDebugSession := Debug.mkSession "s2" "python".

(** Two notebooks with an open editor each, and one edit for each. *)
Definition editA : Bulk.ResourceNotebookCellEdit :=
  Bulk.mkResourceEdit "a.ipynb" (CellReplaceEdit 0 1 []).
Definition editB : Bulk.ResourceNotebookCellEdit :=
  Bulk.mkResourceEdit "b.ipynb" (CellMoveEdit 0 1 1).
Definition twoEditors : Bulk.NotebookService :=
  <["a.ipynb" := 1%nat]> (<["b.ipynb" := 2%nat]> ∅).

(** Cancellation requested while the first group is being applied. *)
Definition cancelledAfterFirst : Bulk.CancellationToken := fun i => (1 <=? i)%nat.

(** A notebook of two code cells, the first focused and selected. *)
Definition codeCell (h : nat) (source : string) : Cell :=
  mkCell h Code (createTextBuffer source) "python" None [] None Preview.
Definition markupCell (h : nat) (source : string) : Cell :=
  mkCell h Markup (createTextBuffer source) "markdown" None [] None Preview.

Definition twoCellModel : NotebookTextModel :=
  mkTextModel "nb.ipynb" [codeCell 0 "a = 1"; codeCell 1 "b = 2"] 2 [].

Definition twoCells : IActiveNotebookEditor :=
  mkActive (mkView false (mkRange 0 1) [mkRange 0 1] (Some ["python"]) []) twoCellModel.

Definition readOnlyTwoCells : IActiveNotebookEditor :=
  mkActive (mkView true (mkRange 0 1) [mkRange 0 1] (Some ["python"]) []) twoCellModel.

(** The same notebook as an editor that may lack its model; without one. *)
Definition readOnlyEditor : INotebookEditor := toEditor readOnlyTwoCells.
Definition editorWithoutModel : INotebookEditor :=
  mkEditor (mkView false (mkRange 0 0) [] None []) None.

(** Three code cells, the first and the third selected. *)
Definition threeCells : IActiveNotebookEditor :=
  mkActive (mkView false (mkRange 0 1) [mkRange 0 1; mkRange 2 3] (Some ["python"]) [])
           (mkTextModel "nb.ipynb"
                        [codeCell 0 "a = 1"; codeCell 1 "b = 2"; codeCell 2 "c = 3"] 3 []).

(** The notebook helpers as a notebook without hidden cells has them. *)
Definition noHiddenCells (_ : IActiveNotebookEditor) (ranges : list ICellRange)
  : list ICellRange := ranges.
Definition containsRange (range other : ICellRange) : bool :=
  ((r_start other >=? r_start range) && (r_end other <=? r_end range))%Z.

(** One cell, focused, with no selection. *)
Definition oneCell : IActiveNotebookEditor :=
  mkActive (mkView false (mkRange 0 1) [] (Some ["python"]) [])
           (mkTextModel "nb.ipynb" [codeCell 0 "a = 1"] 1 []).

(** A cell whose text is the one line "abc". *)
Definition abcCell : Cell :=
  mkCell 7 Code (mkBuffer ["abc"] (String "010"%char EmptyString)) "python" None [] None Preview.

(** A cell of three lines, the last one empty. *)
Definition threeLineCell : Cell :=
  mkCell 8 Code (mkBuffer ["abc"; "de"; ""] (String "010"%char EmptyString))
         "python" None [] None Preview.

End Examples.

(* ===================================================================== *)
(** ** Further example data                                               *)
(* ===================================================================== *)

Module ExamplesMore.
Import NotebookCommon Text Model CellOperations Examples.
Local Open Scope string_scope.

(** The view-model helpers of a notebook without hidden cells in which
    no code cell is near. *)
Definition nextVisible (_ : IActiveNotebookEditor) (index : Z) : Z := (index + 1)%Z.
Definition noCodeCellNear (_ : IActiveNotebookEditor) (_ : Z) : Z := (-1)%Z.
(** A [nearestCodeCellIndex] that answers with an index behind the
    document. *)
Definition codeCellBehindEnd (e : IActiveNotebookEditor) (_ : Z) : Z := getLength e.

(** A code cell in a language the kernel of [rNotebook] does not
    support, and a notebook of that cell and a markup cell. *)
Definition rCell (h : nat) (source : string) : Cell :=
  mkCell h Code (createTextBuffer source) "r" None [] None Preview.
Definition rNotebook : IActiveNotebookEditor :=
  mkActive (mkView false (mkRange 0 1) [mkRange 0 1] (Some ["python"]) [])
           (mkTextModel "nb.ipynb" [rCell 0 "x <- 1"; markupCell 1 "# title"] 2 []).

End ExamplesMore.

(* ===================================================================== *)
(** ** More of the debug adapter registry (debugAdapterManager.ts)        *)
(* ===================================================================== *)

Module DebugMore.
Import Debug.

Section Descriptors.

(** The descriptors are the host's; the registry passes them through. *)
Variable IAdapterDescriptor : Type.

(** [IDebugAdapterDescriptorFactory]: the registry reads [type] and
    [createDebugAdapterDescriptor], which may be missing.  [provider_ref]
    stands for the identity of the object, which is what [indexOf]
    compares. *)
Record IDebugAdapterDescriptorFactory := mkDescriptorFactory {
  provider_ref : nat;
  provider_type : string;
  createDebugAdapterDescriptor : option (IDebugSession -> IAdapterDescriptor)
}.

(** [array.indexOf(p)] counted from [i]: -1 when [p] is not there. *)
Fixpoint indexOf (l : list IDebugAdapterDescriptorFactory)
    (p : IDebugAdapterDescriptorFactory) (i : Z) : Z :=
  match l with
  | [] => -1
  | x :: rest =>
      if (provider_ref x =? provider_ref p)%nat then i else indexOf rest p (i + 1)
  end.

(** [registerDebugAdapterDescriptorFactory]: the push. *)
Definition registerDebugAdapterDescriptorFactory
    (debugAdapterProvider : IDebugAdapterDescriptorFactory)
    (adapterDescriptorFactories : list IDebugAdapterDescriptorFactory)
  : list IDebugAdapterDescriptorFactory :=
  adapterDescriptorFactories ++ [debugAdapterProvider].

(** [unregisterDebugAdapterDescriptorFactory], which the [dispose] of a
    registration calls. *)
Definition unregisterDebugAdapterDescriptorFactory
    (debugAdapterProvider : IDebugAdapterDescriptorFactory)
    (adapterDescriptorFactories : list IDebugAdapterDescriptorFactory)
  : list IDebugAdapterDescriptorFactory :=
  let ix := indexOf adapterDescriptorFactories debugAdapterProvider 0 in
  if ix >=? 0 then Model.splice adapterDescriptorFactories ix 1 []
  else adapterDescriptorFactories.

(** [p.type === config.type && p.createDebugAdapterDescriptor] *)
Definition providesFor (session : IDebugSession) (p : IDebugAdapterDescriptorFactory)
  : bool :=
  String.eqb (provider_type p) (configuration_type session)
  && match createDebugAdapterDescriptor p with Some _ => true | None => false end.

(** [getDebugAdapterDescriptor(session)]: [None] is the [undefined] the
    promise resolves to. *)
Definition getDebugAdapterDescriptor
    (adapterDescriptorFactories : list IDebugAdapterDescriptorFactory)
    (session : IDebugSession) : option IAdapterDescriptor :=
  let providers := List.filter (providesFor session) adapterDescriptorFactories in
  match providers with
  | [p] =>
      match createDebugAdapterDescriptor p with
      | Some create => Some (create session)
      | None => None
      end
  | _ => None
  end.

End Descriptors.

Arguments mkDescriptorFactory {IAdapterDescriptor} _ _ _.
Arguments provider_ref {IAdapterDescriptor} _.
Arguments provider_type {IAdapterDescriptor} _.
Arguments createDebugAdapterDescriptor {IAdapterDescriptor} _.
Arguments indexOf {IAdapterDescriptor} l p i.
Arguments registerDebugAdapterDescriptorFactory {IAdapterDescriptor} _ _.
Arguments unregisterDebugAdapterDescriptorFactory {IAdapterDescriptor} _ _.
Arguments providesFor {IAdapterDescriptor} session p.
Arguments getDebugAdapterDescriptor {IAdapterDescriptor} _ session.

(** The handler of [breakpointsExtPoint]: the languages of the removed
    contributions are deleted from [breakpointModeIdsSet], then those of
    the added ones are added. *)
Definition breakpointsExtPointHandler (removed added : list (list string))
    (breakpointModeIdsSet : gset string) : gset string :=
  let afterRemoved :=
    fold_left (fun s breakpoints =>
                 fold_left (fun s language => s ∖ {[language]}) breakpoints s)
              removed breakpointModeIdsSet in
  fold_left (fun s breakpoints =>
               fold_left (fun s language => {[language]} ∪ s) breakpoints s)
            added afterRemoved.

(** [canSetBreakpointsIn(model)], on the language id of the model, the
    setting [debug.allowBreakpointsEverywhere] and the set. *)
Definition canSetBreakpointsIn (languageId : string) (allowBreakpointsEverywhere : bool)
    (breakpointModeIdsSet : gset string) : bool :=
  if String.eqb languageId "" || String.eqb languageId "jsonc"
     || String.eqb languageId "log"
  then false
  else if allowBreakpointsEverywhere then true
  else bool_decide (languageId ∈ breakpointModeIdsSet).

(** Two providers for "node" and one for "python". *)
Definition nodeProvider : IDebugAdapterDescriptorFactory string :=
  mkDescriptorFactory 1 "node" (Some (fun s => String.append "exec:" (session_name s))).
Definition otherNodeProvider : IDebugAdapterDescriptorFactory string :=
  mkDescriptorFactory 2 "node" (Some (fun s => String.append "server:" (session_name s))).
Definition pythonProvider : IDebugAdapterDescriptorFactory string :=
  mkDescriptorFactory 3 "python" (Some (fun s => String.append "py:" (session_name s))).

End DebugMore.

(* ===================================================================== *)
(** ** The line data addon of the terminal (LineDataEventAddon)           *)
(* ===================================================================== *)

Module Terminal.

(** [IBufferLine] of xterm, as the addon reads it: whether the line
    continues the line before it, and its text, with the white space at
    its end trimmed ([translateToString(true)]) or not. *)
Record IBufferLine := mkLine {
  isWrapped : bool;
  translateToString : bool -> string
}.

(** [IBuffer]: the lines and the place of the cursor. *)
Record IBuffer := mkTerminalBuffer {
  lines : list IBufferLine;
  baseY : Z;
  cursorY : Z
}.

(** [buffer.getLine(y)]: [undefined] outside the buffer. *)
Definition getLine (buffer : IBuffer) (y : Z) : option IBufferLine :=
  if y <? 0 then None else nth_error (lines buffer) (Z.to_nat y).

(** The [while (lineIndex > 0 && line.isWrapped)] loop of
    [_sendLineData]; the recursion is on [lineIndex], which every round
    counts down. *)
Fixpoint collectWrapped (buffer : IBuffer) (lineIndex : nat) (line : IBufferLine)
    (lineData : string) : string :=
  match lineIndex with
  | O => lineData
  | S previous =>
      if isWrapped line then
        match getLine buffer (Z.of_nat previous) with
        | None => lineData
        | Some line =>
            collectWrapped buffer previous line
                           (String.append (translateToString line false) lineData)
        end
      else lineData
  end.

(** [_sendLineData(buffer, lineIndex)]: the data fired on [onLineData],
    [None] when nothing is fired. *)
Definition _sendLineData (buffer : IBuffer) (lineIndex : Z) : option string :=
  match getLine buffer lineIndex with
  | None => None
  | Some line =>
      Some (collectWrapped buffer (Z.to_nat lineIndex) line (translateToString line true))
  end.

(** The [xterm.onLineFeed] listener of [activate]. *)
Definition onLineFeed (buffer : IBuffer) : option string :=
  match getLine buffer (baseY buffer + cursorY buffer) with
  | Some newLine =>
      if negb (isWrapped newLine)
      then _sendLineData buffer (baseY buffer + cursorY buffer - 1)
      else None
  | None => None
  end.

(** [OperatingSystem] of vs/base/common/platform. *)
Inductive OperatingSystem := Windows | Macintosh | Linux.

(** The addon: whether [activate] has set [_xterm], [_isOsSet], and the
    number of CSI 'H' handlers registered on the parser. *)
Record LineDataEventAddon := mkAddon {
  xtermSet : bool;
  _isOsSet : bool;
  csiHandlers : nat
}.

Definition newAddon : LineDataEventAddon := mkAddon false false 0.

(** [activate(xterm)], as far as [setOperatingSystem] sees it. *)
Definition activate (a : LineDataEventAddon) : LineDataEventAddon :=
  mkAddon true (_isOsSet a) (csiHandlers a).

(** [setOperatingSystem(os)] *)
Definition setOperatingSystem (os : OperatingSystem) (a : LineDataEventAddon)
  : LineDataEventAddon :=
  if _isOsSet a || negb (xtermSet a) then a
  else
    match os with
    | Windows => mkAddon (xtermSet a) true (S (csiHandlers a))
    | _ => mkAddon (xtermSet a) true (csiHandlers a)
    end.

(** A line of 80 columns, by its text without and with the white space
    at its end. *)
Definition textLine (wrapped : bool) (trimmed padding : string) : IBufferLine :=
  mkLine wrapped (fun trimRight => if trimRight then trimmed
                                   else String.append trimmed padding).

End Terminal.

(* ===================================================================== *)
(** ** Paths of the coverage instrumenter (test/smoke/instrument.js)      *)
(* ===================================================================== *)

Module Instrument.
Import Text.

(** [[a-z]] and [[A-Z]] of the two regular expressions. *)
Definition isLowerLetter (c : ascii) : bool :=
  ((97 <=? nat_of_ascii c) && (nat_of_ascii c <=? 122))%nat.
Definition isUpperLetter (c : ascii) : bool :=
  ((65 <=? nat_of_ascii c) && (nat_of_ascii c <=? 90))%nat.

(** [toUpperCase()] and [toLowerCase()] on the one character
    [str.charAt(0)], which is a letter where the code calls them. *)
Definition toUpperCase (c : ascii) : ascii :=
  if isLowerLetter c then ascii_of_nat (nat_of_ascii c - 32) else c.
Definition toLowerCase (c : ascii) : ascii :=
  if isUpperLetter c then ascii_of_nat (nat_of_ascii c + 32) else c.

(** [/^[a-z]:/.test(str)] *)
Definition lowerDriveTest (str : string) : bool :=
  match str with
  | String c (String d _) => isLowerLetter c && Ascii.eqb d ":"
  | _ => false
  end.

(** [/^[A-Z]:/.test(str)] *)
Definition upperDriveTest (str : string) : bool :=
  match str with
  | String c (String d _) => isUpperLetter c && Ascii.eqb d ":"
  | _ => false
  end.

(** [toUpperDriveLetter(str)]:
    [str.charAt(0).toUpperCase() + str.substr(1)] under the test. *)
Definition toUpperDriveLetter (str : string) : string :=
  if lowerDriveTest str then
    match str with
    | String c rest => String (toUpperCase c) rest
    | EmptyString => str
    end
  else str.

(** [toLowerDriveLetter(str)] *)
Definition toLowerDriveLetter (str : string) : string :=
  if upperDriveTest str then
    match str with
    | String c rest => String (toLowerCase c) rest
    | EmptyString => str
    end
  else str.

(** [str.lastIndexOf(searchString)]: the index of the last occurrence of
    [searchString] in [str], -1 when there is none. *)
Fixpoint lastIndexOf (str searchString : string) : Z :=
  match str with
  | EmptyString => if String.eqb searchString EmptyString then 0 else -1
  | String _ rest =>
      let later := lastIndexOf rest searchString in
      if later >=? 0 then later + 1
      else if String.prefix searchString str then 0 else -1
  end.

(** [fixPath(brokenPath)], with the constant [REPO_PATH] as argument. *)
Definition fixPath (REPO_PATH brokenPath : string) : string :=
  let startIndex := lastIndexOf brokenPath REPO_PATH in
  if startIndex =? -1 then toLowerDriveLetter brokenPath
  else toLowerDriveLetter (dropString (Z.to_nat startIndex) brokenPath).

End Instrument.

(* ===================================================================== *)
(** ** Telemetry services by endpoint (customEndpointTelemetryService.ts) *)
(* ===================================================================== *)

Module Telemetry.

(** [ITelemetryEndpoint] *)
Record ITelemetryEndpoint := mkEndpoint {
  endpoint_id : string;
  aiKey : string;
  sendErrorTelemetry : bool
}.

(** [{ machineId, sessionId }] of [telemetryService.getTelemetryInfo()]. *)
Record TelemetryInfo := mkInfo {
  machineId : string;
  sessionId : string
}.

(** The [args] of the telemetry client: [endpoint.id], the telemetry
    info that is passed as JSON, and [endpoint.aiKey]. *)
Record ClientArgs := mkArgs {
  arg_id : string;
  arg_info : TelemetryInfo;
  arg_aiKey : string
}.

(** The [TelemetryService] made for an endpoint, by what it is made of:
    the client behind its first appender, the prefix of its log appender
    (the endpoint id), and [sendErrorTelemetry]. *)
Record CustomService := mkService {
  service_client : ClientArgs;
  service_logPrefix : string;
  service_sendErrorTelemetry : bool
}.

(** One event handed to a service: [publicLog] or [publicLogError], and
    the event name. *)
Record LoggedEvent := mkLogged {
  logged_service : CustomService;
  logged_isError : bool;
  logged_eventName : string
}.

(** The service object and what it has caused: [customTelemetryServices],
    the clients started, and the events handed to services, in order. *)
Record CustomEndpointTelemetryService := mkTelemetry {
  customTelemetryServices : gmap string CustomService;
  clients : list ClientArgs;
  logged : list LoggedEvent
}.

Definition newTelemetry : CustomEndpointTelemetryService := mkTelemetry ∅ [] [].

(** [getCustomTelemetryService(endpoint)]; the service it returns is
    [customTelemetryServices.get(endpoint.id)!]. *)
Definition getCustomTelemetryService (info : TelemetryInfo) (endpoint : ITelemetryEndpoint)
    (this : CustomEndpointTelemetryService)
  : option CustomService * CustomEndpointTelemetryService :=
  let this :=
    match customTelemetryServices this !! endpoint_id endpoint with
    | Some _ => this
    | None =>
        let args := mkArgs (endpoint_id endpoint) info (aiKey endpoint) in
        mkTelemetry
          (<[endpoint_id endpoint :=
               mkService args (endpoint_id endpoint) (sendErrorTelemetry endpoint)]>
             (customTelemetryServices this))
          (clients this ++ [args])
          (logged this)
    end in
  (customTelemetryServices this !! endpoint_id endpoint, this).

(** [publicLog] and [publicLogError], told apart by [isError]; calling
    a method of a missing service would throw. *)
Definition publicLogWith (isError : bool) (info : TelemetryInfo)
    (telemetryEndpoint : ITelemetryEndpoint) (eventName : string)
    (this : CustomEndpointTelemetryService) : option CustomEndpointTelemetryService :=
  match getCustomTelemetryService info telemetryEndpoint this with
  | (Some customTelemetryService, this) =>
      Some (mkTelemetry (customTelemetryServices this) (clients this)
                        (logged this ++ [mkLogged customTelemetryService isError eventName]))
  | (None, _) => None
  end.

Definition publicLog := publicLogWith false.
Definition publicLogError := publicLogWith true.




End Telemetry.

(* ===================================================================== *)
(** ** The context menu of the status bar (statusbarPart.ts)              *)
(* ===================================================================== *)

Module Statusbar.

(** [IStatusbarViewModelEntry], as the context menu reads it: [id],
    [name], and the element that is its [container]. *)
Record IStatusbarViewModelEntry := mkEntry {
  entry_id : string;
  entry_name : string;
  entry_container : nat
}.

(** The actions of the context menu. *)
Inductive IAction :=
| ToggleStatusbarVisibilityAction
| Separator
| ToggleStatusbarEntryVisibilityAction (id name : string)
| HideStatusbarEntryAction (id name : string).

Section ContextMenu.

(** [viewModel.findEntry(element)] is not among the sources. *)
Variable findEntry : nat -> option IStatusbarViewModelEntry.

(** The loop over [viewModel.entries] with the set [handledEntries]. *)
Definition entryActions (entries : list IStatusbarViewModelEntry) (actions : list IAction)
  : list IAction * gset string :=
  fold_left
    (fun '(actions, handledEntries) entry =>
       if bool_decide (entry_id entry ∈ handledEntries) then (actions, handledEntries)
       else
         (actions ++ [ToggleStatusbarEntryVisibilityAction (entry_id entry) (entry_name entry)],
          {[entry_id entry]} ∪ handledEntries))
    entries (actions, ∅).

(** The loop from [event.target] up through the [parentElement]s, which
    are given as the list of these elements. *)
Fixpoint statusEntryUnderMouse (elements : list nat) : option IStatusbarViewModelEntry :=
  match elements with
  | [] => None
  | element :: parents =>
      match findEntry element with
      | Some entry => Some entry
      | None => statusEntryUnderMouse parents
      end
  end.

(** [getContextMenuActions(event)], on the entries of the view model and
    the elements from the event's target upwards. *)
Definition getContextMenuActions (entries : list IStatusbarViewModelEntry)
    (elements : list nat) : list IAction :=
  let actions := [ToggleStatusbarVisibilityAction; Separator] in
  let '(actions, _) := entryActions entries actions in
  match statusEntryUnderMouse elements with
  | Some entry =>
      actions ++ [Separator; HideStatusbarEntryAction (entry_id entry) (entry_name entry)]
  | None => actions
  end.

End ContextMenu.

(** *** Entries added before the part is created *)

Inductive StatusbarAlignment := LEFT | RIGHT.

(** [IPendingStatusbarEntry]: the entry (by its text), [id], [alignment],
    [priority.primary], and [accessor], which is the item of the view once
    the entry has been created. *)
Record IPendingStatusbarEntry := mkPending {
  pending_entry : string;
  pending_id : string;
  pending_alignment : StatusbarAlignment;
  pending_primary : Z;
  pending_accessor : option nat
}.

(** An item of the view as [doAddEntry] makes it, in place of the DOM
    element and the view model entry. *)
Record StatusbarItem := mkItem {
  item_handle : nat;
  item_entry : string;
  item_id : string;
  item_alignment : StatusbarAlignment;
  item_primary : Z
}.

(** The part: whether [this.element] is set; the array [pendingEntries],
    which holds references to pending entry objects; these objects, which
    the accessors keep reading after the array has let go of them; the
    items of the view in the order in which they were added; and the next
    free reference of either kind. *)
Record StatusbarPart := mkPart {
  element : bool;
  pendingEntries : list nat;
  pendingObjects : gmap nat IPendingStatusbarEntry;
  items : list StatusbarItem;
  nextPending : nat;
  nextItem : nat
}.

(** [IStatusbarEntryAccessor]: the accessor of a pending entry closes
    over the pending entry object, the one [doAddEntry] returns over the
    item. *)
Inductive IStatusbarEntryAccessor :=
| PendingAccessor (pendingEntry : nat)
| ItemAccessor (item : nat).

(** [doAddEntry], as far as the view gets a new item. *)
Definition doAddEntry (entry id : string) (alignment : StatusbarAlignment) (primary : Z)
    (part : StatusbarPart) : IStatusbarEntryAccessor * StatusbarPart :=
  (ItemAccessor (nextItem part),
   mkPart (element part) (pendingEntries part) (pendingObjects part)
          (items part ++ [mkItem (nextItem part) entry id alignment primary])
          (nextPending part) (S (nextItem part))).

(** [doAddPendingEntry] *)
Definition doAddPendingEntry (entry id : string) (alignment : StatusbarAlignment)
    (primary : Z) (part : StatusbarPart) : IStatusbarEntryAccessor * StatusbarPart :=
  let pendingEntry := nextPending part in
  (PendingAccessor pendingEntry,
   mkPart (element part) (pendingEntries part ++ [pendingEntry])
          (<[pendingEntry := mkPending entry id alignment primary None]>
             (pendingObjects part))
          (items part) (S (nextPending part)) (nextItem part)).

(** [addEntry(entry, id, alignment, priorityOrLocation)] *)
Definition addEntry (entry id : string) (alignment : StatusbarAlignment) (primary : Z)
    (part : StatusbarPart) : IStatusbarEntryAccessor * StatusbarPart :=
  if negb (element part) then doAddPendingEntry entry id alignment primary part
  else doAddEntry entry id alignment primary part.

(** [item.update(entry)] and the removal of an item from the view. *)
Definition updateItem (item : nat) (entry : string) (part : StatusbarPart) : StatusbarPart :=
  mkPart (element part) (pendingEntries part) (pendingObjects part)
         (map (fun it => if (item_handle it =? item)%nat
                         then mkItem (item_handle it) entry (item_id it)
                                     (item_alignment it) (item_primary it)
                         else it)
              (items part))
         (nextPending part) (nextItem part).
Definition removeItem (item : nat) (part : StatusbarPart) : StatusbarPart :=
  mkPart (element part) (pendingEntries part) (pendingObjects part)
         (List.filter (fun it => negb (item_handle it =? item)%nat) (items part))
         (nextPending part) (nextItem part).

(** [accessor.update(entry)] *)
Definition update (accessor : IStatusbarEntryAccessor) (entry : string)
    (part : StatusbarPart) : StatusbarPart :=
  match accessor with
  | ItemAccessor item => updateItem item entry part
  | PendingAccessor ref =>
      match pendingObjects part !! ref with
      | Some pendingEntry =>
          match pending_accessor pendingEntry with
          | Some item => updateItem item entry part
          | None =>
              mkPart (element part) (pendingEntries part)
                     (<[ref := mkPending entry (pending_id pendingEntry)
                                         (pending_alignment pendingEntry)
                                         (pending_primary pendingEntry) None]>
                        (pendingObjects part))
                     (items part) (nextPending part) (nextItem part)
          end
      | None => part
      end
  end.

(** [accessor.dispose()] *)
Definition dispose (accessor : IStatusbarEntryAccessor) (part : StatusbarPart)
  : StatusbarPart :=
  match accessor with
  | ItemAccessor item => removeItem item part
  | PendingAccessor ref =>
      match pendingObjects part !! ref with
      | Some pendingEntry =>
          match pending_accessor pendingEntry with
          | Some item => removeItem item part
          | None =>
              mkPart (element part)
                     (List.filter (fun entry => negb (entry =? ref)%nat) (pendingEntries part))
                     (pendingObjects part) (items part) (nextPending part) (nextItem part)
          end
      | None => part
      end
  end.

(** The [while (this.pendingEntries.length)] loop of
    [createInitialStatusbarEntries], over the array it shifts its entries
    from.  [this.element] is set when it runs, so that [addEntry] is
    [doAddEntry] and adds nothing to the array. *)
Fixpoint fillPendingEntries (shifted : list nat) (part : StatusbarPart)
  : StatusbarPart :=
  match shifted with
  | [] => part
  | ref :: rest =>
      let part := mkPart (element part) rest (pendingObjects part) (items part)
                         (nextPending part) (nextItem part) in
      match pendingObjects part !! ref with
      | Some pending =>
          let '(_, added) :=
            doAddEntry (pending_entry pending) (pending_id pending)
                       (pending_alignment pending) (pending_primary pending) part in
          fillPendingEntries rest
            (mkPart (element added) (pendingEntries added)
                    (<[ref := mkPending (pending_entry pending) (pending_id pending)
                                        (pending_alignment pending)
                                        (pending_primary pending)
                                        (Some (nextItem part))]>
                       (pendingObjects added))
                    (items added) (nextPending added) (nextItem added))
      | None => fillPendingEntries rest part
      end
  end.

(** [createContentArea(parent)], as far as the entries go: [this.element]
    is set and the pending entries are created. *)
Definition createContentArea (part : StatusbarPart) : StatusbarPart :=
  fillPendingEntries (pendingEntries part)
    (mkPart true (pendingEntries part) (pendingObjects part) (items part)
            (nextPending part) (nextItem part)).

(** A part in which the references in use are below the next free
    ones. *)
Definition wellFormed (part : StatusbarPart) : Prop :=
  List.Forall (fun ref => (ref < nextPending part)%nat) (pendingEntries part)
  /\ List.Forall (fun it => (item_handle it < nextItem part)%nat) (items part).

Definition newPart : StatusbarPart := mkPart false [] ∅ [] 0 0.

(** The toggle action of an entry. *)
Definition toggleOf (entry : IStatusbarViewModelEntry) : IAction :=
  ToggleStatusbarEntryVisibilityAction (entry_id entry) (entry_name entry).

(** Three entries, two of them of one extension under one id, and a
    view model that finds the entry of element 11. *)
Definition gitEntry : IStatusbarViewModelEntry := mkEntry "git.status" "Git" 10.
Definition firstExtEntry : IStatusbarViewModelEntry := mkEntry "ext.item" "Ext A" 11.
Definition secondExtEntry : IStatusbarViewModelEntry := mkEntry "ext.item" "Ext B" 12.
Definition findByContainer (element : nat) : option IStatusbarViewModelEntry :=
  find (fun e => (entry_container e =? element)%nat) [gitEntry; firstExtEntry; secondExtEntry].

End Statusbar.

(* ===================================================================== *)
(** * Properties                                                          *)
(* ===================================================================== *)

(* ===================================================================== *)
(** ** The debug adapter registry                                         *)
(* ===================================================================== *)

Module DebugFacts.
Import Debug Examples.

Section Registry.
Context {IDebugAdapter : Type}.
Implicit Types (m : AdapterManager IDebugAdapter) (f : IDebugAdapterFactory IDebugAdapter).

Lemma register_lookup_in debugTypes f (fs : gmap string (IDebugAdapterFactory IDebugAdapter)) t :
  In t debugTypes ->
  fold_left (fun fs debugType => <[debugType := f]> fs) debugTypes fs !! t = Some f.
Proof.
  revert fs. induction debugTypes as [|d ds IH]; intros fs Hin; [destruct Hin|].
  simpl. destruct (in_dec string_dec t ds) as [Hds|Hds].
  - apply IH, Hds.
  - destruct Hin as [->|Hin]; [|contradiction].
    assert (Hkeep : forall (g : gmap string (IDebugAdapterFactory IDebugAdapter)),
               g !! t = Some f ->
               fold_left (fun fs debugType => <[debugType := f]> fs) ds g !! t = Some f).
    { clear. induction ds as [|d ds IH]; intros g Hg; simpl; [exact Hg|].
      apply IH. destruct (decide (d = t)) as [->|Hne].
      - apply lookup_insert_eq.
      - rewrite lookup_insert_ne; [exact Hg|exact Hne]. }
    apply Hkeep, lookup_insert_eq.
Qed.

Lemma dispose_lookup_in debugTypes (fs : gmap string (IDebugAdapterFactory IDebugAdapter)) t :
  In t debugTypes ->
  fold_left (fun fs debugType => delete debugType fs) debugTypes fs !! t = None.
Proof.
  assert (Hkeep : forall ds (g : gmap string (IDebugAdapterFactory IDebugAdapter)),
             g !! t = None ->
             fold_left (fun fs debugType => delete debugType fs) ds g !! t = None).
  { induction ds as [|d ds IH]; intros g Hg; simpl; [exact Hg|].
    apply IH. destruct (decide (d = t)) as [->|Hne].
    - apply lookup_delete_eq.
    - rewrite lookup_delete_ne; [exact Hg|exact Hne]. }
  revert fs. induction debugTypes as [|d ds IH]; intros fs Hin; [destruct Hin|].
  simpl. destruct Hin as [->|Hin].
  - apply Hkeep, lookup_delete_eq.
  - apply IH, Hin.
Qed.

(** C9.  A session whose configuration type has no registered factory
    gets [undefined] from [createDebugAdapter] (a value, not an error);
    when a factory is registered under the type — found in the map, or
    just put there by [registerDebugAdapterFactory] — the adapter is the
    one that factory creates for the session; and once the registration
    is disposed the answer is [undefined] again. *)
Theorem createDebugAdapter_undefined_or_factory m (session : IDebugSession) :
  (debugAdapterFactories m !! configuration_type session = None ->
   createDebugAdapter m session = None) /\
  (forall f, debugAdapterFactories m !! configuration_type session = Some f ->
             createDebugAdapter m session = Some (factory_createDebugAdapter _ f session)) /\
  (forall debugTypes f, In (configuration_type session) debugTypes ->
     createDebugAdapter (registerDebugAdapterFactory debugTypes f m) session
     = Some (factory_createDebugAdapter _ f session)) /\
  (forall debugTypes, In (configuration_type session) debugTypes ->
     createDebugAdapter (disposeDebugAdapterFactory debugTypes m) session = None).
Proof.
  unfold createDebugAdapter. repeat split.
  - intros ->. reflexivity.
  - intros f ->. reflexivity.
  - intros debugTypes f Hin. unfold registerDebugAdapterFactory. simpl.
    rewrite (register_lookup_in _ _ _ _ Hin). reflexivity.
  - intros debugTypes Hin. unfold disposeDebugAdapterFactory. simpl.
    rewrite (dispose_lookup_in _ _ _ Hin). reflexivity.
Qed.

End Registry.

Lemma createDebugAdapter_witness :
  createDebugAdapter (registerDebugAdapterFactory ["node"%string] nodeFactory emptyManager)
                     pythonSession = None
  /\ createDebugAdapter (registerDebugAdapterFactory ["node"%string] nodeFactory emptyManager)
                        nodeSession = Some "adapter:s1"%string.
Proof.
  split.
  - apply (proj1 (createDebugAdapter_undefined_or_factory
                    (registerDebugAdapterFactory ["node"%string] nodeFactory emptyManager)
                    pythonSession)).
    reflexivity.
  - apply (proj1 (proj2 (proj2 (createDebugAdapter_undefined_or_factory
                                  emptyManager nodeSession)))
             ["node"%string] nodeFactory).
    simpl. left. reflexivity.
Defined.

End DebugFacts.

(* ===================================================================== *)
(** ** Bulk cell edits                                                    *)
(* ===================================================================== *)

Module BulkFacts.
Import NotebookCommon Bulk Examples.

Section Apply.
Context {ICellEdit : Type}.
Variable groupBy : list ResourceNotebookCellEdit -> list (list ResourceNotebookCellEdit).
Variable svc : NotebookService.

Lemma convertToCellEdit_from (acc : list ICellEdit) (edits : list ICellEditOperation) :
  fold_left
    (fun convertedEdits edit =>
       match editType edit with
       | Replace | Output | Metadata | CellLanguage | DocumentMetadata
       | Move | OutputItems | PartialMetadata | PartialInternalMetadata => convertedEdits
       end) edits acc = acc.
Proof.
  induction edits as [|e es IH]; simpl; [reflexivity|].
  destruct (editType e); exact IH.
Qed.

Lemma convertToCellEdit_empty (edits : list ICellEditOperation) :
  convertToCellEdit ICellEdit edits = [].
Proof. apply convertToCellEdit_from. Qed.

Lemma groupCalls_empty_lists (groups : list (list ResourceNotebookCellEdit)) :
  Forall (fun call => snd call = []) (groupCalls ICellEdit svc groups).
Proof.
  induction groups as [|g gs IH]; simpl; [constructor|].
  apply Forall_app. split; [|exact IH].
  destruct g as [|first rest]; [constructor|].
  destruct (svc !! resource first); [|constructor].
  constructor; [apply convertToCellEdit_empty|constructor].
Qed.

(** One pass of the loop, in closed form. *)
Lemma applyLoop_prefix (token : CancellationToken)
    (groups : list (list ResourceNotebookCellEdit)) :
  Forall (fun g => g <> []) groups ->
  forall (i : nat) (h : Host ICellEdit),
    applyLoop ICellEdit svc token i groups h
    = (Normal,
       mkHost ICellEdit
         (applied h ++ groupCalls ICellEdit svc
                         (firstn (firstCancelled token i (length groups)) groups))
         (reports h + firstCancelled token i (length groups))
         (tokenChecks h + Nat.min (S (firstCancelled token i (length groups)))
                                  (length groups))).
Proof.
  induction 1 as [|g gs Hg _ IH]; intros i h; simpl.
  - rewrite app_nil_r, !Nat.add_0_r. destruct h; reflexivity.
  - destruct (token i) eqn:Ht; simpl.
    + rewrite app_nil_r, Nat.add_0_r. f_equal. f_equal. lia.
    + destruct g as [|first rest]; [congruence|]. simpl.
      rewrite IH. simpl. f_equal.
      destruct (svc !! resource first); simpl; f_equal;
        rewrite <- ?app_assoc; simpl; try reflexivity; lia.
Qed.

Lemma applyLoop_token_ext (token token' : CancellationToken) :
  (forall i, token i = token' i) ->
  forall groups i (h : Host ICellEdit),
    applyLoop ICellEdit svc token i groups h = applyLoop ICellEdit svc token' i groups h.
Proof.
  intros Hext groups. induction groups as [|g gs IH]; intros i h; simpl; [reflexivity|].
  rewrite <- Hext. destruct (token i); [reflexivity|].
  destruct (applyGroup _ _ _ _) as [[|] h']; [apply IH|reflexivity].
Qed.

Lemma applyLoop_cancelled_at_once (token : CancellationToken) groups i (h : Host ICellEdit) :
  token i = true ->
  applied (snd (applyLoop ICellEdit svc token i groups h)) = applied h.
Proof.
  intros Ht. destruct groups as [|g gs]; simpl; [reflexivity|].
  rewrite Ht. reflexivity.
Qed.

Lemma groupCalls_editors (groups : list (list ResourceNotebookCellEdit)) :
  groupCalls ICellEdit svc groups
  = map (fun editor => (editor, [])) (groupEditors svc groups).
Proof.
  induction groups as [|g gs IH]; simpl; [reflexivity|].
  rewrite map_app, IH. f_equal.
  destruct g as [|first rest]; simpl; [reflexivity|].
  destruct (svc !! resource first); simpl; [|reflexivity].
  rewrite convertToCellEdit_empty. reflexivity.
Qed.

Lemma groupEditors_app (groups groups' : list (list ResourceNotebookCellEdit)) :
  groupEditors svc (groups ++ groups') = groupEditors svc groups ++ groupEditors svc groups'.
Proof. unfold groupEditors. apply flat_map_app. Qed.

Lemma firstCancelled_never (token : CancellationToken) :
  (forall i, token i = false) ->
  forall n i, firstCancelled token i n = n.
Proof.
  intros Hnever n. induction n as [|n IH]; intros i; simpl; [reflexivity|].
  rewrite Hnever, IH. reflexivity.
Qed.

Lemma firstCancelled_at_once (token : CancellationToken) (i n : nat) :
  token i = true -> firstCancelled token i n = 0%nat.
Proof. intros Ht. destruct n; simpl; [reflexivity|]. rewrite Ht. reflexivity. Qed.

(** C10.  [convertToCellEdit] returns the empty list for every list of
    cell edit operations, so whatever edits [BulkCellEdits] was built
    with, every [editor.applyCellEdits] call that [apply] makes passes an
    empty list; and [apply] does make these calls: when no group is
    empty, the editor of every group before the first cancelled read of
    the token that has an editor is called with the empty list, once and
    in the order of the groups. *)
Theorem convertToCellEdit_always_empty
    (token : CancellationToken) (_edits : list ResourceNotebookCellEdit)
    (h : Host ICellEdit) :
  (forall edits : list ICellEditOperation, convertToCellEdit ICellEdit edits = []) /\
  (exists calls,
     applied (snd (apply ICellEdit groupBy svc token _edits h)) = applied h ++ calls /\
     Forall (fun call => snd call = []) calls) /\
  (Forall (fun g => g <> []) (groupBy _edits) ->
   applied (snd (apply ICellEdit groupBy svc token _edits h))
   = applied h
     ++ map (fun editor => (editor, []))
            (groupEditors svc
               (firstn (firstCancelled token 0 (length (groupBy _edits))) (groupBy _edits)))).
Proof.
  split; [apply convertToCellEdit_empty|]. split.
  - unfold apply. generalize (groupBy _edits) as groups. generalize 0%nat as i.
    intros i groups. revert i h.
    induction groups as [|g gs IH]; intros i h; simpl.
    + exists []. rewrite app_nil_r. split; [reflexivity|constructor].
    + destruct (token i); simpl.
      * exists []. rewrite app_nil_r. split; [reflexivity|constructor].
      * destruct g as [|first rest]; simpl.
        -- exists []. rewrite app_nil_r. split; [reflexivity|constructor].
        -- match goal with |- context [applyLoop _ _ _ _ _ ?h1] =>
             destruct (IH (S i) h1) as (calls & Heq & Hall) end.
           rewrite Heq. simpl.
           destruct (svc !! resource first) as [editor|]; simpl.
           ++ exists ((editor, convertToCellEdit ICellEdit (map cellEdit (first :: rest)))
                      :: calls).
              rewrite <- app_assoc. split; [reflexivity|].
              constructor; [apply convertToCellEdit_empty|exact Hall].
           ++ exists calls. split; [reflexivity|exact Hall].
  - intros Hne. unfold apply. rewrite (applyLoop_prefix token _ Hne). cbn [snd applied].
    rewrite groupCalls_editors. reflexivity.
Qed.

(** C3.  [apply] reads the cancellation token once before each
    per-notebook group.  With [k] the first read that answers true, the
    groups before it are applied — one [applyCellEdits] call for each
    group that has an editor, one progress report each — and stay
    applied, and no group from the [k]-th on is applied: the token is
    read [k + 1] times (as many times as there are groups when it is
    never cancelled) and the run ends normally. *)
Theorem apply_stops_at_cancellation
    (token : CancellationToken) (_edits : list ResourceNotebookCellEdit)
    (h : Host ICellEdit) :
  Forall (fun g => g <> []) (groupBy _edits) ->
  let groups := groupBy _edits in
  let k := firstCancelled token 0 (length groups) in
  apply ICellEdit groupBy svc token _edits h
  = (Normal,
     mkHost ICellEdit
       (applied h ++ groupCalls ICellEdit svc (firstn k groups))
       (reports h + k)
       (tokenChecks h + Nat.min (S k) (length groups))).
Proof.
  intros Hne groups k. unfold apply. apply applyLoop_prefix, Hne.
Qed.

(** C2, as the code has it.  [apply] reads the token before each
    per-notebook group and rolls nothing back.  When no group is empty
    and [k] is the first read of the token that answers true, the editors
    called are those of the groups before the [k]-th.  So a token that is
    never cancelled commits the whole batch, a token cancelled at its
    first read commits nothing, and in general the run is all-or-nothing
    exactly when no group from the [k]-th on has an editor or no group
    before the [k]-th has one. *)
Theorem apply_atomic_iff
    (token : CancellationToken) (_edits : list ResourceNotebookCellEdit)
    (h : Host ICellEdit) :
  Forall (fun g => g <> []) (groupBy _edits) ->
  let groups := groupBy _edits in
  let k := firstCancelled token 0 (length groups) in
  let h' := snd (apply ICellEdit groupBy svc token _edits h) in
  map fst (applied h') = map fst (applied h) ++ groupEditors svc (firstn k groups)
  /\ ((forall i, token i = false) -> wholeBatchCommitted ICellEdit groupBy svc _edits h h')
  /\ (token 0%nat = true -> nothingCommitted ICellEdit h h')
  /\ (atomic ICellEdit groupBy svc token _edits h
      <-> groupEditors svc (skipn k groups) = [] \/ groupEditors svc (firstn k groups) = []).
Proof.
  intros Hne groups k h'.
  assert (Happlied : applied h'
                     = applied h ++ map (fun editor => (editor, @nil ICellEdit))
                                        (groupEditors svc (firstn k groups))).
  { unfold h', apply. rewrite (applyLoop_prefix token _ Hne). cbn [snd applied].
    rewrite groupCalls_editors. reflexivity. }
  assert (Hcalled : map fst (applied h')
                    = map fst (applied h) ++ groupEditors svc (firstn k groups)).
  { rewrite Happlied, map_app, map_map. cbn [fst]. rewrite map_id. reflexivity. }
  assert (Hsplit : groupEditors svc groups
                   = groupEditors svc (firstn k groups) ++ groupEditors svc (skipn k groups)).
  { rewrite <- groupEditors_app, firstn_skipn. reflexivity. }
  assert (Hwhole : wholeBatchCommitted ICellEdit groupBy svc _edits h h'
                   <-> groupEditors svc (skipn k groups) = []).
  { unfold wholeBatchCommitted. fold groups. rewrite Hcalled, Hsplit. split.
    - intros H. apply app_inv_head in H.
      rewrite <- (app_nil_r (groupEditors svc (firstn k groups))) in H at 1.
      apply app_inv_head in H. symmetry. exact H.
    - intros ->. rewrite app_nil_r. reflexivity. }
  assert (Hnone : nothingCommitted ICellEdit h h'
                  <-> groupEditors svc (firstn k groups) = []).
  { unfold nothingCommitted. rewrite Happlied. split.
    - intros H. rewrite <- (app_nil_r (applied h)) in H at 2.
      apply app_inv_head in H.
      destruct (groupEditors svc (firstn k groups)); [reflexivity|discriminate H].
    - intros ->. apply app_nil_r. }
  split; [exact Hcalled|]. split; [|split].
  - intros Hnever. apply Hwhole. unfold k.
    rewrite (firstCancelled_never token Hnever).
    rewrite skipn_all. reflexivity.
  - intros Hfirst. apply Hnone. unfold k.
    rewrite (firstCancelled_at_once token 0 _ Hfirst). reflexivity.
  - unfold atomic. fold h'. rewrite Hwhole, Hnone. reflexivity.
Qed.

End Apply.

Lemma groupByResource_two : groupByResource [editA; editB] = [[editA]; [editB]].
Proof. reflexivity. Qed.

Lemma apply_stops_at_cancellation_witness :
  apply unit groupByResource twoEditors cancelledAfterFirst [editA; editB] host0
  = (Normal, mkHost unit [(1%nat, [])] 1 2).
Proof.
  apply (apply_stops_at_cancellation groupByResource twoEditors cancelledAfterFirst
           [editA; editB] host0).
  rewrite groupByResource_two.
  constructor; [discriminate|]. constructor; [discriminate|]. constructor.
Defined.

Lemma convertToCellEdit_always_empty_witness :
  applied (snd (apply unit groupByResource twoEditors (fun _ => false) [editA; editB] host0))
  = [(1%nat, []); (2%nat, [])].
Proof.
  destruct (convertToCellEdit_always_empty (ICellEdit := unit) groupByResource twoEditors (fun _ => false)
              [editA; editB] host0) as (_ & _ & Hcalls).
  rewrite Hcalls.
  - reflexivity.
  - rewrite groupByResource_two.
    constructor; [discriminate|]. constructor; [discriminate|]. constructor.
Defined.

Lemma apply_atomic_iff_witness :
  map fst (applied (snd (apply unit groupByResource twoEditors (fun _ => false)
                               [editA; editB] host0)))
  = [1%nat; 2%nat]
  /\ applied (snd (apply unit groupByResource twoEditors (fun _ => true)
                         [editA; editB] host0))
     = [].
Proof.
  assert (Hne : Forall (fun g => g <> []) (groupByResource [editA; editB])).
  { rewrite groupByResource_two.
    constructor; [discriminate|]. constructor; [discriminate|]. constructor. }
  split.
  - destruct (apply_atomic_iff (ICellEdit := unit) groupByResource twoEditors (fun _ => false)
                [editA; editB] host0 Hne) as (_ & Hwhole & _).
    unfold wholeBatchCommitted in Hwhole. rewrite Hwhole; reflexivity.
  - destruct (apply_atomic_iff (ICellEdit := unit) groupByResource twoEditors (fun _ => true)
                [editA; editB] host0 Hne) as (_ & _ & Hnone & _).
    unfold nothingCommitted in Hnone. rewrite Hnone; reflexivity.
Defined.

(** C2 fails as stated: with two notebooks and cancellation requested
    while the first group is applied, the first editor has received its
    call and the second has not — neither the whole batch nor none. *)
Lemma apply_not_atomic :
  ~ atomic unit groupByResource twoEditors cancelledAfterFirst [editA; editB] host0.
Proof.
  unfold atomic, wholeBatchCommitted, nothingCommitted.
  intros [H|H]; vm_compute in H; discriminate H.
Qed.

End BulkFacts.

(* ===================================================================== *)
(** ** joinNotebookCells                                                  *)
(* ===================================================================== *)

Module JoinFacts.
Import NotebookCommon Text Model CellOperations Examples.

Lemma CellKind_eqb_eq a b : CellKind_eqb a b = true <-> a = b.
Proof. destruct a, b; simpl; split; congruence. Qed.

Lemma violates_true constraint c :
  violates constraint c = true <-> exists k, constraint = Some k /\ cellKind c <> k.
Proof.
  unfold violates. destruct constraint as [k|].
  - rewrite negb_true_iff. split.
    + intros H. exists k. split; [reflexivity|]. intros Heq.
      apply CellKind_eqb_eq in Heq. congruence.
    + intros (k' & [= <-] & Hne). destruct (CellKind_eqb (cellKind c) k) eqn:E; [|reflexivity].
      apply CellKind_eqb_eq in E. contradiction.
  - split; [discriminate|]. intros (k & Hk & _). discriminate.
Qed.

Lemma direction_is_above d :
  (match d with above => true | below => false end) = true <-> d = above.
Proof. destruct d; split; congruence. Qed.

Lemma direction_is_below d :
  (match d with below => true | above => false end) = true <-> d = below.
Proof. destruct d; split; congruence. Qed.

(** C4, as the code has it.  [joinNotebookCells] resolves to [null]
    exactly when the editor is read-only, or the range holds no cell of
    the document, or the range spans the document boundary in the
    direction of the join (above with [range.start = 0], below with
    [range.end] the document length), or a cell-kind constraint is given
    and a cell of the range or the adjacent cell is of another kind.  A
    [null] carries no edits; in every other case in which the adjacent
    cell exists, the two edits of the join are returned. *)
Theorem joinNotebookCells_null_iff (editor : IActiveNotebookEditor) (range : ICellRange)
    (direction : JoinDirection) (constraint : option CellKind) :
  (joinNotebookCells editor range direction constraint = Returns None <->
   (isReadOnly (view editor) = true
    \/ getCellsInRange editor range = []
    \/ spansBoundary editor range direction
    \/ kindConstraintViolated editor range direction constraint)) /\
  (forall adjacent,
     joinNotebookCells editor range direction constraint <> Returns None ->
     adjacentCell editor range direction = Some adjacent ->
     exists r, joinNotebookCells editor range direction constraint = Returns (Some r)
               /\ length (edits r) = 2%nat).
Proof.
  unfold joinNotebookCells, spansBoundary, kindConstraintViolated, adjacentCell, getLength.
  destruct (isReadOnly (view editor)) eqn:Hro.
  { split; [split; auto|]. intros adjacent H. congruence. }
  destruct (getCellsInRange editor range) as [|cell cells'] eqn:Hcells.
  { split; [split; auto|]. intros adjacent H. congruence. }
  destruct ((r_start range =? 0)
            && match direction with above => true | below => false end) eqn:Hb1.
  { apply andb_true_iff in Hb1 as [Hs Hd]. apply Z.eqb_eq in Hs.
    apply direction_is_above in Hd.
    split; [split; auto 6|]. intros adjacent H. congruence. }
  destruct ((r_end range =? Z.of_nat (length (cells (textModel editor))))
            && match direction with below => true | above => false end) eqn:Hb2.
  { apply andb_true_iff in Hb2 as [He Hd]. apply Z.eqb_eq in He.
    apply direction_is_below in Hd.
    split; [split; auto 6|]. intros adjacent H. congruence. }
  assert (Hnb : ~ ((r_start range = 0 /\ direction = above) \/
                   (r_end range = Z.of_nat (length (cells (textModel editor)))
                    /\ direction = below))).
  { intros [[Hs Hd]|[He Hd]].
    - apply Z.eqb_eq in Hs. apply direction_is_above in Hd.
      rewrite Hs, Hd in Hb1. discriminate.
    - apply Z.eqb_eq in He. apply direction_is_below in Hd.
      rewrite He, Hd in Hb2. discriminate. }
  destruct (existsb (violates constraint) (cell :: cells')) eqn:Hex.
  { apply existsb_exists in Hex as (c & Hin & Hv).
    apply violates_true in Hv as (k & Hk & Hne).
    split; [split; [intros _|reflexivity]|intros adjacent H; congruence].
    right. right. right. exists k. split; [exact Hk|]. left. exists c. auto. }
  assert (Hin_ok : forall k, constraint = Some k ->
                     ~ exists c, In c (cell :: cells') /\ cellKind c <> k).
  { intros k Hk (c & Hin & Hne).
    assert (existsb (violates constraint) (cell :: cells') = true) as Hcontra.
    { apply existsb_exists. exists c. split; [exact Hin|].
      apply violates_true. exists k. auto. }
    rewrite Hcontra in Hex. discriminate. }
  assert (Hgen : forall adj : option Cell,
    adj = match direction with
          | above => cellAt editor (r_start range - 1)
          | below => cellAt editor (r_end range)
          end ->
    (match adj with
     | Some a => violates constraint a = true
     | None => False
     end <->
     exists k, constraint = Some k /\
       ((exists c, In c (cell :: cells') /\ cellKind c <> k) \/
        (exists c, adj = Some c /\ cellKind c <> k)))).
  { intros adj _. destruct adj as [a|].
    - rewrite violates_true. split.
      + intros (k & Hk & Hne). exists k. split; [exact Hk|]. right. exists a. auto.
      + intros (k & Hk & [Hc|(c & [= <-] & Hne)]).
        * exfalso. exact (Hin_ok k Hk Hc).
        * exists k. auto.
    - split; [tauto|]. intros (k & Hk & [Hc|(c & Hc & _)]).
      + exact (Hin_ok k Hk Hc).
      + discriminate. }
  destruct direction.
  - specialize (Hgen _ eq_refl).
    destruct (cellAt editor (r_start range - 1)) as [a|] eqn:Hadj.
    + destruct (violates constraint a) eqn:Hv.
      * split; [split; [intros _|reflexivity]|intros adjacent H; congruence].
        right. right. right. apply Hgen. reflexivity.
      * split.
        -- split; [discriminate|]. intros [H|[H|[H|H]]]; try congruence; try tauto.
           apply Hgen in H. discriminate.
        -- intros adjacent _ _. eexists. split; reflexivity.
    + split.
      * split; [discriminate|]. intros [H|[H|[H|H]]]; try congruence; tauto.
      * intros adjacent _ H. discriminate.
  - specialize (Hgen _ eq_refl).
    destruct (cellAt editor (r_end range)) as [a|] eqn:Hadj.
    + destruct (violates constraint a) eqn:Hv.
      * split; [split; [intros _|reflexivity]|intros adjacent H; congruence].
        right. right. right. apply Hgen. reflexivity.
      * split.
        -- split; [discriminate|]. intros [H|[H|[H|H]]]; try congruence; try tauto.
           apply Hgen in H. discriminate.
        -- intros adjacent _ _. eexists. split; reflexivity.
    + split.
      * split; [discriminate|]. intros [H|[H|[H|H]]]; try congruence; tauto.
      * intros adjacent _ H. discriminate.
Qed.

Lemma joinNotebookCells_witness :
  exists r, joinNotebookCells twoCells (mkRange 1 2) above (Some Code) = Returns (Some r)
            /\ length (edits r) = 2%nat.
Proof.
  apply (proj2 (joinNotebookCells_null_iff twoCells (mkRange 1 2) above (Some Code))
           (codeCell 0 "a = 1")).
  - vm_compute. discriminate.
  - reflexivity.
Defined.

(** C4 fails as stated: a read-only editor rejects a join above of the
    second cell, which spans no boundary and is under no constraint. *)
Lemma joinNotebookCells_rejects_read_only :
  ~ rejectsExactlyWhenStated readOnlyTwoCells (mkRange 1 2) above None.
Proof.
  unfold rejectsExactlyWhenStated. intros [Hnull _].
  destruct (Hnull eq_refl) as [[[H _]|[_ H]]|(k & Hk & _)].
  - vm_compute in H. discriminate H.
  - discriminate H.
  - discriminate Hk.
Qed.

End JoinFacts.

(* ===================================================================== *)
(** ** The applier: splices, moves and the undo stack                     *)
(* ===================================================================== *)

Module ModelFacts.
Import NotebookCommon Text Model CellOperations Examples.

Lemma spliceStart_in_range len start :
  0 <= start <= len -> spliceStart len start = start.
Proof. intros H. unfold spliceStart. destruct (Z.ltb_spec start 0); lia. Qed.

Lemma spliceDeleteCount_in_range len start count :
  0 <= count -> start + count <= len -> spliceDeleteCount len start count = count.
Proof. intros H1 H2. unfold spliceDeleteCount. lia. Qed.

Lemma splice_in_range {A} (l : list A) start count items :
  0 <= start -> 0 <= count -> start + count <= Z.of_nat (length l) ->
  splice l start count items
  = firstn (Z.to_nat start) l ++ items ++ skipn (Z.to_nat (start + count)) l.
Proof.
  intros H1 H2 H3. unfold splice.
  rewrite spliceStart_in_range by lia.
  rewrite spliceDeleteCount_in_range by lia. reflexivity.
Qed.

Lemma spliced_in_range {A} (l : list A) start count :
  0 <= start -> 0 <= count -> start + count <= Z.of_nat (length l) ->
  spliced l start count = firstn (Z.to_nat count) (skipn (Z.to_nat start) l).
Proof.
  intros H1 H2 H3. unfold spliced.
  rewrite spliceStart_in_range by lia.
  rewrite spliceDeleteCount_in_range by lia. reflexivity.
Qed.

Lemma length_splice_in_range {A} (l : list A) start count items :
  0 <= start -> 0 <= count -> start + count <= Z.of_nat (length l) ->
  Z.of_nat (length (splice l start count items))
  = Z.of_nat (length l) - count + Z.of_nat (length items).
Proof.
  intros H1 H2 H3. rewrite splice_in_range by lia.
  rewrite !length_app, length_firstn, length_skipn. lia.
Qed.

Lemma length_spliced_in_range {A} (l : list A) start count :
  0 <= start -> 0 <= count -> start + count <= Z.of_nat (length l) ->
  Z.of_nat (length (spliced l start count)) = count.
Proof.
  intros H1 H2 H3. rewrite spliced_in_range by lia.
  rewrite length_firstn, length_skipn. lia.
Qed.

Lemma length_cellsOfDtos h ds : length (cellsOfDtos h ds) = length ds.
Proof. revert h. induction ds as [|d ds IH]; intros h; simpl; [reflexivity|]. now rewrite IH. Qed.

(** A Move in range, in closed form: the moved block sits at [newIdx] of
    the sequence of the other cells. *)
Lemma applyEdit_move_in_range (cs : list Cell) (h : nat) (index len newIdx : Z) :
  0 <= index -> 0 <= len -> index + len <= Z.of_nat (length cs) ->
  0 <= newIdx <= Z.of_nat (length cs) - len ->
  fst (applyEdit (cs, h) (CellMoveEdit index len newIdx))
  = firstn (Z.to_nat newIdx)
           (firstn (Z.to_nat index) cs ++ skipn (Z.to_nat (index + len)) cs)
    ++ firstn (Z.to_nat len) (skipn (Z.to_nat index) cs)
    ++ skipn (Z.to_nat newIdx)
             (firstn (Z.to_nat index) cs ++ skipn (Z.to_nat (index + len)) cs).
Proof.
  intros H1 H2 H3 H4. simpl.
  rewrite spliced_in_range by lia.
  rewrite (splice_in_range cs index len []) by lia. simpl.
  rewrite splice_in_range.
  - rewrite Z.add_0_r. reflexivity.
  - lia.
  - lia.
  - rewrite length_app, length_firstn, length_skipn. lia.
Qed.

Lemma length_applyEdit_in_range (cs : list Cell) (h : nat) (edit : ICellEditOperation) :
  editInRange (Z.of_nat (length cs)) edit ->
  Z.of_nat (length (fst (applyEdit (cs, h) edit)))
  = Z.of_nat (length cs) - removedBy edit + insertedBy edit.
Proof.
  destruct edit; simpl; intros H; try lia.
  - rewrite length_splice_in_range by lia. rewrite length_cellsOfDtos. lia.
  - destruct H as (H1 & H2 & H3 & H4 & H5).
    rewrite length_splice_in_range.
    + rewrite length_splice_in_range by lia.
      rewrite length_spliced_in_range by lia. simpl. lia.
    + lia.
    + lia.
    + rewrite length_splice_in_range by lia. simpl. lia.
Qed.


Lemma sumZ_cons a l : sumZ (a :: l) = a + sumZ l.
Proof. reflexivity. Qed.


(** The parts of an editor after [applyEdits]. *)
Lemma applyEdits_textModel rawEdits synchronous begin endComputer computeUndoRedo e :
  textModel (applyEdits rawEdits synchronous begin endComputer computeUndoRedo e)
  = mkTextModel (uri (textModel e))
      (fst (fold_left applyEdit rawEdits (cells (textModel e), nextHandle (textModel e))))
      (snd (fold_left applyEdit rawEdits (cells (textModel e), nextHandle (textModel e))))
      (mkUndo (cells (textModel e)) begin :: undoStack (textModel e)).
Proof.
  unfold applyEdits.
  destruct (fold_left applyEdit rawEdits _) as [cs h]. reflexivity.
Qed.

Lemma applyEdits_cells rawEdits synchronous begin endComputer computeUndoRedo e :
  cells (textModel (applyEdits rawEdits synchronous begin endComputer computeUndoRedo e))
  = fst (fold_left applyEdit rawEdits (cells (textModel e), nextHandle (textModel e))).
Proof. rewrite applyEdits_textModel. reflexivity. Qed.


Lemma applyEdits_isReadOnly rawEdits synchronous begin endComputer computeUndoRedo e :
  isReadOnly (view (applyEdits rawEdits synchronous begin endComputer computeUndoRedo e))
  = isReadOnly (view e).
Proof.
  unfold applyEdits. destruct (fold_left applyEdit rawEdits _) as [cs h]. reflexivity.
Qed.

End ModelFacts.

(* ===================================================================== *)
(** ** Moving cells                                                       *)
(* ===================================================================== *)

Module MoveFacts.
Import NotebookCommon Text Model CellOperations Examples ModelFacts.

Lemma cellAt_in_range (e : IActiveNotebookEditor) (index : Z) :
  0 <= index < Z.of_nat (length (cells (textModel e))) ->
  exists c, cellAt e index = Some c.
Proof.
  intros H. unfold cellAt, cellAtList.
  destruct (Z.ltb_spec index 0); [lia|].
  destruct (nth_error (cells (textModel e)) (Z.to_nat index)) as [c|] eqn:E.
  - exists c. reflexivity.
  - apply nth_error_None in E. lia.
Qed.

(** A block put into a list at position [k], read back. *)
Lemma block_at {A} (others moved : list A) (k : nat) :
  (k <= length others)%nat ->
  firstn (length moved) (skipn k (firstn k others ++ moved ++ skipn k others)) = moved
  /\ firstn k (firstn k others ++ moved ++ skipn k others)
     ++ skipn (k + length moved) (firstn k others ++ moved ++ skipn k others) = others.
Proof.
  intros Hk.
  assert (Hlen : k = length (firstn k others)) by (rewrite length_firstn; lia).
  assert (Hdrop : skipn k (firstn k others ++ moved ++ skipn k others)
                  = moved ++ skipn k others).
  { apply drop_app_length'. exact Hlen. }
  split.
  - rewrite Hdrop. apply take_app_length.
  - rewrite (take_app_length' (firstn k others) _ k Hlen).
    rewrite <- drop_drop, Hdrop, drop_app_length. apply firstn_skipn.
Qed.

(** C5.  A Move whose target [newIdx] is given in the index space of the
    document without the moved range puts exactly the [length] cells from
    [index] on at position [newIdx] and keeps all other cells in their
    order: [moveCellToIdx] hands index, length and target to the applier
    as they are, and in the resulting document the cells from [newIdx] on
    are the moved ones, and taking them out again leaves the sequence of
    the other cells as it was. *)
Theorem moveCellToIdx_relocates_range (editor : IActiveNotebookEditor)
    (index len newIdx : Z) (synchronous pushedToUndoStack : bool) :
  let cs := cells (textModel editor) in
  let n := Z.of_nat (length cs) in
  0 <= index < n -> 0 <= len -> index + len <= n -> 0 <= newIdx <= n - len ->
  let moved := firstn (Z.to_nat len) (skipn (Z.to_nat index) cs) in
  let others := firstn (Z.to_nat index) cs ++ skipn (Z.to_nat (index + len)) cs in
  let result :=
    cells (textModel (snd (moveCellToIdx editor index len newIdx
                                         synchronous pushedToUndoStack))) in
  fst (moveCellToIdx editor index len newIdx synchronous pushedToUndoStack) = true
  /\ result = firstn (Z.to_nat newIdx) others ++ moved ++ skipn (Z.to_nat newIdx) others
  /\ firstn (Z.to_nat len) (skipn (Z.to_nat newIdx) result) = moved
  /\ firstn (Z.to_nat newIdx) result ++ skipn (Z.to_nat (newIdx + len)) result = others.
Proof.
  intros cs n Hi Hl Hil Hn moved others result.
  destruct (cellAt_in_range editor index Hi) as [c Hc].
  assert (Hres : result
                 = firstn (Z.to_nat newIdx) others ++ moved ++ skipn (Z.to_nat newIdx) others).
  { subst result. unfold moveCellToIdx. rewrite Hc. cbn [snd].
    rewrite applyEdits_cells. cbn [fold_left].
    apply applyEdit_move_in_range; fold cs; fold n; lia. }
  assert (Hmoved : length moved = Z.to_nat len).
  { subst moved. rewrite length_firstn, length_skipn. fold cs. lia. }
  assert (Hothers : (Z.to_nat newIdx <= length others)%nat).
  { subst others. rewrite length_app, length_firstn, length_skipn. fold cs. lia. }
  split; [unfold moveCellToIdx; rewrite Hc; reflexivity|].
  split; [exact Hres|].
  destruct (block_at others moved (Z.to_nat newIdx) Hothers) as [Hb1 Hb2].
  rewrite Hres. rewrite Hmoved in Hb1, Hb2.
  split; [exact Hb1|].
  replace (Z.to_nat (newIdx + len)) with (Z.to_nat newIdx + Z.to_nat len)%nat by lia.
  exact Hb2.
Qed.

Lemma moveCellToIdx_relocates_range_witness :
  fst (moveCellToIdx twoCells 0 1 1 true true) = true
  /\ cells (textModel (snd (moveCellToIdx twoCells 0 1 1 true true)))
     = [codeCell 1 "b = 2"; codeCell 0 "a = 1"].
Proof.
  destruct (moveCellToIdx_relocates_range twoCells 0 1 1 true true) as (H1 & H2 & _);
    [simpl; lia ..|].
  split; [exact H1|]. rewrite H2. reflexivity.
Defined.

(** The target is taken as it is given: to put the first of three cells
    between the second and the third the caller passes 1, the index in
    the sequence without the moved cell; 2 puts it last. *)
Lemma moveCellToIdx_target_as_given :
  map handle (cells (textModel (snd (moveCellToIdx threeCells 0 1 1 true true))))
  = [1; 0; 2]%nat
  /\ map handle (cells (textModel (snd (moveCellToIdx threeCells 0 1 2 true true))))
     = [1; 2; 0]%nat.
Proof. split; reflexivity. Qed.

(** [moveCellRange] gives its target in that index space: moving the
    selected first cell down takes the cell below it out and puts it back
    at the start of the range. *)
Lemma moveCellRange_down_first :
  option_map (fun tm => map handle (cells tm))
    (n_textModel (moveCellRange noHiddenCells containsRange
                    (mkCellContext (toEditor threeCells) false (codeCell 0 "a = 1")) down))
  = Some [1; 0; 2]%nat.
Proof. reflexivity. Qed.

End MoveFacts.

(* ===================================================================== *)
(** ** The undo stack                                                     *)
(* ===================================================================== *)

Module UndoFacts.
Import NotebookCommon Text Model CellOperations Examples ModelFacts.

(** C7.  Every applied batch registers exactly one undo-stack entry, and
    undo after it brings back the cells, the focus and the selections of
    the snapshot taken before the batch, and the undo stack as it was.
    [insertCellAtIndex] applies its one Replace as one batch whose
    snapshot is the editor's focus and selections before the insertion:
    whatever [pushUndoStop] is, it registers one entry, and undo after it
    restores the cells, the focus and the selections the editor had. *)
Theorem applyEdits_undo_restores (rawEdits : list ICellEditOperation)
    (synchronous : bool) (beginSelectionState : ISelectionState)
    (endSelectionsComputer : IActiveNotebookEditor -> ISelectionState)
    (computeUndoRedo : bool) (e : IActiveNotebookEditor) :
  (registersOneUndoEntry e
     (applyEdits rawEdits synchronous beginSelectionState endSelectionsComputer
                 computeUndoRedo e)
   /\ cells (textModel (undo (applyEdits rawEdits synchronous beginSelectionState
                                         endSelectionsComputer computeUndoRedo e)))
      = cells (textModel e)
   /\ currentSelectionState
        (undo (applyEdits rawEdits synchronous beginSelectionState
                          endSelectionsComputer computeUndoRedo e))
      = beginSelectionState
   /\ undoStack (textModel (undo (applyEdits rawEdits synchronous beginSelectionState
                                             endSelectionsComputer computeUndoRedo e)))
      = undoStack (textModel e))
  /\ (forall index source language type metadata outputs pushUndoStop,
        registersOneUndoEntry e
          (snd (insertCellAtIndex e index source language type metadata outputs
                                  synchronous pushUndoStop))
        /\ cells (textModel (undo (snd (insertCellAtIndex e index source language type
                                          metadata outputs synchronous pushUndoStop))))
           = cells (textModel e)
        /\ focus (view (undo (snd (insertCellAtIndex e index source language type
                                     metadata outputs synchronous pushUndoStop))))
           = focus (view e)
        /\ selections (view (undo (snd (insertCellAtIndex e index source language type
                                          metadata outputs synchronous pushUndoStop))))
           = selections (view e)
        /\ undoStack (textModel (undo (snd (insertCellAtIndex e index source language type
                                              metadata outputs synchronous pushUndoStop))))
           = undoStack (textModel e)).
Proof.
  assert (Hgen : forall edits begin endC record,
    registersOneUndoEntry e (applyEdits edits synchronous begin endC record e)
    /\ cells (textModel (undo (applyEdits edits synchronous begin endC record e)))
       = cells (textModel e)
    /\ currentSelectionState (undo (applyEdits edits synchronous begin endC record e)) = begin
    /\ undoStack (textModel (undo (applyEdits edits synchronous begin endC record e)))
       = undoStack (textModel e)).
  { intros edits begin endC record. unfold registersOneUndoEntry, undo.
    rewrite applyEdits_textModel. cbn [undoStack undo_cells undo_selection].
    destruct begin. repeat split. }
  split; [apply Hgen|].
  intros index source language type metadata outputs pushUndoStop.
  unfold insertCellAtIndex. cbn [snd].
  match goal with |- context [applyEdits ?ed _ ?b ?c pushUndoStop e] =>
    destruct (Hgen ed b c pushUndoStop) as (H1 & H2 & H3 & H4) end.
  split; [exact H1|]. split; [exact H2|].
  split; [exact (f_equal sel_focus H3)|].
  split; [exact (f_equal sel_selections H3)|exact H4].
Qed.

End UndoFacts.

(* ===================================================================== *)
(** ** Read-only and absent documents                                     *)
(* ===================================================================== *)

Module GuardFacts.
Import NotebookCommon Text Model CellOperations Examples.

Section Guards.
Variable expandCellRangesWithHiddenCells :
  IActiveNotebookEditor -> list ICellRange -> list ICellRange.
Variable cellRangesToIndexes : list ICellRange -> list Z.
Variable cellRangeContains : ICellRange -> ICellRange -> bool.
Variable cloneNotebookCellTextModel : Cell -> ICellDto.
Variable getNextVisibleCellIndex : IActiveNotebookEditor -> Z -> Z.
Variable nearestCodeCellIndex : IActiveNotebookEditor -> Z -> Z.
Variable getRegisteredModes : list string.

(** C8.  When the document is read-only or absent, each cell-edit
    operation returns without raising and leaves the editor — document,
    selection state, undo stack, requests to the host — as it was:
    [changeCellToKind], [moveCellRange] and [copyCellRange], which take an
    editor that may lack its model, and [joinNotebookCells] (which
    resolves to [null]) and [insertCell] (which returns [null]), which
    take an active editor, one that has its model by its type. *)
Theorem operations_noop_when_absent_or_read_only :
  (forall kind context language mime,
      absentOrReadOnly (notebookEditor context) ->
      changeCellToKind kind context language mime = notebookEditor context)
  /\ (forall context direction,
        absentOrReadOnly (c_notebookEditor context) ->
        moveCellRange expandCellRangesWithHiddenCells cellRangeContains context direction
        = c_notebookEditor context)
  /\ (forall context direction,
        absentOrReadOnly (c_notebookEditor context) ->
        copyCellRange expandCellRangesWithHiddenCells cellRangesToIndexes
                      cloneNotebookCellTextModel context direction
        = Returns (c_notebookEditor context))
  /\ (forall editor range direction constraint,
        isReadOnly (view editor) = true ->
        joinNotebookCells editor range direction constraint = Returns None)
  /\ (forall editor index type direction initialText ui,
        isReadOnly (view editor) = true ->
        insertCell getNextVisibleCellIndex nearestCodeCellIndex getRegisteredModes
                   editor index type direction initialText ui
        = Returns (None, editor)).
Proof.
  unfold absentOrReadOnly, hasModel.
  split; [|split; [|split; [|split]]].
  - intros kind context language mime H. unfold changeCellToKind.
    destruct (n_textModel (notebookEditor context)) as [tm|]; [|reflexivity].
    destruct H as [H|H]; [discriminate|]. cbn [view]. rewrite H. reflexivity.
  - intros context direction H. unfold moveCellRange.
    destruct (n_textModel (c_notebookEditor context)) as [tm|]; [|reflexivity].
    destruct H as [H|H]; [discriminate|]. cbn [view]. rewrite H. reflexivity.
  - intros context direction H. unfold copyCellRange.
    destruct (n_textModel (c_notebookEditor context)) as [tm|]; [|reflexivity].
    destruct H as [H|H]; [discriminate|]. cbn [view]. rewrite H. reflexivity.
  - intros editor range direction constraint H. unfold joinNotebookCells.
    rewrite H. reflexivity.
  - intros editor index type direction initialText ui H. unfold insertCell.
    rewrite H. reflexivity.
Qed.

End Guards.

Lemma operations_noop_witness :
  changeCellToKind Markup (mkContext readOnlyEditor true (Some (codeCell 0 "a = 1")) None)
                   None None = readOnlyEditor
  /\ moveCellRange (fun _ rs => rs) (fun _ _ => true)
                   (mkCellContext editorWithoutModel false (codeCell 0 "a = 1")) down
     = editorWithoutModel
  /\ joinNotebookCells readOnlyTwoCells (mkRange 1 2) above None = Returns None.
Proof.
  pose proof (operations_noop_when_absent_or_read_only
                (fun _ rs => rs) (fun _ => []) (fun _ _ => true)
                (fun c => mkDto (cellKind c) (getText c) (language c) (mime c)
                                (outputs c) (metadata c))
                (fun _ i => i + 1) (fun _ _ => -1) ["python"%string])
    as (Hchange & Hmove & _ & Hjoin & _).
  split; [|split].
  - apply (Hchange Markup (mkContext readOnlyEditor true (Some (codeCell 0 "a = 1")) None)).
    right. reflexivity.
  - apply (Hmove (mkCellContext editorWithoutModel false (codeCell 0 "a = 1")) down).
    left. reflexivity.
  - apply Hjoin. reflexivity.
Defined.

End GuardFacts.

(* ===================================================================== *)
(** ** Cell count and Selection State after a batch                       *)
(* ===================================================================== *)

Module InvariantFacts.
Import NotebookCommon Text Model CellOperations Examples ModelFacts.

Lemma getLength_applyEdits rawEdits synchronous begin endComputer computeUndoRedo e :
  getLength (applyEdits rawEdits synchronous begin endComputer computeUndoRedo e)
  = Z.of_nat (length (fst (fold_left applyEdit rawEdits
                                     (cells (textModel e), nextHandle (textModel e))))).
Proof. unfold getLength. rewrite applyEdits_cells. reflexivity. Qed.

Lemma applyEdits_selection_staged rawEdits synchronous begin endComputer computeUndoRedo e :
  exists staged,
    cells (textModel staged)
    = cells (textModel (applyEdits rawEdits synchronous begin endComputer computeUndoRedo e))
    /\ currentSelectionState
         (applyEdits rawEdits synchronous begin endComputer computeUndoRedo e)
       = endComputer staged.
Proof.
  unfold applyEdits. destruct (fold_left applyEdit rawEdits _) as [cs h].
  exists (mkActive (view e)
            (mkTextModel (uri (textModel e)) cs h
               (mkUndo (cells (textModel e)) begin :: undoStack (textModel e)))).
  split; [reflexivity|].
  unfold currentSelectionState, getFocus, getSelections. cbn [view focus selections].
  destruct (endComputer _); reflexivity.
Qed.

(** *** [findIndex] by handle *)

Lemma findIndexByHandle_bounds (l : list Cell) (h : nat) (i : Z) :
  findIndexByHandle l h i = -1
  \/ i <= findIndexByHandle l h i < i + Z.of_nat (length l).
Proof.
  revert i. induction l as [|c l IH]; intros i; simpl; [left; reflexivity|].
  destruct (handle c =? h)%nat; [right; lia|].
  destruct (IH (i + 1)) as [H|H]; [left; exact H|right; lia].
Qed.

Lemma findIndexByHandle_found (l : list Cell) (h : nat) (i : Z) (c : Cell) :
  0 <= i -> In c l -> handle c = h ->
  i <= findIndexByHandle l h i < i + Z.of_nat (length l).
Proof.
  revert i. induction l as [|x l IH]; intros i Hi Hin Hh; [destruct Hin|].
  simpl. destruct (Nat.eqb_spec (handle x) h) as [E|E]; [lia|].
  destruct Hin as [->|Hin]; [contradiction|].
  specialize (IH (i + 1) ltac:(lia) Hin Hh). lia.
Qed.

Lemma findIndexByHandle_cell (l : list Cell) (h : nat) (i : Z) :
  0 <= i -> i <= findIndexByHandle l h i ->
  exists c, nth_error l (Z.to_nat (findIndexByHandle l h i - i)) = Some c /\ handle c = h.
Proof.
  revert i. induction l as [|x l IH]; intros i Hi Hr; simpl in *; [lia|].
  destruct (Nat.eqb_spec (handle x) h) as [E|E].
  - exists x. rewrite Z.sub_diag. simpl. auto.
  - assert (Hr' : i + 1 <= findIndexByHandle l h (i + 1)).
    { destruct (findIndexByHandle_bounds l h (i + 1)) as [H|H]; lia. }
    destruct (IH (i + 1) ltac:(lia) Hr') as (c & Hc & Hh).
    exists c. split; [|exact Hh].
    replace (Z.to_nat (findIndexByHandle l h (i + 1) - i))
      with (S (Z.to_nat (findIndexByHandle l h (i + 1) - (i + 1)))) by lia.
    exact Hc.
Qed.

(** *** Selections apart from each other, and what their deletion keeps *)

Lemma selectionsApart_weaken lo lo' n sels :
  lo' <= lo -> selectionsApart lo n sels -> selectionsApart lo' n sels.
Proof. destruct sels as [|s rest]; simpl; [auto|]. intros H (H1 & H2 & H3 & H4). repeat split; auto; lia. Qed.


(** Deleting the selections from the last to the first leaves the cells
    before the first selection and those between and after them. *)
Lemma deletes_keep (cs : list Cell) (h : nat) (sels : list ICellRange) :
  forall lo, 0 <= lo ->
    selectionsApart lo (Z.of_nat (length cs)) sels ->
    fold_right (fun edit st => applyEdit st edit) (cs, h) (map deleteEdit sels)
    = (firstn (Z.to_nat lo) cs ++ keptFrom lo sels cs, h).
Proof.
  induction sels as [|s rest IH]; intros lo Hlo Hap; simpl.
  - rewrite firstn_skipn. reflexivity.
  - destruct Hap as (H1 & H2 & H3 & H4).
    rewrite (IH (r_end s))
      by first [lia | apply (selectionsApart_weaken (r_end s + 1)); [lia|exact H4]].
    simpl. rewrite Nat.add_0_r. f_equal.
    assert (Hlen : length (firstn (Z.to_nat (r_end s)) cs) = Z.to_nat (r_end s))
      by (rewrite length_firstn; lia).
    rewrite splice_in_range; try lia.
    + simpl. replace (r_start s + (r_end s - r_start s)) with (r_end s) by lia.
      rewrite (drop_app_length' _ _ _ (eq_sym Hlen)).
      rewrite firstn_app, Hlen, firstn_firstn.
      replace (Z.to_nat (r_start s) - Z.to_nat (r_end s))%nat with 0%nat by lia.
      simpl. rewrite app_nil_r.
      replace (Nat.min (Z.to_nat (r_start s)) (Z.to_nat (r_end s)))
        with (Z.to_nat (r_start s)) by lia.
      rewrite app_assoc. f_equal.
      rewrite take_take_drop. f_equal. lia.
    + rewrite length_app, Hlen. lia.
Qed.

Lemma kept_before_first (cs : list Cell) (c : Cell) (j : Z) (rest : list ICellRange) :
  forall lo, 0 <= lo -> lo <= j ->
    selectionsApart (j + 1) (Z.of_nat (length cs)) rest ->
    nth_error cs (Z.to_nat j) = Some c ->
    In c (keptFrom lo rest cs).
Proof.
  intros lo Hlo Hj Hap Hc.
  assert (Hskip : nth_error (skipn (Z.to_nat lo) cs) (Z.to_nat (j - lo)) = Some c).
  { rewrite nth_error_skipn. rewrite <- Hc. f_equal. lia. }
  destruct rest as [|s rest]; simpl.
  - eapply nth_error_In, Hskip.
  - destruct Hap as (H1 & H2 & H3 & H4). apply in_or_app. left.
    apply (nth_error_In _ (Z.to_nat (j - lo))). rewrite nth_error_firstn.
    destruct (Nat.ltb_spec (Z.to_nat (j - lo)) (Z.to_nat (r_start s - lo))); [exact Hskip|lia].
Qed.

Lemma kept_after_selection (cs : list Cell) (c : Cell) (a : ICellRange)
    (sels : list ICellRange) :
  forall lo, 0 <= lo ->
    selectionsApart lo (Z.of_nat (length cs)) sels ->
    In a sels ->
    nth_error cs (Z.to_nat (r_end a)) = Some c ->
    In c (keptFrom lo sels cs).
Proof.
  induction sels as [|s rest IH]; intros lo Hlo Hap Hin Hc; [destruct Hin|].
  destruct Hap as (H1 & H2 & H3 & H4). simpl. apply in_or_app. right.
  destruct Hin as [->|Hin].
  - apply (kept_before_first cs c (r_end a)); try lia; assumption.
  - apply IH; try assumption; [lia|].
    apply (selectionsApart_weaken (r_end s + 1)); [lia|exact H4].
Qed.

Lemma cellAt_Some (e : IActiveNotebookEditor) (index : Z) (c : Cell) :
  cellAt e index = Some c ->
  0 <= index < getLength e /\ nth_error (cells (textModel e)) (Z.to_nat index) = Some c.
Proof.
  unfold cellAt, cellAtList, getLength. destruct (Z.ltb_spec index 0); [discriminate|].
  intros Hc. split; [|exact Hc].
  assert (Z.to_nat index < length (cells (textModel e)))%nat
    by (apply nth_error_Some; congruence).
  lia.
Qed.

Lemma getCellIndex_cell (e : IActiveNotebookEditor) (cell : Cell) :
  0 <= getCellIndex e cell ->
  getCellIndex e cell < getLength e
  /\ exists c, cellAt e (getCellIndex e cell) = Some c /\ handle c = handle cell.
Proof.
  unfold getCellIndex, getLength. intros H.
  destruct (findIndexByHandle_bounds (cells (textModel e)) (handle cell) 0) as [Hb|Hb]; [lia|].
  split; [lia|].
  destruct (findIndexByHandle_cell (cells (textModel e)) (handle cell) 0 ltac:(lia) H)
    as (c & Hc & Hh).
  exists c. split; [|exact Hh].
  unfold cellAt, cellAtList.
  destruct (Z.ltb_spec (findIndexByHandle (cells (textModel e)) (handle cell) 0) 0); [lia|].
  rewrite Z.sub_0_r in Hc. exact Hc.
Qed.



Lemma getLength_delete_one (e : IActiveNotebookEditor) (t : Z) begin endComputer :
  0 <= t < getLength e ->
  getLength (applyEdits [CellReplaceEdit t 1 []] true begin endComputer true e)
  = getLength e - 1.
Proof.
  intros Ht. rewrite getLength_applyEdits. cbn [fold_left].
  rewrite length_applyEdit_in_range by (unfold getLength in Ht; simpl; lia).
  unfold getLength. simpl. lia.
Qed.







(** Deleting the only cell of a document while it is focused and no
    selection holds it leaves the focus at [-1, 0). *)
Lemma runDeleteAction_only_cell_unselected :
  getLength (runDeleteAction oneCell (codeCell 0 "a = 1")) = 0
  /\ sel_focus (currentSelectionState (runDeleteAction oneCell (codeCell 0 "a = 1")))
     = mkRange (-1) 0.
Proof. split; reflexivity. Qed.

End InvariantFacts.

(* ===================================================================== *)
(** ** Split points and the segments of a cell                            *)
(* ===================================================================== *)

Module SplitFacts.
Import NotebookCommon Text Model CellOperations Examples.

(** *** Strings *)

Lemma append_empty (a b : string) :
  String.append a b = EmptyString -> a = EmptyString /\ b = EmptyString.
Proof. destruct a; simpl; [auto|discriminate]. Qed.

Lemma substring_zero (n : nat) (s : string) : String.substring n 0 s = EmptyString.
Proof.
  revert s. induction n as [|n IH]; intros s; destruct s; simpl; auto.
Qed.

Lemma length_substring (s : string) :
  forall n m, (n + m <= String.length s)%nat ->
              String.length (String.substring n m s) = m.
Proof.
  induction s as [|c s IH]; intros n m H; simpl in H.
  - assert (n = 0%nat) by lia. assert (m = 0%nat) by lia. subst. reflexivity.
  - destruct n as [|n]; simpl.
    + destruct m as [|m]; simpl; [reflexivity|]. rewrite IH by lia. reflexivity.
    + apply IH. lia.
Qed.

(** *** The order of positions *)

Lemma posLe_refl p : posLe p p.
Proof. right. split; [reflexivity|lia]. Qed.

Lemma posLe_trans p q r : posLe p q -> posLe q r -> posLe p r.
Proof. unfold posLe. intros [H|[H1 H2]] [K|[K1 K2]]; [left|left|left|right]; lia. Qed.

Lemma posLt_posLe p q : posLt p q -> posLe p q.
Proof. unfold posLt, posLe. intros [H|[H1 H2]]; [left|right]; lia. Qed.

Lemma posLe_lt_trans p q r : posLe p q -> posLt q r -> posLt p r.
Proof. unfold posLe, posLt. intros [H|[H1 H2]] [K|[K1 K2]]; [left|left|left|right]; lia. Qed.

Lemma posLt_le_trans p q r : posLt p q -> posLe q r -> posLt p r.
Proof. unfold posLe, posLt. intros [H|[H1 H2]] [K|[K1 K2]]; [left|left|left|right]; lia. Qed.

Lemma posLe_total p q : posLe p q \/ posLt q p.
Proof. unfold posLe, posLt. lia. Qed.

Lemma posLe_neq p q : posLe p q -> p <> q -> posLt p q.
Proof.
  destruct p as [pl pc], q as [ql qc]. unfold posLe, posLt. simpl.
  intros [H|[H1 H2]] Hne; [left; exact H|].
  right. split; [exact H1|]. destruct (Nat.eq_dec pc qc); [|lia].
  subst. contradiction.
Qed.

Lemma posLt_irrefl p : ~ posLt p p.
Proof. unfold posLt. lia. Qed.

Lemma compareSplitPoints_le p q :
  (compareSplitPoints p q <=? 0) = true <-> posLe p q.
Proof.
  unfold compareSplitPoints, posLe. rewrite Z.leb_le.
  destruct (Z.eqb_spec (Z.of_nat (lineNumber p) - Z.of_nat (lineNumber q)) 0); simpl; lia.
Qed.

(** *** The sort *)

Lemma insertSplitPoint_In p l x : In x (insertSplitPoint p l) <-> x = p \/ In x l.
Proof.
  induction l as [|q l IH]; simpl; [intuition|].
  destruct (compareSplitPoints p q <=? 0); simpl; [intuition|].
  rewrite IH. intuition.
Qed.

Lemma sortSplitPoints_In l x : In x (sortSplitPoints l) <-> In x l.
Proof.
  induction l as [|p l IH]; simpl; [reflexivity|].
  rewrite insertSplitPoint_In, IH. intuition.
Qed.

Lemma insertSplitPoint_ascending p l : ascending l -> ascending (insertSplitPoint p l).
Proof.
  induction l as [|q l IH]; intros Hasc; simpl; [split; [constructor|exact I]|].
  destruct Hasc as [Hq Hl].
  destruct (compareSplitPoints p q <=? 0) eqn:E.
  - apply compareSplitPoints_le in E. split; [|split; assumption].
    constructor; [exact E|].
    eapply List.Forall_impl; [|exact Hq]. intros a Ha. exact (posLe_trans _ _ _ E Ha).
  - split; [|apply IH, Hl].
    apply List.Forall_forall. intros x Hx. apply insertSplitPoint_In in Hx as [->|Hx].
    + destruct (posLe_total p q) as [H|H].
      * apply compareSplitPoints_le in H. congruence.
      * apply posLt_posLe, H.
    + rewrite List.Forall_forall in Hq. apply Hq, Hx.
Qed.

Lemma sortSplitPoints_ascending l : ascending (sortSplitPoints l).
Proof.
  induction l as [|p l IH]; simpl; [exact I|]. apply insertSplitPoint_ascending, IH.
Qed.

(** *** The boundary of a split point *)

Section Boundaries.
Variable b : TextBuffer.

Lemma boundaryOf_cases sp :
  (boundaryOf b sp = Position (lineNumber sp + 1) 1
   /\ (getLineLength b (lineNumber sp) + 1 = column sp)%nat
   /\ column sp <> 1%nat /\ (lineNumber sp < getLineCount b)%nat)
  \/ (boundaryOf b sp = sp
      /\ ~ ((getLineLength b (lineNumber sp) + 1 = column sp)%nat
            /\ column sp <> 1%nat /\ (lineNumber sp < getLineCount b)%nat)).
Proof.
  unfold boundaryOf.
  destruct (Nat.eqb_spec (getLineLength b (lineNumber sp) + 1) (column sp));
    destruct (Nat.eqb_spec (column sp) 1);
    destruct (Nat.ltb_spec (lineNumber sp) (getLineCount b)); simpl;
    solve [left; repeat split; (reflexivity || lia || assumption)
          |right; split; [reflexivity|lia]].
Qed.

Lemma boundaryOf_valid sp : validPosition b sp -> validPosition b (boundaryOf b sp).
Proof.
  intros Hv. destruct (boundaryOf_cases sp) as [(-> & H1 & H2 & H3)|[-> _]]; [|exact Hv].
  unfold validPosition in *. simpl. lia.
Qed.

Lemma boundaryOf_ge sp : posLe sp (boundaryOf b sp).
Proof.
  destruct (boundaryOf_cases sp) as [(-> & _)|[-> _]]; [|apply posLe_refl].
  left. simpl. lia.
Qed.

Lemma boundaryOf_mono p q :
  validPosition b p -> validPosition b q -> posLe p q ->
  posLe (boundaryOf b p) (boundaryOf b q).
Proof.
  intros Hp Hq Hle.
  destruct (boundaryOf_cases p) as [(Ep & H1 & H2 & H3)|[Ep _]].
  - destruct Hle as [Hl|[Hl Hc]].
    + apply posLe_trans with q; [|apply boundaryOf_ge].
      rewrite Ep. unfold posLe, validPosition in *. simpl. lia.
    + assert (p = q) as <-.
      { destruct p as [pl pc], q as [ql qc]. unfold validPosition in *. simpl in *.
        subst ql. f_equal. lia. }
      apply posLe_refl.
  - rewrite Ep. apply posLe_trans with q; [exact Hle|apply boundaryOf_ge].
Qed.

Lemma boundaries_ascending l :
  Forall (validPosition b) l -> ascending l -> ascending (map (boundaryOf b) l).
Proof.
  induction l as [|p l IH]; intros Hv Hasc; simpl; [exact I|].
  apply List.Forall_cons_iff in Hv as [Hp Hl]. destruct Hasc as [Hple Hasc].
  split; [|apply IH; assumption].
  apply List.Forall_map. rewrite List.Forall_forall in *. intros q Hq.
  apply boundaryOf_mono; auto.
Qed.

Lemma valid_le_end p : validPosition b p -> posLe p (endOfModel b).
Proof.
  unfold validPosition, posLe, endOfModel. simpl. intros [H1 H2].
  destruct (Nat.eq_dec (lineNumber p) (getLineCount b)) as [E|E]; [right|left; lia].
  split; [exact E|]. rewrite E in H2. lia.
Qed.

Lemma valid_ge_start p : validPosition b p -> posLe startOfModel p.
Proof. unfold validPosition, posLe, startOfModel. simpl. lia. Qed.

Lemma boundaryOf_end sp :
  validPosition b sp ->
  (boundaryOf b sp = endOfModel b <->
   sp = endOfModel b
   \/ ((lineNumber sp + 1)%nat = getLineCount b
       /\ column sp = (getLineLength b (lineNumber sp) + 1)%nat
       /\ column sp <> 1%nat
       /\ getLineLength b (getLineCount b) = 0%nat)).
Proof.
  intros Hv. unfold endOfModel.
  destruct (boundaryOf_cases sp) as [(-> & H1 & H2 & H3)|[-> Hn]].
  - split.
    + intros [= E1 E2]. right. repeat split; try lia.
    + intros [->|(E1 & E2 & E3 & E4)]; [simpl in H3; lia|].
      rewrite E1, E4. reflexivity.
  - split; [auto|]. intros [H|(E1 & E2 & E3 & E4)]; [exact H|].
    exfalso. apply Hn. lia.
Qed.

Lemma boundaryOf_start sp :
  validPosition b sp -> (boundaryOf b sp = startOfModel <-> sp = startOfModel).
Proof.
  intros Hv. unfold startOfModel.
  destruct (boundaryOf_cases sp) as [(-> & H1 & H2 & H3)|[-> Hn]]; [|reflexivity].
  split.
  - intros [= E]. unfold validPosition in Hv. lia.
  - intros ->. simpl in H2. congruence.
Qed.

(** *** The text between two boundaries *)

Lemma textBetween_same p : textBetween b p p = EmptyString.
Proof.
  unfold textBetween, getValueInRange. simpl. rewrite Nat.eqb_refl, Nat.sub_diag.
  apply substring_zero.
Qed.

Lemma textBetween_nonempty p q :
  getEOL b <> EmptyString -> validPosition b p -> validPosition b q -> posLt p q ->
  textBetween b p q <> EmptyString.
Proof.
  intros Heol Hp Hq Hlt. unfold textBetween, getValueInRange. simpl.
  destruct (Nat.eqb_spec (lineNumber p) (lineNumber q)) as [E|E].
  - destruct Hlt as [Hl|[_ Hc]]; [lia|].
    intros Hempty.
    assert (Hlen : String.length
                     (String.substring (column p - 1) (column q - column p)
                                       (lineContent b (lineNumber p)))
                   = (column q - column p)%nat).
    { apply length_substring. unfold validPosition, getLineLength in *.
      rewrite <- E in Hq. lia. }
    rewrite Hempty in Hlen. simpl in Hlen. lia.
  - intros Hempty. apply append_empty in Hempty as [_ Hempty].
    apply append_empty in Hempty as [Hempty _]. exact (Heol Hempty).
Qed.

Lemma rangesContents_snoc (bs : list IPosition) (z y : IPosition) :
  last bs = Some z ->
  rangesContents b (bs ++ [y]) = rangesContents b bs ++ [textBetween b z y].
Proof.
  induction bs as [|a bs IH]; intros Hlast; [discriminate|].
  destruct bs as [|c bs].
  - injection Hlast as ->. reflexivity.
  - rewrite last_cons_cons in Hlast. specialize (IH Hlast).
    change (rangesContents b ((a :: c :: bs) ++ [y]))
      with (textBetween b a c :: rangesContents b ((c :: bs) ++ [y])).
    rewrite IH. reflexivity.
Qed.

Lemma middle_nonempty (bs : list IPosition) :
  getEOL b <> EmptyString -> Forall (validPosition b) bs -> strictlyAscending bs ->
  Forall (fun segment => segment <> EmptyString) (rangesContents b bs).
Proof.
  intros Heol. induction bs as [|a bs IH]; intros Hv Hasc; [constructor|].
  destruct bs as [|c bs]; [constructor|].
  apply List.Forall_cons_iff in Hv as [Ha Hv]. destruct Hasc as [Hlt Hasc].
  change (rangesContents b (a :: c :: bs))
    with (textBetween b a c :: rangesContents b (c :: bs)).
  constructor; [|apply IH; assumption].
  apply List.Forall_cons_iff in Hv as [Hc _].
  apply List.Forall_cons_iff in Hlt as [Hac _].
  apply textBetween_nonempty; assumption.
Qed.

End Boundaries.

(** *** Pushing each boundary once *)

Lemma strictlyAscending_snoc (l : list IPosition) (p : IPosition) :
  strictlyAscending (l ++ [p]) <-> strictlyAscending l /\ Forall (fun a => posLt a p) l.
Proof.
  induction l as [|a l IH]; simpl.
  - split; [intros _; split; [exact I|constructor]|intros _; split; [constructor|exact I]].
  - rewrite IH, List.Forall_app. split.
    + intros ((H1 & H2) & H3 & H4). inversion H2; subst.
      repeat split; auto.
    + intros ((H1 & H2) & H3). inversion H3; subst. repeat split; auto.
Qed.

Lemma _pushIfAbsent_cases (positions : list IPosition) (p : IPosition) :
  (_pushIfAbsent positions p = positions /\ last positions = Some p)
  \/ (_pushIfAbsent positions p = positions ++ [p] /\ last positions <> Some p).
Proof.
  unfold _pushIfAbsent. destruct (last positions) as [l|] eqn:Hlast.
  - destruct l as [ll lc], p as [pl pc]. simpl.
    destruct (Nat.eqb_spec ll pl) as [E1|E1]; destruct (Nat.eqb_spec lc pc) as [E2|E2]; simpl.
    + left. subst. auto.
    + right. split; [reflexivity|]. intros [= _ H]. contradiction.
    + right. split; [reflexivity|]. intros [= H _]. contradiction.
    + right. split; [reflexivity|]. intros [= H _]. contradiction.
  - right. split; [reflexivity|discriminate].
Qed.

Lemma last_In (l : list IPosition) (z : IPosition) : last l = Some z -> In z l.
Proof. intros H. apply last_Some in H as [l' ->]. apply in_or_app. right. left. reflexivity. Qed.

Lemma pushed_once (l : list IPosition) :
  forall acc,
    strictlyAscending acc -> ascending l ->
    (forall a x, In a acc -> In x l -> posLe a x) ->
    strictlyAscending (fold_left _pushIfAbsent l acc)
    /\ (forall x, In x (fold_left _pushIfAbsent l acc) <-> In x acc \/ In x l).
Proof.
  induction l as [|p l IH]; intros acc Hacc Hl Hle; simpl.
  - split; [exact Hacc|]. intros x. tauto.
  - destruct Hl as [Hp Hl].
    destruct (_pushIfAbsent_cases acc p) as [[-> Hlast]|[-> Hlast]].
    + destruct (IH acc Hacc Hl) as [H1 H2].
      { intros a x Ha Hx. apply Hle; [exact Ha|right; exact Hx]. }
      split; [exact H1|]. intros x. rewrite H2.
      pose proof (last_In _ _ Hlast) as Hin. split; [tauto|].
      intros [H|[<-|H]]; auto.
    + assert (Hstrict : Forall (fun a => posLt a p) acc).
      { destruct (last acc) as [z|] eqn:Hz.
        - assert (Hzp : posLt z p).
          { apply posLe_neq; [apply Hle; [apply last_In, Hz|left; reflexivity]|].
            intros ->. apply Hlast. reflexivity. }
          apply last_Some in Hz as [l' ->].
          apply strictlyAscending_snoc in Hacc as [_ Hl'].
          apply List.Forall_app. split.
          + eapply List.Forall_impl; [|exact Hl']. intros a Ha.
            eapply posLt_le_trans; [exact Ha|apply posLt_posLe, Hzp].
          + constructor; [exact Hzp|constructor].
        - apply last_None in Hz. subst. constructor. }
      destruct (IH (acc ++ [p])) as [H1 H2].
      { apply strictlyAscending_snoc. split; assumption. }
      { exact Hl. }
      { intros a x Ha Hx. apply in_app_or in Ha as [Ha|[<-|[]]].
        - apply Hle; [exact Ha|right; exact Hx].
        - rewrite List.Forall_forall in Hp. apply Hp, Hx. }
      split; [exact H1|]. intros x. rewrite H2, in_app_iff. simpl. tauto.
Qed.

Lemma fold_left_push_map (f : IPosition -> IPosition) (l acc : list IPosition) :
  fold_left (fun boundaries sp => _pushIfAbsent boundaries (f sp)) l acc
  = fold_left _pushIfAbsent (map f l) acc.
Proof. revert acc. induction l as [|p l IH]; intros acc; simpl; [reflexivity|apply IH]. Qed.

(** The boundaries [_splitPointsToBoundaries] collects for split points
    inside the buffer: ascending without repetition, inside the buffer,
    and exactly the boundaries of the split points. *)
Lemma boundaries_of_valid (b : TextBuffer) (splitPoints : list IPosition) :
  Forall (validPosition b) splitPoints ->
  let boundaries :=
    fold_left (fun boundaries sp => _pushIfAbsent boundaries (boundaryOf b sp))
              (sortSplitPoints splitPoints) [] in
  strictlyAscending boundaries
  /\ Forall (validPosition b) boundaries
  /\ (forall x, In x boundaries <-> exists sp, In sp splitPoints /\ boundaryOf b sp = x).
Proof.
  intros Hv boundaries. subst boundaries. rewrite fold_left_push_map.
  assert (Hsv : Forall (validPosition b) (sortSplitPoints splitPoints)).
  { rewrite List.Forall_forall in *. intros x Hx. apply Hv, sortSplitPoints_In, Hx. }
  destruct (pushed_once (map (boundaryOf b) (sortSplitPoints splitPoints)) []) as [H1 H2].
  { exact I. }
  { apply boundaries_ascending; [exact Hsv|apply sortSplitPoints_ascending]. }
  { intros a x []. }
  assert (Hin : forall x, In x (fold_left _pushIfAbsent
                                  (map (boundaryOf b) (sortSplitPoints splitPoints)) [])
                          <-> exists sp, In sp splitPoints /\ boundaryOf b sp = x).
  { intros x. rewrite H2, in_map_iff. split.
    - intros [[]|(sp & E & Hsp)]. exists sp. split; [apply sortSplitPoints_In, Hsp|exact E].
    - intros (sp & Hsp & E). right. exists sp. split; [exact E|apply sortSplitPoints_In, Hsp]. }
  split; [exact H1|]. split; [|exact Hin].
  apply List.Forall_forall. intros x Hx. apply Hin in Hx as (sp & Hsp & <-).
  apply boundaryOf_valid. rewrite List.Forall_forall in Hv. apply Hv, Hsp.
Qed.

Lemma strictlyAscending_last_is_max (l : list IPosition) (z m : IPosition) :
  strictlyAscending l -> last l = Some z -> In m l -> posLe z m -> m = z.
Proof.
  intros Hasc Hlast Hin Hle. apply last_Some in Hlast as [l' ->].
  apply strictlyAscending_snoc in Hasc as [_ Hl'].
  apply in_app_or in Hin as [Hin|[<-|[]]]; [|reflexivity].
  rewrite List.Forall_forall in Hl'. specialize (Hl' m Hin).
  exfalso. exact (posLt_irrefl m (posLt_le_trans _ _ _ Hl' Hle)).
Qed.

Lemma strictlyAscending_head_is_min (a m : IPosition) (l : list IPosition) :
  strictlyAscending (a :: l) -> In m (a :: l) -> posLe m a -> m = a.
Proof.
  intros [Hlt _] [<-|Hin] Hle; [reflexivity|].
  rewrite List.Forall_forall in Hlt. specialize (Hlt m Hin).
  exfalso. exact (posLt_irrefl m (posLe_lt_trans _ _ _ Hle Hlt)).
Qed.

(** C6, as the code has it.  For split points inside the buffer of a
    cell (at least one), [computeCellLinesContents] returns a first
    segment, middle segments and a last segment.  No middle segment is
    empty, whatever split points land at end-of-line boundaries: a split
    point at the end of a non-empty line that is not the last one is
    moved to the start of the next line and pushed only once.  The last
    segment is empty exactly when a split point is at the end of the last
    line, or at the end of a non-empty line right before an empty last
    line; the first is empty exactly when a split point is at line 1,
    column 1. *)
Theorem computeCellLinesContents_segments (cell : Cell) (splitPoints : list IPosition) :
  splitPoints <> [] ->
  Forall (validPosition (textBuffer cell)) splitPoints ->
  getEOL (textBuffer cell) <> EmptyString ->
  exists first middle trailing,
    computeCellLinesContents cell splitPoints = Some (first :: middle ++ [trailing])
    /\ Forall (fun segment => segment <> EmptyString) middle
    /\ (trailing = EmptyString <->
        exists sp, In sp splitPoints
          /\ (sp = endOfModel (textBuffer cell)
              \/ ((lineNumber sp + 1)%nat = getLineCount (textBuffer cell)
                  /\ column sp = (getLineLength (textBuffer cell) (lineNumber sp) + 1)%nat
                  /\ column sp <> 1%nat
                  /\ getLineLength (textBuffer cell)
                                   (getLineCount (textBuffer cell)) = 0%nat)))
    /\ (first = EmptyString <-> In startOfModel splitPoints).
Proof.
  intros Hne Hv Heol. set (b := textBuffer cell) in *.
  destruct (boundaries_of_valid b splitPoints Hv) as (Hasc & Hbv & Hin).
  unfold computeCellLinesContents, _splitPointsToBoundaries. fold b.
  set (boundaries := fold_left _ (sortSplitPoints splitPoints) []) in *.
  destruct boundaries as [|b1 bs] eqn:Hbs.
  { exfalso. destruct splitPoints as [|sp rest]; [contradiction|].
    apply (proj2 (Hin (boundaryOf b sp))). exists sp. split; [left|]; reflexivity. }
  destruct (last (b1 :: bs)) as [bl|] eqn:Hlast; [|apply last_None in Hlast; discriminate].
  exists (textBetween b startOfModel b1), (rangesContents b (b1 :: bs)),
         (textBetween b bl (endOfModel b)).
  assert (Hb1 : validPosition b b1) by (apply List.Forall_cons_iff in Hbv; tauto).
  assert (Hbl : validPosition b bl).
  { rewrite List.Forall_forall in Hbv. apply Hbv, last_In, Hlast. }
  split; [|split; [|split]].
  - transitivity (Some (textBetween b startOfModel b1
                        :: rangesContents b ((b1 :: bs) ++ [endOfModel b])));
      [reflexivity|].
    rewrite (rangesContents_snoc b _ bl _ Hlast). reflexivity.
  - apply middle_nonempty; assumption.
  - assert (Hend : textBetween b bl (endOfModel b) = EmptyString <-> bl = endOfModel b).
    { split.
      - intros Hempty. destruct (posLe_total (endOfModel b) bl) as [H|H].
        + destruct bl as [l c]. pose proof (valid_le_end b _ Hbl) as H'.
          unfold posLe, endOfModel in *. simpl in *. f_equal; lia.
        + exfalso. revert Hempty. apply textBetween_nonempty; try assumption.
          unfold validPosition, endOfModel in *. simpl. lia.
      - intros ->. apply textBetween_same. }
    rewrite Hend. split.
    + intros ->. destruct (proj1 (Hin (endOfModel b)) (last_In _ _ Hlast)) as (sp & Hsp & E).
      exists sp. split; [exact Hsp|]. apply boundaryOf_end; [|exact E].
      rewrite List.Forall_forall in Hv. apply Hv, Hsp.
    + intros (sp & Hsp & Hcase).
      assert (Hvsp : validPosition b sp) by (rewrite List.Forall_forall in Hv; apply Hv, Hsp).
      apply (boundaryOf_end b sp Hvsp) in Hcase.
      symmetry. apply (strictlyAscending_last_is_max (b1 :: bs)); try assumption.
      * apply Hin. exists sp. auto.
      * apply valid_le_end, Hbl.
  - assert (Hstart : textBetween b startOfModel b1 = EmptyString <-> b1 = startOfModel).
    { split.
      - intros Hempty. destruct (posLe_total b1 startOfModel) as [H|H].
        + destruct b1 as [l c]. pose proof (valid_ge_start b _ Hb1) as H'.
          unfold posLe, startOfModel in *. simpl in *. f_equal; lia.
        + exfalso. revert Hempty. apply textBetween_nonempty; try assumption.
          unfold validPosition, startOfModel in *. simpl. lia.
      - intros ->. apply textBetween_same. }
    rewrite Hstart. split.
    + intros ->. destruct (proj1 (Hin startOfModel) (or_introl eq_refl)) as (sp & Hsp & E).
      assert (Hvsp : validPosition b sp) by (rewrite List.Forall_forall in Hv; apply Hv, Hsp).
      apply (boundaryOf_start b sp Hvsp) in E. subst sp. exact Hsp.
    + intros Hsp.
      assert (Hvsp : validPosition b startOfModel)
        by (rewrite List.Forall_forall in Hv; apply Hv, Hsp).
      symmetry. apply (strictlyAscending_head_is_min b1 startOfModel bs Hasc).
      * apply Hin. exists startOfModel. split; [exact Hsp|].
        apply boundaryOf_start; [exact Hvsp|reflexivity].
      * apply (valid_ge_start b), Hb1.
Qed.

Lemma computeCellLinesContents_segments_witness :
  exists first middle trailing,
    computeCellLinesContents threeLineCell
      [Position 1 4; Position 2 1; Position 2 3; Position 2 2]
    = Some (first :: middle ++ [trailing])
    /\ Forall (fun segment => segment <> EmptyString) middle.
Proof.
  destruct (computeCellLinesContents_segments threeLineCell
              [Position 1 4; Position 2 1; Position 2 3; Position 2 2])
    as (first & middle & trailing & H1 & H2 & _).
  - discriminate.
  - repeat constructor; simpl; lia.
  - discriminate.
  - exists first, middle, trailing. split; assumption.
Defined.

(** C6 fails as stated: a split point at the end of the one line "abc"
    (column 4, the line length plus one) gives the segments "abc" and
    an empty trailing segment. *)
Lemma computeCellLinesContents_empty_trailing :
  ~ noEmptyTrailingSegment abcCell [Position 1 4].
Proof.
  intros H. apply (H ["abc"%string; EmptyString]).
  - reflexivity.
  - exists (Position 1 4). split; [left; reflexivity|reflexivity].
  - reflexivity.
Qed.

End SplitFacts.

(* ===================================================================== *)
(** ** Further properties of the split points                             *)
(* ===================================================================== *)

Module SplitMoreFacts.
Import NotebookCommon Text Model CellOperations CellOperationsMore Examples SplitFacts.

Lemma length_insertSplitPoint p l : length (insertSplitPoint p l) = S (length l).
Proof.
  induction l as [|q l IH]; simpl; [reflexivity|].
  destruct (compareSplitPoints p q <=? 0); simpl; [reflexivity|]. now rewrite IH.
Qed.

Lemma length_sortSplitPoints l : length (sortSplitPoints l) = length l.
Proof.
  induction l as [|p l IH]; simpl; [reflexivity|].
  rewrite length_insertSplitPoint. now rewrite IH.
Qed.

Lemma length_pushIfAbsent acc p :
  (length acc <= length (_pushIfAbsent acc p) <= S (length acc))%nat
  /\ (1 <= length (_pushIfAbsent acc p))%nat.
Proof.
  destruct (_pushIfAbsent_cases acc p) as [[-> Hlast]|[-> _]].
  - apply last_Some in Hlast as [l' ->]. rewrite length_app. simpl. lia.
  - rewrite length_app. simpl. lia.
Qed.

Lemma length_pushed l :
  forall acc,
    (length acc <= length (fold_left _pushIfAbsent l acc) <= length acc + length l)%nat
    /\ (l <> [] -> 1 <= length (fold_left _pushIfAbsent l acc))%nat.
Proof.
  induction l as [|p l IH]; intros acc; simpl.
  - split; [lia|congruence].
  - destruct (IH (_pushIfAbsent acc p)) as [H1 _].
    destruct (length_pushIfAbsent acc p) as [H2 H3]. split; [lia|]. intros _. lia.
Qed.

Lemma length_rangesContents b l : length (rangesContents b l) = Nat.pred (length l).
Proof.
  induction l as [|a l IH]; [reflexivity|].
  destruct l as [|c l]; [reflexivity|].
  change (rangesContents b (a :: c :: l))
    with (textBetween b a c :: rangesContents b (c :: l)).
  simpl length in *. rewrite IH. reflexivity.
Qed.

(** The boundaries collected for any split points, in numbers. *)
Lemma boundaries_count (b : TextBuffer) (splitPoints : list IPosition) :
  let boundaries :=
    fold_left (fun boundaries sp => _pushIfAbsent boundaries (boundaryOf b sp))
              (sortSplitPoints splitPoints) [] in
  (length boundaries <= length splitPoints)%nat
  /\ (splitPoints <> [] -> 1 <= length boundaries)%nat
  /\ (splitPoints = [] -> boundaries = []).
Proof.
  intros boundaries. subst boundaries. rewrite fold_left_push_map.
  destruct (length_pushed (map (boundaryOf b) (sortSplitPoints splitPoints)) []) as [H1 H2].
  rewrite length_map, length_sortSplitPoints in H1. simpl in H1.
  split; [lia|]. split.
  - intros Hne. apply H2. intros Hmap. apply (f_equal (@length _)) in Hmap.
    rewrite length_map, length_sortSplitPoints in Hmap.
    destruct splitPoints; [contradiction|discriminate].
  - intros ->. reflexivity.
Qed.

(** X1.  [computeCellLinesContents] returns [null] exactly when it is
    given no split point, whatever the buffer and wherever the split
    points lie; otherwise it returns at least two segments and at most
    one more than there are split points. *)
Theorem computeCellLinesContents_null_iff_no_split_point
    (cell : Cell) (splitPoints : list IPosition) :
  (computeCellLinesContents cell splitPoints = None <-> splitPoints = [])
  /\ (forall segments,
        computeCellLinesContents cell splitPoints = Some segments ->
        (2 <= length segments <= length splitPoints + 1)%nat).
Proof.
  destruct (boundaries_count (textBuffer cell) splitPoints) as (Hle & Hne & Hnil).
  unfold computeCellLinesContents, _splitPointsToBoundaries.
  destruct (fold_left _ (sortSplitPoints splitPoints) []) as [|b1 bs] eqn:Hb.
  - split.
    + split; [intros _|reflexivity].
      destruct splitPoints as [|sp rest]; [reflexivity|].
      exfalso. assert (1 <= 0)%nat by (apply Hne; discriminate). lia.
    + intros segments H. discriminate.
  - split.
    + split; [discriminate|]. intros ->. specialize (Hnil eq_refl). discriminate.
    + intros segments H.
      assert (Hl : forall l : list string, Some l = Some segments -> length segments = length l)
        by (intros l [= <-]; reflexivity).
      apply Hl in H. rewrite length_rangesContents in H.
      simpl length in *. rewrite length_app in H. simpl in H. lia.
Qed.

Lemma noAdjacentEqual_snoc (l : list IPosition) (p : IPosition) :
  noAdjacentEqual (l ++ [p]) <-> noAdjacentEqual l /\ last l <> Some p.
Proof.
  induction l as [|a l IH]; [simpl; split; [intros _; split; [exact I|discriminate]|auto]|].
  destruct l as [|c l].
  - simpl. split.
    + intros [H _]. split; [exact I|]. intros [= E]. contradiction.
    + intros [_ H]. split; [|exact I]. intros ->. apply H. reflexivity.
  - change (noAdjacentEqual ((a :: c :: l) ++ [p]))
      with (a <> c /\ noAdjacentEqual ((c :: l) ++ [p])).
    change (noAdjacentEqual (a :: c :: l)) with (a <> c /\ noAdjacentEqual (c :: l)).
    rewrite last_cons_cons, IH. tauto.
Qed.

Lemma pushed_noAdjacentEqual (l : list IPosition) :
  forall acc, noAdjacentEqual acc -> noAdjacentEqual (fold_left _pushIfAbsent l acc).
Proof.
  induction l as [|p l IH]; intros acc Hacc; simpl; [exact Hacc|].
  apply IH. destruct (_pushIfAbsent_cases acc p) as [[-> _]|[-> Hlast]]; [exact Hacc|].
  apply noAdjacentEqual_snoc. split; assumption.
Qed.

(** X2.  Whatever split points are given, the boundaries that
    [_splitPointsToBoundaries] returns are the start of the model, then
    at least one collected boundary, then the end of the model, and among
    the collected boundaries none is followed by an equal one:
    [_pushIfAbsent] keeps out what was pushed last. *)
Theorem _splitPointsToBoundaries_no_repetition
    (splitPoints : list IPosition) (textBuffer : TextBuffer) (all : list IPosition) :
  _splitPointsToBoundaries splitPoints textBuffer = Some all ->
  exists boundaries,
    all = startOfModel :: boundaries ++ [endOfModel textBuffer]
    /\ boundaries <> []
    /\ noAdjacentEqual boundaries.
Proof.
  unfold _splitPointsToBoundaries.
  pose proof (pushed_noAdjacentEqual
                (map (boundaryOf textBuffer) (sortSplitPoints splitPoints)) [] I) as Hno.
  rewrite <- fold_left_push_map in Hno.
  destruct (fold_left _ (sortSplitPoints splitPoints) []) as [|b1 bs]; [discriminate|].
  intros [= <-]. exists (b1 :: bs). split; [reflexivity|]. split; [discriminate|exact Hno].
Qed.

Lemma _splitPointsToBoundaries_no_repetition_witness :
  exists boundaries,
    [Position 1 1; Position 2 1; Position 2 2; Position 3 1; Position 3 1]
    = startOfModel :: boundaries ++ [endOfModel (textBuffer threeLineCell)]
    /\ boundaries <> []
    /\ noAdjacentEqual boundaries.
Proof.
  apply (_splitPointsToBoundaries_no_repetition
           [Position 1 4; Position 2 1; Position 2 3; Position 2 2; Position 2 1]
           (textBuffer threeLineCell)).
  reflexivity.
Defined.

(** *** The segments put together *)

Local Arguments String.append : simpl nomatch.

Lemma append_assoc (a b c : string) :
  String.append (String.append a b) c = String.append a (String.append b c).
Proof. induction a as [|x a IH]; simpl; [reflexivity|]. now rewrite IH. Qed.

Lemma append_nil_r (a : string) : String.append a EmptyString = a.
Proof. induction a as [|x a IH]; simpl; [reflexivity|]. now rewrite IH. Qed.

Lemma substring_nil (n m : nat) : String.substring n m EmptyString = EmptyString.
Proof. destruct n, m; reflexivity. Qed.

Lemma dropString_nil (n : nat) : dropString n EmptyString = EmptyString.
Proof. destruct n; reflexivity. Qed.

Lemma dropString_add (a k : nat) (s : string) :
  dropString k (dropString a s) = dropString (a + k) s.
Proof.
  revert s. induction a as [|a IH]; intros s; [reflexivity|].
  destruct s as [|c s]; simpl; [apply dropString_nil|apply IH].
Qed.

Lemma substring_drop (a m : nat) (s : string) :
  String.substring a m s = String.substring 0 m (dropString a s).
Proof.
  revert s. induction a as [|a IH]; intros s; [reflexivity|].
  destruct s as [|c s]; [destruct m; reflexivity|apply IH].
Qed.

Lemma take_add (m k : nat) (t : string) :
  String.substring 0 (m + k) t
  = String.append (String.substring 0 m t) (String.substring 0 k (dropString m t)).
Proof.
  revert t. induction m as [|m IH]; intros t; [destruct t; reflexivity|].
  destruct t as [|c t].
  - destruct k; reflexivity.
  - simpl. now rewrite IH.
Qed.

Lemma take_drop (k : nat) (s : string) :
  String.append (String.substring 0 k s) (dropString k s) = s.
Proof.
  revert s. induction k as [|k IH]; intros s; [destruct s; reflexivity|].
  destruct s as [|c s]; simpl; [reflexivity|]. now rewrite IH.
Qed.

Lemma take_all (s : string) : String.substring 0 (String.length s) s = s.
Proof. induction s as [|c s IH]; simpl; [reflexivity|]. now rewrite IH. Qed.

Lemma concatStrings_cons (x : string) (l : list string) :
  concatStrings (x :: l) = String.append x (concatStrings l).
Proof. reflexivity. Qed.

Section Whole.
Variable b : TextBuffer.

(** Lines, each followed by the line break. *)
Let terminated (ls : list string) : string :=
  fold_right (fun l acc => String.append l (String.append (buf_eol b) acc)) EmptyString ls.

Lemma terminated_app (l1 l2 : list string) :
  terminated (l1 ++ l2) = String.append (terminated l1) (terminated l2).
Proof.
  induction l1 as [|x l1 IH]; simpl; [reflexivity|].
  rewrite IH, !append_assoc. reflexivity.
Qed.

Lemma linesBetween_split (from q r : nat) :
  (1 <= from <= q)%nat -> (q <= r)%nat ->
  linesBetween b from r = String.append (linesBetween b from q) (linesBetween b q r).
Proof.
  intros H1 H2. unfold linesBetween. fold (terminated (firstn (r - from) (skipn (from - 1) (buf_lines b)))).
  fold (terminated (firstn (q - from) (skipn (from - 1) (buf_lines b)))).
  fold (terminated (firstn (r - q) (skipn (q - 1) (buf_lines b)))).
  rewrite <- terminated_app. f_equal.
  replace (r - from)%nat with ((q - from) + (r - q))%nat by lia.
  rewrite <- take_take_drop. f_equal. rewrite drop_drop. do 2 f_equal. lia.
Qed.

Lemma skipn_nth (l : list string) (k : nat) :
  (k < length l)%nat -> skipn k l = nth k l EmptyString :: skipn (S k) l.
Proof.
  revert k. induction l as [|x l IH]; intros k H; simpl in H; [lia|].
  destruct k as [|k]; [reflexivity|]. simpl. apply IH. lia.
Qed.

Lemma linesBetween_first (q r : nat) :
  (1 <= q <= getLineCount b)%nat -> (q < r)%nat ->
  linesBetween b q r
  = String.append (lineContent b q)
                  (String.append (buf_eol b) (linesBetween b (S q) r)).
Proof.
  intros H1 H2. unfold linesBetween, lineContent, getLineCount in *.
  rewrite (skipn_nth (buf_lines b) (q - 1)) by lia.
  replace (r - q)%nat with (S (r - S q)) by lia. simpl.
  replace (S (q - 1)) with (q - 0)%nat by lia. reflexivity.
Qed.

Lemma linesBetween_same (q : nat) : linesBetween b q q = EmptyString.
Proof. unfold linesBetween. rewrite Nat.sub_diag. reflexivity. Qed.

(** The text up to a position and the text from it on. *)
Lemma textBetween_app (p q r : IPosition) :
  validPosition b p -> validPosition b q -> validPosition b r ->
  posLe p q -> posLe q r ->
  String.append (textBetween b p q) (textBetween b q r) = textBetween b p r.
Proof.
  intros Hp Hq Hr Hpq Hqr. unfold textBetween, getValueInRange. simpl.
  destruct p as [pl pc], q as [ql qc], r as [rl rc].
  unfold validPosition, posLe in *. simpl in *.
  destruct (Nat.eqb_spec pl ql) as [E1|E1]; destruct (Nat.eqb_spec ql rl) as [E2|E2].
  - subst ql rl. rewrite Nat.eqb_refl.
    rewrite (substring_drop (pc - 1)), (substring_drop (qc - 1)), (substring_drop (pc - 1) (rc - pc)).
    replace (dropString (qc - 1) (lineContent b pl))
      with (dropString (qc - pc) (dropString (pc - 1) (lineContent b pl)))
      by (rewrite dropString_add; f_equal; lia).
    rewrite <- take_add. f_equal. lia.
  - subst ql. destruct (Nat.eqb_spec pl rl) as [E3|_]; [lia|].
    rewrite <- append_assoc. f_equal.
    rewrite (substring_drop (pc - 1)).
    replace (dropString (qc - 1) (lineContent b pl))
      with (dropString (qc - pc) (dropString (pc - 1) (lineContent b pl)))
      by (rewrite dropString_add; f_equal; lia).
    apply take_drop.
  - subst rl. destruct (Nat.eqb_spec pl ql) as [E3|_]; [lia|].
    rewrite !append_assoc. do 3 f_equal.
    rewrite (substring_drop (qc - 1)), <- take_add. f_equal. lia.
  - destruct (Nat.eqb_spec pl rl) as [E3|_]; [lia|].
    rewrite !append_assoc. do 2 f_equal.
    rewrite (linesBetween_split (S pl) ql rl) by lia.
    rewrite (linesBetween_first ql rl) by lia.
    rewrite !append_assoc. f_equal.
    rewrite <- (append_assoc (String.substring 0 (qc - 1) (lineContent b ql))).
    rewrite take_drop. reflexivity.
Qed.

Lemma ascending_le_last (a z : IPosition) (ps : list IPosition) :
  ascending (a :: ps) -> last (a :: ps) = Some z -> posLe a z.
Proof.
  intros [Hall _] Hlast. destruct ps as [|c ps].
  - injection Hlast as <-. apply posLe_refl.
  - rewrite List.Forall_forall in Hall. apply Hall, last_In.
    rewrite last_cons_cons in Hlast. exact Hlast.
Qed.

Lemma concat_rangesContents (ps : list IPosition) :
  forall a z,
    ascending (a :: ps) -> Forall (validPosition b) (a :: ps) ->
    last (a :: ps) = Some z ->
    concatStrings (rangesContents b (a :: ps)) = textBetween b a z.
Proof.
  induction ps as [|c ps IH]; intros a z Hasc Hv Hlast.
  - injection Hlast as <-. simpl. symmetry. apply textBetween_same.
  - change (rangesContents b (a :: c :: ps))
      with (textBetween b a c :: rangesContents b (c :: ps)).
    rewrite last_cons_cons in Hlast.
    destruct Hasc as [Hac Hasc]. apply List.Forall_cons_iff in Hv as [Ha Hv].
    rewrite concatStrings_cons.
    rewrite (IH c z Hasc Hv Hlast).
    apply textBetween_app.
    + exact Ha.
    + apply List.Forall_cons_iff in Hv. tauto.
    + rewrite List.Forall_forall in Hv. apply Hv, last_In, Hlast.
    + apply List.Forall_cons_iff in Hac. tauto.
    + apply ascending_le_last with ps; assumption.
Qed.

Lemma joinLines_terminated (ls : list string) :
  ls <> [] ->
  joinLines (buf_eol b) ls
  = String.append (terminated (firstn (length ls - 1) ls))
                  (nth (length ls - 1) ls EmptyString).
Proof.
  induction ls as [|x ls IH]; intros Hne; [contradiction|].
  destruct ls as [|y ls]; [reflexivity|].
  change (joinLines (buf_eol b) (x :: y :: ls))
    with (String.append x (String.append (buf_eol b) (joinLines (buf_eol b) (y :: ls)))).
  rewrite IH by discriminate.
  replace (length (x :: y :: ls) - 1)%nat with (S (length (y :: ls) - 1)) by (simpl; lia).
  cbn [firstn nth terminated fold_right]. fold (terminated (firstn (length (y :: ls) - 1) (y :: ls))).
  rewrite !append_assoc. reflexivity.
Qed.

(** The text between the two ends of the model is the whole text. *)
Lemma textBetween_whole :
  (1 <= getLineCount b)%nat ->
  textBetween b startOfModel (endOfModel b) = getValue b.
Proof.
  intros Hcnt. unfold getValue.
  destruct (buf_lines b) as [|l1 rest] eqn:Hlines;
    [unfold getLineCount in Hcnt; rewrite Hlines in Hcnt; simpl in Hcnt; lia|].
  rewrite joinLines_terminated by discriminate.
  unfold textBetween, getValueInRange, startOfModel, endOfModel, getLineLength,
    lineContent, linesBetween, getLineCount.
  rewrite Hlines.
  cbn [lineNumber column startLineNumber startColumn endLineNumber endColumn].
  destruct rest as [|l2 rest].
  - cbn [length Nat.eqb Nat.sub nth firstn terminated fold_right].
    rewrite Nat.add_sub, take_all. reflexivity.
  - replace (1 =? length (l1 :: l2 :: rest))%nat with false by reflexivity.
    replace (length (l1 :: l2 :: rest) - 1)%nat with (S (length (l2 :: rest) - 1))
      by (simpl; lia).
    replace (length (l1 :: l2 :: rest) - 2)%nat with (length (l2 :: rest) - 1)%nat
      by (simpl; lia).
    rewrite Nat.add_sub, take_all.
    cbn [Nat.sub nth firstn skipn terminated fold_right dropString].
    rewrite !append_assoc. reflexivity.
Qed.

End Whole.

(** X3.  Splitting loses no text: for split points inside the buffer
    of a cell (at least one), the segments [computeCellLinesContents]
    returns, put together in order, are the whole text of the cell. *)
Theorem computeCellLinesContents_concat (cell : Cell) (splitPoints : list IPosition) :
  splitPoints <> [] ->
  Forall (validPosition (textBuffer cell)) splitPoints ->
  exists segments,
    computeCellLinesContents cell splitPoints = Some segments
    /\ concatStrings segments = getText cell.
Proof.
  intros Hne Hv. set (b := textBuffer cell) in *.
  destruct (boundaries_of_valid b splitPoints Hv) as (Hasc & Hbv & Hin).
  assert (Hcnt : (1 <= getLineCount b)%nat).
  { destruct splitPoints as [|sp rest]; [contradiction|].
    apply List.Forall_cons_iff in Hv as [[H _] _]. lia. }
  unfold computeCellLinesContents, _splitPointsToBoundaries. fold b.
  set (boundaries := fold_left _ (sortSplitPoints splitPoints) []) in *.
  destruct boundaries as [|b1 bs] eqn:Hbs.
  { exfalso. destruct splitPoints as [|sp rest]; [contradiction|].
    apply (proj2 (Hin (boundaryOf b sp))). exists sp. split; [left|]; reflexivity. }
  eexists. split; [reflexivity|].
  unfold getText. fold b. rewrite <- (textBetween_whole b Hcnt).
  apply (concat_rangesContents b ((b1 :: bs) ++ [endOfModel b]) startOfModel).
  - split.
    + apply List.Forall_app. split.
      * eapply List.Forall_impl; [|exact Hbv]. intros a Ha. apply (valid_ge_start b), Ha.
      * constructor; [|constructor]. unfold posLe, startOfModel, endOfModel. simpl. lia.
    + assert (Hgen : forall l, strictlyAscending l -> Forall (validPosition b) l ->
                          ascending (l ++ [endOfModel b])).
      { induction l as [|a l IH]; intros Hs Hl; [simpl; split; [constructor|exact I]|].
        destruct Hs as [Hlt Hs]. apply List.Forall_cons_iff in Hl as [Ha Hl].
        simpl. split; [|apply IH; assumption].
        apply List.Forall_app. split.
        - eapply List.Forall_impl; [|exact Hlt]. intros x Hx. apply posLt_posLe, Hx.
        - constructor; [apply valid_le_end, Ha|constructor]. }
      apply Hgen; assumption.
  - constructor.
    + unfold validPosition, startOfModel. simpl. lia.
    + apply List.Forall_app. split; [exact Hbv|].
      constructor; [|constructor]. unfold validPosition, endOfModel. simpl. lia.
  - rewrite last_cons. rewrite last_snoc. reflexivity.
Qed.

Lemma computeCellLinesContents_concat_witness :
  exists segments,
    computeCellLinesContents threeLineCell
      [Position 1 4; Position 2 1; Position 2 3; Position 2 2] = Some segments
    /\ concatStrings segments = getText threeLineCell.
Proof.
  apply (computeCellLinesContents_concat threeLineCell
           [Position 1 4; Position 2 1; Position 2 3; Position 2 2]).
  - discriminate.
  - repeat constructor; simpl; lia.
Defined.

End SplitMoreFacts.

(* ===================================================================== *)
(** ** Further properties of joinNotebookCells                            *)
(* ===================================================================== *)

Module JoinMoreFacts.
Import NotebookCommon Text Model CellOperations CellOperationsMore Examples
       ModelFacts InvariantFacts.








End JoinMoreFacts.

(* ===================================================================== *)
(** ** Further properties of runDeleteAction                              *)
(* ===================================================================== *)

Module DeleteMoreFacts.
Import NotebookCommon Text Model CellOperations CellOperationsMore Examples
       ModelFacts InvariantFacts.

Lemma length_keptFrom (cs : list Cell) (sels : list ICellRange) :
  forall lo, 0 <= lo <= Z.of_nat (length cs) ->
    selectionsApart lo (Z.of_nat (length cs)) sels ->
    Z.of_nat (length (keptFrom lo sels cs))
    = Z.of_nat (length cs) - lo - sumZ (map rangeSize sels).
Proof.
  induction sels as [|s rest IH]; intros lo Hlo Hap; cbn [keptFrom map].
  - rewrite length_skipn. unfold sumZ. simpl. lia.
  - destruct Hap as (H1 & H2 & H3 & H4).
    rewrite length_app, length_firstn, length_skipn, sumZ_cons.
    rewrite Nat2Z.inj_add, (IH (r_end s)).
    + unfold rangeSize. lia.
    + lia.
    + apply (selectionsApart_weaken (r_end s + 1)); [lia|exact H4].
Qed.

Lemma deleted_selections_cells (e : IActiveNotebookEditor) begin endComputer :
  selectionsApart 0 (getLength e) (getSelections e) ->
  cells (textModel (applyEdits (map deleteEdit (getSelections (reverseSelections e))) true
                               begin endComputer true (reverseSelections e)))
  = keptFrom 0 (getSelections e) (cells (textModel e)).
Proof.
  intros Hap. rewrite applyEdits_cells. cbn [reverseSelections textModel].
  transitivity (fst (fold_left applyEdit (map deleteEdit (rev (getSelections e)))
                               (cells (textModel e), nextHandle (textModel e))));
    [reflexivity|].
  rewrite map_rev.
  rewrite <- (fold_left_rev_right (fun edit st => applyEdit st edit)).
  rewrite rev_involutive.
  rewrite (deletes_keep _ _ _ 0) by (try lia; exact Hap). reflexivity.
Qed.

(** X5.  [runDeleteAction] on a cell that lies inside one of the
    selections (ascending, apart, inside the document) deletes the cells
    of all selections and no other cell: the document keeps, in their
    order, the cells outside the selections, and its cell count drops by
    the sizes of the selections.  On a cell of the document outside every
    selection it deletes that cell alone.  In either case undo brings the
    cells back. *)
Theorem runDeleteAction_deleted_cells (e : IActiveNotebookEditor) (cell : Cell) :
  (forall containing,
      find (fun s => (r_start s <=? getCellIndex e cell) && (getCellIndex e cell <? r_end s))
           (getSelections e) = Some containing ->
      selectionsApart 0 (getLength e) (getSelections e) ->
      cells (textModel (runDeleteAction e cell))
      = keptFrom 0 (getSelections e) (cells (textModel e))
      /\ getLength (runDeleteAction e cell)
         = getLength e - sumZ (map rangeSize (getSelections e)))
  /\ (find (fun s => (r_start s <=? getCellIndex e cell) && (getCellIndex e cell <? r_end s))
           (getSelections e) = None ->
      0 <= getCellIndex e cell ->
      cells (textModel (runDeleteAction e cell))
      = firstn (Z.to_nat (getCellIndex e cell)) (cells (textModel e))
        ++ skipn (Z.to_nat (getCellIndex e cell + 1)) (cells (textModel e))
      /\ getLength (runDeleteAction e cell) = getLength e - 1)
  /\ cells (textModel (undo (runDeleteAction e cell))) = cells (textModel e).
Proof.
  split; [|split].
  - intros containing Hfind Hap. unfold runDeleteAction. rewrite Hfind.
    rewrite deleted_selections_cells by exact Hap. split; [reflexivity|].
    unfold getLength at 1. rewrite deleted_selections_cells by exact Hap.
    rewrite length_keptFrom by (unfold getLength in Hap; (lia || exact Hap)).
    unfold getLength. lia.
  - intros Hfind Ht. destruct (getCellIndex_cell e cell Ht) as (Htn & _).
    unfold runDeleteAction. rewrite Hfind.
    assert (Hcells : forall endC,
      cells (textModel (applyEdits [CellReplaceEdit (getCellIndex e cell) 1 []] true
                                   (currentSelectionState e) endC true e))
      = firstn (Z.to_nat (getCellIndex e cell)) (cells (textModel e))
        ++ skipn (Z.to_nat (getCellIndex e cell + 1)) (cells (textModel e))).
    { intros endC. rewrite applyEdits_cells. cbn [fold_left applyEdit fst].
      rewrite splice_in_range by (unfold getLength in Htn; lia). reflexivity. }
    destruct (match cellAt e (r_start (getFocus e)) with
              | Some c => (handle c =? handle cell)%nat
              | None => false
              end).
    + split; [apply Hcells|apply getLength_delete_one; lia].
    + split; [apply Hcells|apply getLength_delete_one; lia].
  - unfold runDeleteAction.
    assert (Hundo : forall edits begin endC x,
      cells (textModel (undo (applyEdits edits true begin endC true x)))
      = cells (textModel x)).
    { intros edits begin endC x. unfold undo. rewrite applyEdits_textModel. reflexivity. }
    destruct (find _ (getSelections e)).
    + rewrite Hundo. reflexivity.
    + destruct (match cellAt e (r_start (getFocus e)) with
                | Some c => (handle c =? handle cell)%nat
                | None => false
                end); apply Hundo.
Qed.

Lemma runDeleteAction_deleted_cells_witness :
  map handle (cells (textModel (runDeleteAction threeCells (codeCell 0 "a = 1"))))
  = [1%nat]
  /\ getLength (runDeleteAction threeCells (codeCell 0 "a = 1")) = 1.
Proof.
  destruct (proj1 (runDeleteAction_deleted_cells threeCells (codeCell 0 "a = 1"))
              (mkRange 0 1)) as [H1 H2].
  - reflexivity.
  - vm_compute. repeat split; discriminate.
  - split; [rewrite H1; reflexivity|rewrite H2; reflexivity].
Defined.

(** X6.  After [runDeleteAction] on a cell inside a selection
    (selections ascending, apart, inside the document), focus and
    selection are one and the same one-cell range: on the cell that
    followed the selection holding the target, found again by its handle
    in the new document; on the last cell when no cell followed and cells
    remain; and the empty range at 0 when the document is left empty. *)
Theorem runDeleteAction_focus_after_selected (e : IActiveNotebookEditor) (cell : Cell)
    (containing : ICellRange) :
  find (fun s => (r_start s <=? getCellIndex e cell) && (getCellIndex e cell <? r_end s))
       (getSelections e) = Some containing ->
  selectionsApart 0 (getLength e) (getSelections e) ->
  (forall next,
      cellAt e (r_end containing) = Some next ->
      exists c,
        cellAt (runDeleteAction e cell) (r_start (getFocus (runDeleteAction e cell))) = Some c
        /\ handle c = handle next
        /\ currentSelectionState (runDeleteAction e cell)
           = singleCellState (r_start (getFocus (runDeleteAction e cell))))
  /\ (cellAt e (r_end containing) = None ->
      currentSelectionState (runDeleteAction e cell)
      = if getLength (runDeleteAction e cell) =? 0
        then mkSel (mkRange 0 0) [mkRange 0 0]
        else singleCellState (getLength (runDeleteAction e cell) - 1)).
Proof.
  intros Hfind Hap. pose proof (find_some _ _ Hfind) as [Hin Hhold].
  unfold runDeleteAction. rewrite Hfind.
  assert (Hnext : (if r_end containing >=? getLength (reverseSelections e) then None
                   else cellAt (reverseSelections e) (r_end containing))
                  = cellAt e (r_end containing)).
  { change (getLength (reverseSelections e)) with (getLength e).
    change (cellAt (reverseSelections e) (r_end containing))
      with (cellAt e (r_end containing)).
    rewrite Z.geb_leb. destruct (Z.leb_spec (getLength e) (r_end containing)); [|reflexivity].
    destruct (cellAt e (r_end containing)) as [c|] eqn:Hc; [|reflexivity].
    apply cellAt_Some in Hc. lia. }
  rewrite Hnext.
  match goal with |- context [applyEdits ?ed ?s ?b ?c ?u ?x] =>
    destruct (applyEdits_selection_staged ed s b c u x) as (staged & Hcells & Hsel);
    pose proof (deleted_selections_cells e b c Hap) as Hkept;
    set (result := applyEdits ed s b c u x) in * end.
  assert (Hlen : getLength staged = getLength result)
    by (unfold getLength; rewrite Hcells; reflexivity).
  split.
  - intros next Hn. rewrite Hn in Hsel.
    apply cellAt_Some in Hn as [Hrange Hnth].
    assert (Hinn : In next (cells (textModel staged))).
    { rewrite Hcells, Hkept. apply (kept_after_selection _ _ containing); try assumption. lia. }
    pose proof (findIndexByHandle_found _ _ 0 next ltac:(lia) Hinn eq_refl) as Hfound.
    destruct (findIndexByHandle_cell (cells (textModel staged)) (handle next) 0
                ltac:(lia) ltac:(lia)) as (c & Hc & Hh).
    rewrite Z.sub_0_r in Hc.
    assert (Hfocus : r_start (getFocus result)
                     = findIndexByHandle (cells (textModel staged)) (handle next) 0).
    { change (getFocus result) with (sel_focus (currentSelectionState result)).
      rewrite Hsel. reflexivity. }
    exists c. rewrite Hfocus. split; [|split; [exact Hh|exact Hsel]].
    unfold cellAt, cellAtList. rewrite <- Hcells.
    destruct (Z.ltb_spec (findIndexByHandle (cells (textModel staged)) (handle next) 0) 0);
      [lia|exact Hc].
  - intros Hn. rewrite Hn in Hsel. rewrite Hsel, Hlen. reflexivity.
Qed.

Lemma runDeleteAction_focus_after_selected_witness :
  exists c,
    cellAt (runDeleteAction threeCells (codeCell 0 "a = 1"))
           (r_start (getFocus (runDeleteAction threeCells (codeCell 0 "a = 1")))) = Some c
    /\ handle c = 1%nat.
Proof.
  destruct (proj1 (runDeleteAction_focus_after_selected threeCells (codeCell 0 "a = 1")
                     (mkRange 0 1) eq_refl
                     ltac:(vm_compute; repeat split; discriminate))
              (codeCell 1 "b = 2") eq_refl) as (c & Hc & Hh & _).
  exists c. split; [exact Hc|exact Hh].
Defined.

End DeleteMoreFacts.

(* ===================================================================== *)
(** ** Further properties of moveCellRange and moveCellToIdx              *)
(* ===================================================================== *)

Module MoveMoreFacts.
Import NotebookCommon Text Model CellOperations CellOperationsMore Examples
       ModelFacts.

Lemma move_in_range_nat (cs : list Cell) (h : nat) (i k j : nat) :
  (i + k <= length cs)%nat -> (j <= length cs - k)%nat ->
  fst (applyEdit (cs, h) (CellMoveEdit (Z.of_nat i) (Z.of_nat k) (Z.of_nat j)))
  = firstn j (firstn i cs ++ skipn (i + k) cs)
    ++ firstn k (skipn i cs)
    ++ skipn j (firstn i cs ++ skipn (i + k) cs).
Proof.
  intros H1 H2. rewrite applyEdit_move_in_range by lia.
  rewrite <- Nat2Z.inj_add, !Nat2Z.id. reflexivity.
Qed.

Lemma drop_past_one {A} (l1 : list A) (x : A) (l2 : list A) :
  skipn (length l1 + 1) (l1 ++ [x] ++ l2) = l2.
Proof. rewrite <- drop_drop, drop_app_length. reflexivity. Qed.

(** The Move of [moveCellRange] upwards on the cell array. *)
Lemma move_up_list (A B C : list Cell) (x : Cell) (h : nat) :
  fst (applyEdit (A ++ [x] ++ B ++ C, h)
                 (CellMoveEdit (Z.of_nat (length A)) 1 (Z.of_nat (length A + length B))))
  = A ++ B ++ [x] ++ C.
Proof.
  change 1 with (Z.of_nat 1).
  rewrite move_in_range_nat by (rewrite ?length_app; simpl; lia).
  rewrite take_app_length, drop_past_one, drop_app_length.
  rewrite (app_assoc A B C).
  rewrite (take_app_length' (A ++ B)) by (rewrite length_app; reflexivity).
  rewrite (drop_app_length' (A ++ B)) by (rewrite length_app; reflexivity).
  rewrite <- app_assoc. reflexivity.
Qed.

(** The Move of [moveCellRange] downwards on the cell array. *)
Lemma move_down_list (A B C : list Cell) (x : Cell) (h : nat) :
  fst (applyEdit (A ++ B ++ [x] ++ C, h)
                 (CellMoveEdit (Z.of_nat (length A + length B)) 1 (Z.of_nat (length A))))
  = A ++ [x] ++ B ++ C.
Proof.
  change 1 with (Z.of_nat 1).
  rewrite move_in_range_nat by (rewrite ?length_app; simpl; lia).
  rewrite (app_assoc A B ([x] ++ C)).
  replace (length A + length B)%nat with (length (A ++ B))
    by (rewrite length_app; reflexivity).
  rewrite drop_past_one, take_app_length, drop_app_length, <- app_assoc.
  rewrite take_app_length, drop_app_length. reflexivity.
Qed.

Section Shifts.
Variable expandCellRangesWithHiddenCells :
  IActiveNotebookEditor -> list ICellRange -> list ICellRange.
Variable cellRangeContains : ICellRange -> ICellRange -> bool.

Let move := moveCellRange expandCellRangesWithHiddenCells cellRangeContains.

(** What [moveCellRange] does on a writable editor when the first model
    range is not empty and not at the boundary it moves towards. *)
Lemma moveCellRange_moves (context : INotebookCellActionContext) (tm : NotebookTextModel)
    (range : ICellRange) (rest : list ICellRange) (direction : MoveDirection) :
  n_textModel (c_notebookEditor context) = Some tm ->
  isReadOnly (n_view (c_notebookEditor context)) = false ->
  expandCellRangesWithHiddenCells (mkActive (n_view (c_notebookEditor context)) tm)
    (selections (n_view (c_notebookEditor context))) = range :: rest ->
  r_start range <> r_end range ->
  match direction with
  | up => r_start range <> 0
  | down => r_end range < Z.of_nat (length (cells tm))
  end ->
  let delta := match direction with up => -1 | down => 1 end in
  exists newFocus,
    move context direction
    = toEditor
        (revealCellRangeInView (shiftRange delta range)
           (applyEdits [moveRangeEdit direction range] true
              (currentSelectionState (mkActive (n_view (c_notebookEditor context)) tm))
              (fun _ => mkSel newFocus [shiftRange delta range]) true
              (mkActive (n_view (c_notebookEditor context)) tm))).
Proof.
  intros Htm Hro Hex Hne Hdir delta. unfold move, moveCellRange.
  rewrite Htm. cbn [view isReadOnly]. rewrite Hro.
  unfold getSelections. cbn [view]. rewrite Hex.
  destruct (Z.eqb_spec (r_start range) (r_end range)) as [|_]; [contradiction|].
  destruct direction.
  - destruct (Z.eqb_spec (r_start range) 0) as [|_]; [contradiction|].
    eexists. reflexivity.
  - unfold getLength. cbn [textModel]. rewrite Z.geb_leb.
    destruct (Z.leb_spec (Z.of_nat (length (cells tm))) (r_end range)); [lia|].
    eexists. reflexivity.
Qed.

End Shifts.

Lemma cells_below_block (cs : list Cell) (s e : Z) :
  0 <= s -> s < e -> e < Z.of_nat (length cs) ->
  exists A B x C,
    cs = A ++ B ++ [x] ++ C
    /\ s = Z.of_nat (length A) /\ e = Z.of_nat (length A + length B) /\ B <> [].
Proof.
  intros Hs Hse He.
  pose proof (firstn_skipn (Z.to_nat s) cs) as H1.
  pose proof (firstn_skipn (Z.to_nat (e - s)) (skipn (Z.to_nat s) cs)) as H2.
  destruct (skipn (Z.to_nat (e - s)) (skipn (Z.to_nat s) cs)) as [|x C] eqn:E.
  - apply (f_equal (@length Cell)) in E. rewrite !length_skipn in E. simpl in E. lia.
  - exists (firstn (Z.to_nat s) cs), (firstn (Z.to_nat (e - s)) (skipn (Z.to_nat s) cs)), x, C.
    split; [|split; [|split]].
    + cbn [app]. rewrite H2, H1. reflexivity.
    + rewrite length_firstn. lia.
    + rewrite !length_firstn, length_skipn. lia.
    + intros Hnil. apply (f_equal (@length Cell)) in Hnil.
      rewrite length_firstn, length_skipn in Hnil. simpl in Hnil. lia.
Qed.

Lemma splice_take_out_perm {A} (l : list A) (start deleteCount : Z) :
  Permutation (splice l start deleteCount [] ++ spliced l start deleteCount) l.
Proof.
  unfold splice, spliced.
  set (a := spliceStart (Z.of_nat (length l)) start).
  set (d := spliceDeleteCount (Z.of_nat (length l)) a deleteCount).
  assert (Ha : 0 <= a <= Z.of_nat (length l)).
  { subst a. unfold spliceStart. destruct (Z.ltb_spec start 0); lia. }
  assert (Hd : 0 <= d) by (subst d; unfold spliceDeleteCount; lia).
  rewrite Z2Nat.inj_add by lia. rewrite <- drop_drop. cbn [app].
  rewrite <- app_assoc.
  rewrite <- (firstn_skipn (Z.to_nat a) l) at 4.
  apply Permutation_app_head.
  rewrite <- (firstn_skipn (Z.to_nat d) (skipn (Z.to_nat a) l)) at 3.
  apply Permutation_app_comm.
Qed.

Lemma splice_put_in_perm {A} (l items : list A) (start : Z) :
  Permutation (splice l start 0 items) (l ++ items).
Proof.
  unfold splice.
  set (a := spliceStart (Z.of_nat (length l)) start).
  assert (Ha : 0 <= a <= Z.of_nat (length l)).
  { subst a. unfold spliceStart. destruct (Z.ltb_spec start 0); lia. }
  replace (spliceDeleteCount (Z.of_nat (length l)) a 0) with 0
    by (unfold spliceDeleteCount; lia).
  rewrite Z.add_0_r.
  rewrite <- (firstn_skipn (Z.to_nat a) l) at 3.
  rewrite <- app_assoc. apply Permutation_app_head. apply Permutation_app_comm.
Qed.

Lemma applyEdit_move_perm (cs : list Cell) (h : nat) (index len newIdx : Z) :
  Permutation (fst (applyEdit (cs, h) (CellMoveEdit index len newIdx))) cs.
Proof.
  cbn [applyEdit fst].
  etransitivity; [apply splice_put_in_perm|apply splice_take_out_perm].
Qed.

(** X7.  [moveCellRange] on a writable editor, seen on the cell array.
    Downwards, with the cells [A ++ B ++ [x] ++ C] and the non-empty block
    [B] as first model range, the cell [x] below the block goes above it:
    the cells become [A ++ [x] ++ B ++ C].  Upwards, with the cells
    [A ++ [x] ++ B ++ C], the cell above the block goes below it.  Either
    way the selection becomes the one range of the block at its new
    place, and this range is revealed. *)
Theorem moveCellRange_shifts_block
    (expand : IActiveNotebookEditor -> list ICellRange -> list ICellRange)
    (contains : ICellRange -> ICellRange -> bool)
    (context : INotebookCellActionContext) (tm : NotebookTextModel)
    (range : ICellRange) (rest : list ICellRange) (A B C : list Cell) (x : Cell) :
  n_textModel (c_notebookEditor context) = Some tm ->
  isReadOnly (n_view (c_notebookEditor context)) = false ->
  expand (mkActive (n_view (c_notebookEditor context)) tm)
    (selections (n_view (c_notebookEditor context))) = range :: rest ->
  B <> [] ->
  (cells tm = A ++ B ++ [x] ++ C ->
   range = mkRange (Z.of_nat (length A)) (Z.of_nat (length A + length B)) ->
   option_map cells (n_textModel (moveCellRange expand contains context down))
   = Some (A ++ [x] ++ B ++ C)
   /\ selections (n_view (moveCellRange expand contains context down))
      = [shiftRange 1 range]
   /\ uiLog (n_view (moveCellRange expand contains context down))
      = uiLog (n_view (c_notebookEditor context))
        ++ [RevealCellRangeInView (shiftRange 1 range)])
  /\ (cells tm = A ++ [x] ++ B ++ C ->
      range = mkRange (Z.of_nat (length A + 1)) (Z.of_nat (length A + 1 + length B)) ->
      option_map cells (n_textModel (moveCellRange expand contains context up))
      = Some (A ++ B ++ [x] ++ C)
      /\ selections (n_view (moveCellRange expand contains context up))
         = [shiftRange (-1) range]
      /\ uiLog (n_view (moveCellRange expand contains context up))
         = uiLog (n_view (c_notebookEditor context))
           ++ [RevealCellRangeInView (shiftRange (-1) range)]).
Proof.
  intros Htm Hro Hex HB.
  assert (HlenB : (0 < length B)%nat) by (destruct B; [contradiction|simpl; lia]).
  split; intros Hcs Hrange.
  - destruct (moveCellRange_moves expand contains context tm range rest down Htm Hro Hex)
      as [newFocus Hmove].
    + subst range. cbn [r_start r_end]. lia.
    + subst range. cbn [r_start r_end]. rewrite Hcs, !length_app. simpl. lia.
    + rewrite Hmove. split; [|split].
      * cbn [toEditor n_textModel option_map]. f_equal.
        change (textModel (revealCellRangeInView ?r ?e)) with (textModel e).
        rewrite applyEdits_cells. cbn [fold_left textModel].
        subst range. cbn [moveRangeEdit r_start r_end]. rewrite Hcs.
        apply move_down_list.
      * unfold applyEdits. destruct (fold_left applyEdit _ _). reflexivity.
      * unfold applyEdits. destruct (fold_left applyEdit _ _). reflexivity.
  - destruct (moveCellRange_moves expand contains context tm range rest up Htm Hro Hex)
      as [newFocus Hmove].
    + subst range. cbn [r_start r_end]. lia.
    + subst range. cbn [r_start r_end]. lia.
    + rewrite Hmove. split; [|split].
      * cbn [toEditor n_textModel option_map]. f_equal.
        change (textModel (revealCellRangeInView ?r ?e)) with (textModel e).
        rewrite applyEdits_cells. cbn [fold_left textModel].
        subst range. cbn [moveRangeEdit r_start r_end]. rewrite Hcs.
        replace (Z.of_nat (length A + 1) - 1) with (Z.of_nat (length A)) by lia.
        replace (Z.of_nat (length A + 1 + length B) - 1)
          with (Z.of_nat (length A + length B)) by lia.
        apply move_up_list.
      * unfold applyEdits. destruct (fold_left applyEdit _ _). reflexivity.
      * unfold applyEdits. destruct (fold_left applyEdit _ _). reflexivity.
Qed.

Lemma moveCellRange_shifts_block_witness :
  option_map (fun tm => map handle (cells tm))
    (n_textModel (moveCellRange noHiddenCells containsRange
                    (mkCellContext (toEditor threeCells) false (codeCell 0 "a = 1")) down))
  = Some [1; 0; 2]%nat
  /\ selections (n_view (moveCellRange noHiddenCells containsRange
                    (mkCellContext (toEditor threeCells) false (codeCell 0 "a = 1")) down))
     = [mkRange 1 2].
Proof.
  destruct (proj1 (moveCellRange_shifts_block noHiddenCells containsRange
                     (mkCellContext (toEditor threeCells) false (codeCell 0 "a = 1"))
                     (textModel threeCells) (mkRange 0 1) [mkRange 2 3]
                     [] [codeCell 0 "a = 1"] [codeCell 2 "c = 3"] (codeCell 1 "b = 2")
                     eq_refl eq_refl eq_refl ltac:(discriminate))
              eq_refl eq_refl) as (H1 & H2 & _).
  split; [|exact H2].
  destruct (n_textModel _) as [tm'|]; [|discriminate].
  injection H1 as H1. cbn [option_map]. rewrite H1. reflexivity.
Defined.

(** X8.  Where no cell is hidden (the model ranges are the selections),
    moving the first selection down and then up again gives back the
    cells in their order; the selection is then that one range. *)
Theorem moveCellRange_down_then_up
    (expand : IActiveNotebookEditor -> list ICellRange -> list ICellRange)
    (contains : ICellRange -> ICellRange -> bool)
    (context : INotebookCellActionContext) (tm : NotebookTextModel)
    (range : ICellRange) (rest : list ICellRange) :
  (forall e sels, expand e sels = sels) ->
  n_textModel (c_notebookEditor context) = Some tm ->
  isReadOnly (n_view (c_notebookEditor context)) = false ->
  selections (n_view (c_notebookEditor context)) = range :: rest ->
  0 <= r_start range -> r_start range < r_end range ->
  r_end range < Z.of_nat (length (cells tm)) ->
  let there := moveCellRange expand contains context down in
  let back :=
    moveCellRange expand contains (mkCellContext there (c_ui context) (c_cell context)) up in
  option_map cells (n_textModel back) = Some (cells tm)
  /\ selections (n_view back) = [range].
Proof.
  intros Hid Htm Hro Hsel Hs Hse He there back.
  destruct (cells_below_block (cells tm) (r_start range) (r_end range) Hs Hse He)
    as (A & B & x & C & Hcs & HA & HAB & HB).
  destruct (moveCellRange_moves expand contains context tm range rest down Htm Hro)
    as [newFocus Hthere]; [rewrite Hid; exact Hsel|lia|exact He|].
  fold there in Hthere.
  assert (Hcells : option_map cells (n_textModel there) = Some (A ++ [x] ++ B ++ C)).
  { rewrite Hthere. cbn [toEditor n_textModel option_map]. f_equal.
    change (textModel (revealCellRangeInView ?r ?e)) with (textModel e).
    rewrite applyEdits_cells. cbn [fold_left textModel moveRangeEdit].
    rewrite Hcs, HA, HAB. apply move_down_list. }
  assert (Hsels : selections (n_view there) = [shiftRange 1 range]).
  { rewrite Hthere. unfold applyEdits. destruct (fold_left applyEdit _ _). reflexivity. }
  assert (Hro' : isReadOnly (n_view there) = false).
  { rewrite Hthere. unfold applyEdits. destruct (fold_left applyEdit _ _). exact Hro. }
  destruct (n_textModel there) as [tm'|] eqn:Htm'; [|discriminate].
  injection Hcells as Hcells.
  destruct (moveCellRange_moves expand contains
              (mkCellContext there (c_ui context) (c_cell context)) tm'
              (shiftRange 1 range) [] up Htm' Hro')
    as [newFocus' Hback].
  - rewrite Hid. exact Hsels.
  - cbn [shiftRange r_start r_end]. lia.
  - cbn [shiftRange r_start r_end]. lia.
  - fold back in Hback. rewrite Hback. split.
    + cbn [toEditor n_textModel option_map]. f_equal.
      change (textModel (revealCellRangeInView ?r ?e)) with (textModel e).
      rewrite applyEdits_cells.
      cbn [fold_left textModel moveRangeEdit shiftRange r_start r_end c_notebookEditor].
      rewrite Hcells, Hcs.
      replace (r_start range + 1 - 1) with (Z.of_nat (length A)) by lia.
      replace (r_end range + 1 - 1) with (Z.of_nat (length A + length B)) by lia.
      apply move_up_list.
    + unfold applyEdits. destruct (fold_left applyEdit _ _).
      transitivity [shiftRange (-1) (shiftRange 1 range)]; [reflexivity|].
      destruct range as [s e]. unfold shiftRange. cbn [r_start r_end].
      replace (s + 1 + -1) with s by lia. replace (e + 1 + -1) with e by lia.
      reflexivity.
Qed.

Lemma moveCellRange_down_then_up_witness :
  option_map (fun tm => map handle (cells tm))
    (n_textModel
       (moveCellRange noHiddenCells containsRange
          (mkCellContext
             (moveCellRange noHiddenCells containsRange
                (mkCellContext (toEditor threeCells) false (codeCell 0 "a = 1")) down)
             false (codeCell 0 "a = 1")) up))
  = Some [0; 1; 2]%nat.
Proof.
  destruct (moveCellRange_down_then_up noHiddenCells containsRange
              (mkCellContext (toEditor threeCells) false (codeCell 0 "a = 1"))
              (textModel threeCells) (mkRange 0 1) [mkRange 2 3]
              (fun _ _ => eq_refl) eq_refl eq_refl eq_refl
              ltac:(simpl; lia) ltac:(simpl; lia) ltac:(simpl; lia)) as [H1 _].
  cbn [c_ui c_cell] in H1.
  destruct (n_textModel _) as [tm'|]; [|discriminate].
  injection H1 as H1. cbn [option_map]. rewrite H1. reflexivity.
Defined.

(** X9.  The move operations never add or drop a cell: whatever the
    ranges, indices and direction, in range or not, the cells after
    [moveCellRange] and after [moveCellToIdx] are a rearrangement of the
    cells before. *)
Theorem move_operations_keep_cells :
  (forall (expand : IActiveNotebookEditor -> list ICellRange -> list ICellRange)
          (contains : ICellRange -> ICellRange -> bool)
          (context : INotebookCellActionContext) (direction : MoveDirection)
          (tm : NotebookTextModel),
      n_textModel (c_notebookEditor context) = Some tm ->
      exists tm',
        n_textModel (moveCellRange expand contains context direction) = Some tm'
        /\ Permutation (cells tm') (cells tm))
  /\ (forall (editor : IActiveNotebookEditor) (index len newIdx : Z)
             (synchronous pushedToUndoStack : bool),
         Permutation
           (cells (textModel (snd (moveCellToIdx editor index len newIdx synchronous
                                                 pushedToUndoStack))))
           (cells (textModel editor))).
Proof.
  split.
  - intros expand contains context direction tm Htm.
    unfold moveCellRange. rewrite Htm.
    destruct (isReadOnly _); [exists tm; split; [exact Htm|reflexivity]|].
    destruct (expand _ _) as [|range rest]; [exists tm; split; [exact Htm|reflexivity]|].
    destruct (r_start range =? r_end range);
      [exists tm; split; [exact Htm|reflexivity]|].
    destruct direction.
    + destruct (r_start range =? 0); [exists tm; split; [exact Htm|reflexivity]|].
      eexists. split; [reflexivity|].
      change (textModel (revealCellRangeInView ?r ?e)) with (textModel e).
      rewrite applyEdits_cells. cbn [fold_left textModel moveRangeEdit].
      apply applyEdit_move_perm.
    + destruct (r_end range >=? _); [exists tm; split; [exact Htm|reflexivity]|].
      eexists. split; [reflexivity|].
      change (textModel (revealCellRangeInView ?r ?e)) with (textModel e).
      rewrite applyEdits_cells. cbn [fold_left textModel moveRangeEdit].
      apply applyEdit_move_perm.
  - intros editor index len newIdx synchronous pushedToUndoStack.
    unfold moveCellToIdx. destruct (cellAt editor index); cbn [snd]; [|reflexivity].
    rewrite applyEdits_cells. cbn [fold_left]. apply applyEdit_move_perm.
Qed.

Lemma move_operations_keep_cells_witness :
  exists tm',
    n_textModel (moveCellRange noHiddenCells containsRange
                   (mkCellContext (toEditor threeCells) false (codeCell 0 "a = 1")) up)
    = Some tm'
    /\ Permutation (cells tm') (cells (textModel threeCells)).
Proof.
  exact (proj1 move_operations_keep_cells noHiddenCells containsRange
           (mkCellContext (toEditor threeCells) false (codeCell 0 "a = 1")) up
           (textModel threeCells) eq_refl).
Defined.



End MoveMoreFacts.

(* ===================================================================== *)
(** ** Further properties of copyCellRange                                *)
(* ===================================================================== *)

Module CopyMoreFacts.
Import NotebookCommon Text Model CellOperations CellOperationsMore Examples
       ModelFacts.

Lemma skipn_cons_nth {A} (l : list A) (k : nat) (c : A) :
  nth_error l k = Some c -> skipn k l = c :: skipn (S k) l.
Proof.
  revert k. induction l as [|x l IH]; intros k H.
  - destruct k; discriminate.
  - destruct k as [|k]; [injection H as ->; reflexivity|apply IH, H].
Qed.

Section Copies.
Variable cloneNotebookCellTextModel : Cell -> ICellDto.

(** The clones of the cells of a range inside the document. *)
Lemma cloneCellsAt_in_range (e : IActiveNotebookEditor) :
  forall (len : nat) (s : Z),
    0 <= s -> s + Z.of_nat len <= getLength e ->
    cloneCellsAt cloneNotebookCellTextModel e
      (map (fun k => s + Z.of_nat k) (seq 0 len))
    = Returns (map cloneNotebookCellTextModel
                   (firstn len (skipn (Z.to_nat s) (cells (textModel e))))).
Proof.
  induction len as [|len IH]; intros s Hs Hn; [reflexivity|].
  cbn [seq map cloneCellsAt]. rewrite Z.add_0_r.
  unfold cellAt, cellAtList. destruct (Z.ltb_spec s 0); [lia|].
  destruct (nth_error (cells (textModel e)) (Z.to_nat s)) as [c|] eqn:Hc.
  - rewrite <- seq_shift, map_map.
    rewrite (map_ext _ (fun k => (s + 1) + Z.of_nat k)) by (intros k; lia).
    rewrite IH by (unfold getLength in *; lia).
    rewrite (skipn_cons_nth _ _ _ Hc). cbn [firstn map].
    replace (Z.to_nat (s + 1)) with (S (Z.to_nat s)) by lia. reflexivity.
  - apply nth_error_None in Hc. unfold getLength in Hn. lia.
Qed.

(** [cloneCellsAt] throws exactly when one of the indices has no cell. *)
Lemma cloneCellsAt_Throws (e : IActiveNotebookEditor) (indexes : list Z) :
  cloneCellsAt cloneNotebookCellTextModel e indexes = Throws
  <-> exists index, In index indexes /\ cellAt e index = None.
Proof.
  induction indexes as [|i rest IH]; cbn [cloneCellsAt].
  - split; [discriminate|intros (i & [] & _)].
  - destruct (cellAt e i) as [c|] eqn:Hc.
    + destruct (cloneCellsAt cloneNotebookCellTextModel e rest) as [ds|].
      * split; [discriminate|]. intros (j & [<-|Hin] & Hj); [congruence|].
        assert (Hno : @Returns (list ICellDto) ds = Throws)
          by (apply IH; exists j; split; assumption).
        discriminate Hno.
      * split; [|reflexivity]. intros _.
        destruct (proj1 IH eq_refl) as (j & Hin & Hj). exists j. split; [right|]; assumption.
    + split; [|reflexivity]. intros _. exists i. split; [left; reflexivity|exact Hc].
Qed.

End Copies.

(** X11.  [copyCellRange] on a writable editor, with its range (the
    target cell's under [ui], the first model range otherwise) not empty
    and inside the document, and the indices of the range taken one by
    one: it puts clones of the cells of the range right behind the range
    and leaves every cell as it was.  Upwards, focus and selections stay
    and nothing is revealed; downwards without [ui], the selection
    becomes the range of the copies, which is revealed, and the focus
    moves down by the number of copies; downwards under [ui] focus and
    selections stay. *)
Theorem copyCellRange_inserts_clones
    (expand : IActiveNotebookEditor -> list ICellRange -> list ICellRange)
    (toIndexes : list ICellRange -> list Z) (clone : Cell -> ICellDto)
    (context : INotebookCellActionContext) (tm : NotebookTextModel)
    (range : ICellRange) (direction : MoveDirection) :
  n_textModel (c_notebookEditor context) = Some tm ->
  isReadOnly (n_view (c_notebookEditor context)) = false ->
  (if c_ui context
   then Some (mkRange (getCellIndex (mkActive (n_view (c_notebookEditor context)) tm)
                                    (c_cell context))
                      (getCellIndex (mkActive (n_view (c_notebookEditor context)) tm)
                                    (c_cell context) + 1))
   else head (expand (mkActive (n_view (c_notebookEditor context)) tm)
                     (selections (n_view (c_notebookEditor context))))) = Some range ->
  0 <= r_start range -> r_start range < r_end range ->
  r_end range <= Z.of_nat (length (cells tm)) ->
  toIndexes [range] = indexesOfRange range ->
  exists result,
    copyCellRange expand toIndexes clone context direction = Returns result
    /\ option_map cells (n_textModel result)
       = Some (firstn (Z.to_nat (r_end range)) (cells tm)
               ++ cellsOfDtos (nextHandle tm)
                    (map clone (cellsBetween (cells tm) (r_start range) (r_end range)))
               ++ skipn (Z.to_nat (r_end range)) (cells tm))
    /\ (if c_ui context || match direction with up => true | down => false end
        then focus (n_view result) = focus (n_view (c_notebookEditor context))
             /\ selections (n_view result) = selections (n_view (c_notebookEditor context))
        else focus (n_view result)
             = shiftRange (rangeSize range) (focus (n_view (c_notebookEditor context)))
             /\ selections (n_view result) = [shiftRange (rangeSize range) range])
    /\ uiLog (n_view result)
       = uiLog (n_view (c_notebookEditor context))
         ++ match direction with
            | up => []
            | down => [RevealCellRangeInView
                         (match selections (n_view result) with
                          | s :: _ => s
                          | [] => focus (n_view result)
                          end)]
            end.
Proof.
  intros Htm Hro Hrange Hs Hse He Hidx.
  assert (Hclone : cloneCellsAt clone (mkActive (n_view (c_notebookEditor context)) tm)
                     (toIndexes [range])
                   = Returns (map clone (cellsBetween (cells tm) (r_start range)
                                                      (r_end range)))).
  { rewrite Hidx. unfold indexesOfRange, cellsBetween, rangeSize.
    apply cloneCellsAt_in_range; [exact Hs|]. unfold getLength. cbn [textModel]. lia. }
  assert (Hlen : Z.of_nat (length (map clone (cellsBetween (cells tm) (r_start range)
                                                           (r_end range))))
                 = rangeSize range).
  { rewrite length_map. unfold cellsBetween, rangeSize.
    rewrite length_firstn, length_skipn. lia. }
  unfold copyCellRange. rewrite Htm. cbn [view isReadOnly]. rewrite Hro.
  unfold getSelections. cbn [view].
  match goal with |- context [match ?r with Some _ => _ | None => _ end] =>
    replace r with (Some range) end.
  destruct (Z.eqb_spec (r_start range) (r_end range)) as [|_]; [lia|].
  destruct direction; rewrite Hclone.
  - eexists. split; [reflexivity|]. split; [|split].
    + cbn [toEditor n_textModel option_map]. f_equal.
      rewrite applyEdits_cells. cbn [fold_left applyEdit fst textModel].
      rewrite splice_in_range by lia. rewrite Z.add_0_r. reflexivity.
    + rewrite orb_true_r. unfold applyEdits. destruct (fold_left applyEdit _ _).
      split; reflexivity.
    + unfold applyEdits. destruct (fold_left applyEdit _ _). cbn.
      symmetry. apply app_nil_r.
  - eexists. split; [reflexivity|]. split; [|split].
    + cbn [toEditor n_textModel option_map]. f_equal.
      change (textModel (revealCellRangeInView ?r ?e)) with (textModel e).
      rewrite applyEdits_cells. cbn [fold_left applyEdit fst textModel].
      rewrite splice_in_range by lia. rewrite Z.add_0_r. reflexivity.
    + rewrite orb_false_r, Hlen. unfold applyEdits. destruct (fold_left applyEdit _ _).
      destruct (c_ui context); split; reflexivity.
    + unfold applyEdits. destruct (fold_left applyEdit _ _). reflexivity.
Qed.

Lemma copyCellRange_inserts_clones_witness :
  exists result,
    copyCellRange noHiddenCells (fun _ => [0]) (fun c => mkDto (cellKind c) (getText c)
                                   (language c) (mime c) (outputs c) (metadata c))
      (mkCellContext (toEditor threeCells) false (codeCell 0 "a = 1")) down
    = Returns result
    /\ option_map (fun tm => map handle (cells tm)) (n_textModel result)
       = Some [0; 3; 1; 2]%nat.
Proof.
  destruct (copyCellRange_inserts_clones noHiddenCells (fun _ => [0])
              (fun c => mkDto (cellKind c) (getText c) (language c) (mime c) (outputs c)
                              (metadata c))
              (mkCellContext (toEditor threeCells) false (codeCell 0 "a = 1"))
              (textModel threeCells) (mkRange 0 1) down
              eq_refl eq_refl eq_refl ltac:(simpl; lia) ltac:(simpl; lia)
              ltac:(simpl; lia) eq_refl) as (result & H1 & H2 & _).
  exists result. split; [exact H1|].
  destruct (n_textModel result) as [tm'|]; [|discriminate].
  injection H2 as H2. cbn [option_map]. rewrite H2. reflexivity.
Defined.

(** X12.  With a non-empty range on a writable editor, [copyCellRange]
    throws exactly when one of the indices it is given for the range has
    no cell.  Under [ui] with a target cell that is not in the document
    the range is [-1, 0): the call throws in either direction as soon as
    -1 is among the indices. *)
Theorem copyCellRange_throws_iff
    (expand : IActiveNotebookEditor -> list ICellRange -> list ICellRange)
    (toIndexes : list ICellRange -> list Z) (clone : Cell -> ICellDto)
    (context : INotebookCellActionContext) (tm : NotebookTextModel)
    (direction : MoveDirection) :
  n_textModel (c_notebookEditor context) = Some tm ->
  isReadOnly (n_view (c_notebookEditor context)) = false ->
  (forall range,
      (if c_ui context
       then Some (mkRange (getCellIndex (mkActive (n_view (c_notebookEditor context)) tm)
                                        (c_cell context))
                          (getCellIndex (mkActive (n_view (c_notebookEditor context)) tm)
                                        (c_cell context) + 1))
       else head (expand (mkActive (n_view (c_notebookEditor context)) tm)
                         (selections (n_view (c_notebookEditor context))))) = Some range ->
      r_start range <> r_end range ->
      (copyCellRange expand toIndexes clone context direction = Throws
       <-> exists index,
             In index (toIndexes [range])
             /\ cellAt (mkActive (n_view (c_notebookEditor context)) tm) index = None))
  /\ (c_ui context = true ->
      getCellIndex (mkActive (n_view (c_notebookEditor context)) tm) (c_cell context) = -1 ->
      In (-1) (toIndexes [mkRange (-1) 0]) ->
      copyCellRange expand toIndexes clone context direction = Throws).
Proof.
  intros Htm Hro.
  assert (Hiff : forall range,
      (if c_ui context
       then Some (mkRange (getCellIndex (mkActive (n_view (c_notebookEditor context)) tm)
                                        (c_cell context))
                          (getCellIndex (mkActive (n_view (c_notebookEditor context)) tm)
                                        (c_cell context) + 1))
       else head (expand (mkActive (n_view (c_notebookEditor context)) tm)
                         (selections (n_view (c_notebookEditor context))))) = Some range ->
      r_start range <> r_end range ->
      (copyCellRange expand toIndexes clone context direction = Throws
       <-> exists index,
             In index (toIndexes [range])
             /\ cellAt (mkActive (n_view (c_notebookEditor context)) tm) index = None)).
  { intros range Hrange Hne. rewrite <- (cloneCellsAt_Throws clone).
    unfold copyCellRange. rewrite Htm. cbn [view isReadOnly]. rewrite Hro.
    unfold getSelections. cbn [view].
    match goal with |- context [match ?r with Some _ => _ | None => _ end] =>
      replace r with (Some range) end.
    destruct (Z.eqb_spec (r_start range) (r_end range)) as [|_]; [contradiction|].
    destruct direction;
      destruct (cloneCellsAt clone _ (toIndexes [range])); split; congruence. }
  split; [exact Hiff|].
  intros Hui Hidx Hin.
  apply (Hiff (mkRange (-1) 0)).
  - rewrite Hui, Hidx. reflexivity.
  - cbn. lia.
  - exists (-1). split; [exact Hin|reflexivity].
Qed.

Lemma copyCellRange_throws_iff_witness :
  copyCellRange noHiddenCells (fun _ => [-1]) (fun c => mkDto (cellKind c) (getText c)
                                 (language c) (mime c) (outputs c) (metadata c))
    (mkCellContext (toEditor threeCells) true (codeCell 7 "x")) up
  = Throws.
Proof.
  apply (proj2 (copyCellRange_throws_iff noHiddenCells (fun _ => [-1])
                  (fun c => mkDto (cellKind c) (getText c) (language c) (mime c)
                                  (outputs c) (metadata c))
                  (mkCellContext (toEditor threeCells) true (codeCell 7 "x"))
                  (textModel threeCells) up eq_refl eq_refl)
               eq_refl eq_refl).
  left. reflexivity.
Defined.

End CopyMoreFacts.

(* ===================================================================== *)
(** ** Further properties of insertCellAtIndex and insertCell             *)
(* ===================================================================== *)

Module InsertMoreFacts.
Import NotebookCommon Text Model CellOperations CellOperationsMore Examples
       ModelFacts.

Lemma spliceStart_bounds (len start : Z) :
  0 <= len -> 0 <= spliceStart len start <= len.
Proof. intros H. unfold spliceStart. destruct (Z.ltb_spec start 0); lia. Qed.

Lemma length_splice_insert {A} (l items : list A) (start : Z) :
  length (splice l start 0 items) = (length l + length items)%nat.
Proof.
  unfold splice.
  pose proof (spliceStart_bounds (Z.of_nat (length l)) start ltac:(lia)) as Ha.
  replace (spliceDeleteCount _ _ 0) with 0 by (unfold spliceDeleteCount; lia).
  rewrite Z.add_0_r, !length_app, length_firstn, length_skipn. lia.
Qed.

Lemma nth_error_middle {A} (l : list A) (k : nat) (x : A) :
  (k <= length l)%nat -> nth_error (firstn k l ++ [x] ++ skipn k l) k = Some x.
Proof.
  intros Hk. rewrite nth_error_app2 by (rewrite length_firstn; lia).
  rewrite length_firstn. replace (k - Nat.min k (length l))%nat with 0%nat by lia.
  reflexivity.
Qed.

(** The cell [insertCellAtIndex] returns: the new cell when the index is
    in the document or right at its end, and none otherwise. *)
Lemma insertCellAtIndex_returned (viewModel : IActiveNotebookEditor) (index : Z)
    (source language : string) (type : CellKind) (metadata : option string)
    (outputs : list string) (synchronous pushUndoStop : bool) (c : Cell) :
  fst (insertCellAtIndex viewModel index source language type metadata outputs
                         synchronous pushUndoStop) = Some c
  <-> 0 <= index <= getLength viewModel
      /\ c = cellOfDto (nextHandle (textModel viewModel))
                       (mkDto type source language None outputs metadata).
Proof.
  unfold insertCellAtIndex. cbn [fst]. unfold cellAt, cellAtList, getLength.
  rewrite applyEdits_cells. cbn [fold_left applyEdit fst cellsOfDtos].
  destruct (Z.ltb_spec index 0) as [Hneg|Hpos].
  - split; [discriminate|lia].
  - destruct (Z.le_gt_cases index (Z.of_nat (length (cells (textModel viewModel)))))
      as [Hin|Hout].
    + rewrite splice_in_range by lia. rewrite Z.add_0_r.
      rewrite nth_error_middle by lia.
      split; [intros [= <-]; split; [lia|reflexivity]|intros [_ ->]; reflexivity].
    + split; [|lia]. intros Hc.
      assert (Hlt : (Z.to_nat index
                     < length (splice (cells (textModel viewModel)) index 0
                                 [cellOfDto (nextHandle (textModel viewModel))
                                    (mkDto type source language None outputs metadata)]))%nat)
        by (apply nth_error_Some; rewrite Hc; discriminate).
      rewrite length_splice_insert in Hlt. simpl in Hlt. lia.
Qed.

(** [insertCellAtIndex] with an index in the document or right at its
    end, on the cell array. *)
Lemma insertCellAtIndex_on_cells (viewModel : IActiveNotebookEditor)
    (index : Z) (source language : string) (type : CellKind) (metadata : option string)
    (outputs : list string) (synchronous pushUndoStop : bool) :
  0 <= index <= getLength viewModel ->
  exists c,
    fst (insertCellAtIndex viewModel index source language type metadata outputs
                           synchronous pushUndoStop) = Some c
    /\ cells (textModel (snd (insertCellAtIndex viewModel index source language type
                                metadata outputs synchronous pushUndoStop)))
       = firstn (Z.to_nat index) (cells (textModel viewModel)) ++ [c]
         ++ skipn (Z.to_nat index) (cells (textModel viewModel))
    /\ cellKind c = type
    /\ handle c = nextHandle (textModel viewModel)
    /\ getLength (snd (insertCellAtIndex viewModel index source language type metadata
                                         outputs synchronous pushUndoStop))
       = getLength viewModel + 1
    /\ currentSelectionState
         (snd (insertCellAtIndex viewModel index source language type metadata outputs
                                 synchronous pushUndoStop))
       = singleCellState index.
Proof.
  intros Hi. eexists.
  split; [apply insertCellAtIndex_returned; split; [exact Hi|reflexivity]|].
  split; [|split; [reflexivity|split; [reflexivity|split; [|reflexivity]]]].
  - unfold insertCellAtIndex. cbn [snd]. rewrite applyEdits_cells.
    cbn [fold_left applyEdit fst cellsOfDtos].
    unfold getLength in Hi. rewrite splice_in_range by lia.
    rewrite Z.add_0_r. reflexivity.
  - unfold insertCellAtIndex. cbn [snd]. unfold getLength. rewrite applyEdits_cells.
    cbn [fold_left applyEdit fst cellsOfDtos]. rewrite length_splice_insert.
    simpl. lia.
Qed.

(** X13.  [insertCellAtIndex] with an index in the document or right at
    its end puts one new cell there, of the kind, language, outputs and
    metadata given and without a mime type, and keeps the other cells in
    their order; the cell it returns is that new cell, and focus and
    selection are the one-cell range at the index.  With an index beyond
    the end the document still gets one more cell, but no cell is
    returned. *)
Theorem insertCellAtIndex_in_and_out_of_range (viewModel : IActiveNotebookEditor)
    (index : Z) (source language : string) (type : CellKind) (metadata : option string)
    (outputs : list string) (synchronous pushUndoStop : bool) :
  (0 <= index <= getLength viewModel ->
   exists c,
     fst (insertCellAtIndex viewModel index source language type metadata outputs
                            synchronous pushUndoStop) = Some c
     /\ cells (textModel (snd (insertCellAtIndex viewModel index source language type
                                 metadata outputs synchronous pushUndoStop)))
        = firstn (Z.to_nat index) (cells (textModel viewModel)) ++ [c]
          ++ skipn (Z.to_nat index) (cells (textModel viewModel))
     /\ cellKind c = type /\ Model.language c = language /\ mime c = None
     /\ Model.outputs c = outputs /\ Model.metadata c = metadata
     /\ handle c = nextHandle (textModel viewModel)
     /\ currentSelectionState
          (snd (insertCellAtIndex viewModel index source language type metadata outputs
                                  synchronous pushUndoStop))
        = singleCellState index)
  /\ (getLength viewModel < index ->
      fst (insertCellAtIndex viewModel index source language type metadata outputs
                             synchronous pushUndoStop) = None
      /\ getLength (snd (insertCellAtIndex viewModel index source language type metadata
                                           outputs synchronous pushUndoStop))
         = getLength viewModel + 1).
Proof.
  split.
  - intros Hi. eexists. split; [apply insertCellAtIndex_returned; split; [exact Hi|reflexivity]|].
    split; [|repeat split].
    unfold insertCellAtIndex. cbn [snd]. rewrite applyEdits_cells.
    cbn [fold_left applyEdit fst cellsOfDtos].
    unfold getLength in Hi. rewrite splice_in_range by lia.
    rewrite Z.add_0_r. reflexivity.
  - intros Hout. split.
    + destruct (fst (insertCellAtIndex viewModel index source language type metadata
                       outputs synchronous pushUndoStop)) as [c|] eqn:Hc; [|reflexivity].
      apply insertCellAtIndex_returned in Hc. lia.
    + unfold insertCellAtIndex. cbn [snd]. unfold getLength. rewrite applyEdits_cells.
      cbn [fold_left applyEdit fst cellsOfDtos]. rewrite length_splice_insert.
      simpl. lia.
Qed.

Lemma insertCellAtIndex_in_and_out_of_range_witness :
  exists c,
    fst (insertCellAtIndex twoCells 1 "x" "python" Code None [] true true) = Some c
    /\ handle c = 2%nat.
Proof.
  destruct (proj1 (insertCellAtIndex_in_and_out_of_range twoCells 1 "x" "python" Code None []
                     true true) ltac:(vm_compute; split; discriminate))
    as (c & H1 & _ & _ & _ & _ & _ & _ & H2 & _).
  exists c. split; [exact H1|exact H2].
Defined.

Section Insert.
Variable getNextVisibleCellIndex : IActiveNotebookEditor -> Z -> Z.
Variable nearestCodeCellIndex : IActiveNotebookEditor -> Z -> Z.
Variable getRegisteredModes : list string.

Let insert := insertCell getNextVisibleCellIndex nearestCodeCellIndex getRegisteredModes.

Lemma orDefault_head (ls : list string) :
  In (orDefault (head ls) "plaintext") ls \/ orDefault (head ls) "plaintext" = "plaintext"%string.
Proof.
  destruct ls as [|l ls]; [right; reflexivity|]. cbn [head orDefault].
  destruct (String.eqb l EmptyString); [right; reflexivity|left; left; reflexivity].
Qed.

(** The language of the cell [insertCell] returns for a code cell. *)
Lemma insertCell_code_language_in (editor : IActiveNotebookEditor) (index : Z)
    (direction : JoinDirection) (initialText : string) (ui : bool)
    (c : Cell) (e' : IActiveNotebookEditor) :
  insert editor index Code direction initialText ui = Returns (Some (Some c), e') ->
  In (language c) (match supportedLanguages (view editor) with
                   | Some ls => ls
                   | None => getRegisteredModes
                   end)
  \/ language c = "plaintext"%string.
Proof.
  unfold insert, insertCell. intros H.
  destruct (isReadOnly (view editor)); [discriminate|].
  set (supported := match supportedLanguages (view editor) with
                    | Some ls => ls
                    | None => getRegisteredModes
                    end) in *.
  match type of H with
  | context [match ?x with
             | Returns l => if existsb _ _ then _ else _
             | Throws => Throws
             end] => destruct x as [l|]; [|discriminate]
  end.
  destruct (existsb (String.eqb l) supported) eqn:Hex.
  - match type of H with
    | context [insertCellAtIndex ?vm ?i ?s ?lang ?ty ?md ?outs ?sy ?pu] =>
        destruct (insertCellAtIndex vm i s lang ty md outs sy pu) as [c0 e0] eqn:Hins
    end.
    injection H as Hc _. subst c0. apply (f_equal fst) in Hins. cbn [fst] in Hins.
    apply insertCellAtIndex_returned in Hins as [_ ->]. cbn.
    apply existsb_exists in Hex as (l' & Hin & Heq).
    apply String.eqb_eq in Heq. subst l'. left. exact Hin.
  - match type of H with
    | context [insertCellAtIndex ?vm ?i ?s ?lang ?ty ?md ?outs ?sy ?pu] =>
        destruct (insertCellAtIndex vm i s lang ty md outs sy pu) as [c0 e0] eqn:Hins
    end.
    injection H as Hc _. subst c0. apply (f_equal fst) in Hins. cbn [fst] in Hins.
    apply insertCellAtIndex_returned in Hins as [_ ->]. cbn.
    apply orDefault_head.
Qed.

End Insert.

(** X14.  The cell [insertCell] returns for a new code cell has a
    language the kernel supports (the registered modes when the kernel
    names none), or else "plaintext": never the language of a
    neighbouring cell that the kernel does not support.  A new markup
    cell has the language "markdown". *)
Theorem insertCell_language
    (next nearest : IActiveNotebookEditor -> Z -> Z) (modes : list string)
    (editor : IActiveNotebookEditor) (index : Z) (type : CellKind)
    (direction : JoinDirection) (initialText : string) (ui : bool)
    (c : Cell) (e' : IActiveNotebookEditor) :
  insertCell next nearest modes editor index type direction initialText ui
  = Returns (Some (Some c), e') ->
  match type with
  | Code =>
      In (language c) (match supportedLanguages (view editor) with
                       | Some ls => ls
                       | None => modes
                       end)
      \/ language c = "plaintext"%string
  | Markup => language c = "markdown"%string
  end.
Proof.
  intros H. destruct type.
  - unfold insertCell in H.
    destruct (isReadOnly (view editor)); [discriminate|].
    match type of H with
    | context [insertCellAtIndex ?vm ?i ?s ?lang ?ty ?md ?outs ?sy ?pu] =>
        destruct (insertCellAtIndex vm i s lang ty md outs sy pu) as [c0 e0] eqn:Hins
    end.
    injection H as Hc _. subst c0. apply (f_equal fst) in Hins. cbn [fst] in Hins.
    apply insertCellAtIndex_returned in Hins as [_ ->]. reflexivity.
  - exact (insertCell_code_language_in next nearest modes editor index direction
             initialText ui c e' H).
Qed.

Lemma insertCell_language_witness :
  exists c e',
    insertCell ExamplesMore.nextVisible ExamplesMore.noCodeCellNear [] ExamplesMore.rNotebook
               0 Code below "" false = Returns (Some (Some c), e')
    /\ language c = "python"%string.
Proof.
  eexists. eexists. split; [reflexivity|].
  match goal with |- language ?c = _ =>
    destruct (insertCell_language ExamplesMore.nextVisible ExamplesMore.noCodeCellNear []
                ExamplesMore.rNotebook 0 Code below "" false c _ eq_refl) as [[H|[]]|H];
      [symmetry; exact H|discriminate H]
  end.
Defined.

(** X15.  [insertCell] throws in one situation only: the editor is
    writable, the new cell is a code cell, the cell at [index] is a markup
    cell, and [nearestCodeCellIndex] answers with an index above -1 at
    which there is no cell.  In particular inserting a markup cell never
    throws. *)
Theorem insertCell_throws_iff
    (next nearest : IActiveNotebookEditor -> Z -> Z) (modes : list string)
    (editor : IActiveNotebookEditor) (index : Z) (type : CellKind)
    (direction : JoinDirection) (initialText : string) (ui : bool) :
  insertCell next nearest modes editor index type direction initialText ui = Throws
  <-> isReadOnly (view editor) = false
      /\ type = Code
      /\ option_map cellKind (cellAt editor index) = Some Markup
      /\ nearest editor index > -1
      /\ cellAt editor (nearest editor index) = None.
Proof.
  unfold insertCell.
  destruct (isReadOnly (view editor));
    [split; [discriminate|intros (H & _); discriminate]|].
  destruct type.
  - match goal with
    | |- context [insertCellAtIndex ?vm ?i ?s ?lang ?ty ?md ?outs ?sy ?pu] =>
        destruct (insertCellAtIndex vm i s lang ty md outs sy pu) as [c0 e0]
    end.
    split; [discriminate|intros (_ & H & _); discriminate].
  - destruct (option_map cellKind (cellAt editor index)) as [[|]|] eqn:Hkind.
    + destruct (Z.gtb_spec (nearest editor index) (-1)) as [Hgt|Hle].
      * destruct (cellAt editor (nearest editor index)) as [nc|] eqn:Hnc.
        -- split; [|intros (_ & _ & _ & _ & H); discriminate].
           destruct (existsb _ _);
             match goal with
             | |- context [insertCellAtIndex ?vm ?i ?s ?lang ?ty ?md ?outs ?sy ?pu] =>
                 destruct (insertCellAtIndex vm i s lang ty md outs sy pu) as [c0 e0]
             end; discriminate.
        -- split; [intros _; repeat split; lia|reflexivity].
      * split; [|intros (_ & _ & _ & H & _); lia].
        destruct (existsb _ _);
          match goal with
          | |- context [insertCellAtIndex ?vm ?i ?s ?lang ?ty ?md ?outs ?sy ?pu] =>
              destruct (insertCellAtIndex vm i s lang ty md outs sy pu) as [c0 e0]
          end; discriminate.
    + split; [|intros (_ & _ & H & _); discriminate].
      destruct (existsb _ _);
        match goal with
        | |- context [insertCellAtIndex ?vm ?i ?s ?lang ?ty ?md ?outs ?sy ?pu] =>
            destruct (insertCellAtIndex vm i s lang ty md outs sy pu) as [c0 e0]
        end; discriminate.
    + split; [|intros (_ & _ & H & _); discriminate].
      destruct direction; destruct (existsb _ _);
        match goal with
        | |- context [insertCellAtIndex ?vm ?i ?s ?lang ?ty ?md ?outs ?sy ?pu] =>
            destruct (insertCellAtIndex vm i s lang ty md outs sy pu) as [c0 e0]
        end; discriminate.
Qed.

Lemma insertCell_throws_iff_witness :
  insertCell ExamplesMore.nextVisible ExamplesMore.codeCellBehindEnd [] ExamplesMore.rNotebook
             1 Code above "" false = Throws.
Proof.
  apply (proj2 (insertCell_throws_iff ExamplesMore.nextVisible ExamplesMore.codeCellBehindEnd
                  [] ExamplesMore.rNotebook 1 Code above "" false)).
  repeat split.
Defined.

(** The new cell next to the cell that was at [index]. *)
Lemma position_after_insert (editor : IActiveNotebookEditor) (index : Z)
    (direction : JoinDirection) (initialText language : string) (type : CellKind)
    (old : Cell) (r : option (option Cell)) (e' : IActiveNotebookEditor) :
  cellAt editor index = Some old ->
  (let '(c, e) :=
     insertCellAtIndex editor (match direction with above => index | below => index + 1 end)
                       initialText language type None [] true true in
   Returns (Some c, e)) = Returns (r, e') ->
  let at_ := match direction with above => index | below => index + 1 end in
  exists c,
    r = Some (Some c)
    /\ cellAt e' at_ = Some c
    /\ cellKind c = type
    /\ handle c = nextHandle (textModel editor)
    /\ cellAt e' (match direction with above => index + 1 | below => index end) = Some old
    /\ getLength e' = getLength editor + 1
    /\ currentSelectionState e' = singleCellState at_.
Proof.
  intros Hold H at_. fold at_ in H.
  pose proof Hold as Hold'. unfold cellAt, cellAtList in Hold'.
  destruct (Z.ltb_spec index 0) as [|Hpos]; [discriminate|].
  assert (Hlt : (Z.to_nat index < length (cells (textModel editor)))%nat)
    by (apply nth_error_Some; rewrite Hold'; discriminate).
  assert (Hat : 0 <= at_ <= getLength editor)
    by (unfold getLength; subst at_; destruct direction; lia).
  pose proof (insertCellAtIndex_on_cells editor at_ initialText language
                type None [] true true Hat) as (c & Hc & Hcells & Hkind & Hhandle & Hlen & Hsel).
  destruct (insertCellAtIndex editor at_ initialText language type None [] true true)
    as [c0 e0].
  injection H as <- <-. cbn [fst snd] in *. subst c0.
  exists c.
  split; [reflexivity|]. split; [|split; [exact Hkind|split; [exact Hhandle|]]].
  - unfold cellAt, cellAtList. rewrite Hcells.
    destruct (Z.ltb_spec at_ 0); [lia|].
    apply nth_error_middle. unfold getLength in Hat. lia.
  - split; [|split; [exact Hlen|exact Hsel]].
    unfold cellAt, cellAtList. rewrite Hcells. subst at_.
    destruct direction.
    + destruct (Z.ltb_spec (index + 1) 0); [lia|].
      rewrite nth_error_app2 by (rewrite length_firstn; lia).
      rewrite length_firstn.
      replace (Z.to_nat (index + 1)
               - Nat.min (Z.to_nat index) (length (cells (textModel editor))))%nat
        with 1%nat by lia.
      cbn [app nth_error]. rewrite (CopyMoreFacts.skipn_cons_nth _ _ _ Hold'). reflexivity.
    + destruct (Z.ltb_spec index 0); [lia|].
      rewrite nth_error_app1 by (rewrite length_firstn; lia).
      rewrite nth_error_firstn.
      destruct (Nat.ltb_spec (Z.to_nat index) (Z.to_nat (index + 1))); [exact Hold'|lia].
Qed.

(** X16.  Where [insertCell] puts the new cell.  On a writable editor
    with a cell at [index], inserting above puts the new cell at [index]
    and the old cell comes right after it; inserting below (not from the
    UI) puts the new cell at [index + 1], right after the old cell.  The
    new cell has the kind asked for and is the one returned, and focus
    and selection are its one-cell range. *)
Theorem insertCell_position
    (next nearest : IActiveNotebookEditor -> Z -> Z) (modes : list string)
    (editor : IActiveNotebookEditor) (index : Z) (type : CellKind)
    (direction : JoinDirection) (initialText : string)
    (old : Cell) (r : option (option Cell)) (e' : IActiveNotebookEditor) :
  cellAt editor index = Some old ->
  insertCell next nearest modes editor index type direction initialText false
  = Returns (r, e') ->
  isReadOnly (view editor) = false ->
  let at_ := match direction with above => index | below => index + 1 end in
  exists c,
    r = Some (Some c)
    /\ cellAt e' at_ = Some c
    /\ cellKind c = type
    /\ handle c = nextHandle (textModel editor)
    /\ cellAt e' (match direction with above => index + 1 | below => index end) = Some old
    /\ getLength e' = getLength editor + 1
    /\ currentSelectionState e' = singleCellState at_.
Proof.
  intros Hold H Hro. destruct type; unfold insertCell in H; rewrite Hro, Hold in H.
  - exact (position_after_insert editor index direction initialText _ Markup old r e'
             Hold H).
  - match type of H with
    | context [match ?x with
               | Returns l => if existsb _ _ then _ else _
               | Throws => Throws
               end] => destruct x as [l|]; [|discriminate]
    end.
    destruct (existsb _ _).
    + exact (position_after_insert editor index direction initialText _ Code old r e'
               Hold H).
    + exact (position_after_insert editor index direction initialText _ Code old r e'
               Hold H).
Qed.

Lemma insertCell_position_witness :
  exists c,
    cellAt (snd (insertCellAtIndex twoCells 1 "" "markdown" Markup None [] true true)) 1
    = Some c
    /\ cellKind c = Markup.
Proof.
  destruct (insertCell_position ExamplesMore.nextVisible ExamplesMore.noCodeCellNear []
              twoCells 0 Markup below "" (codeCell 0 "a = 1") _ _ eq_refl eq_refl eq_refl)
    as (c & _ & H1 & H2 & _).
  exists c. split; [exact H1|exact H2].
Defined.

End InsertMoreFacts.

(* ===================================================================== *)
(** ** Further properties of changeCellToKind                             *)
(* ===================================================================== *)

Module KindMoreFacts.
Import NotebookCommon Text Model CellOperations CellOperationsMore Examples
       ModelFacts InvariantFacts.

Lemma nth_error_replace {A} (l : list A) (x : A) :
  forall (k i : nat),
    (k < length l)%nat ->
    nth_error (firstn k l ++ x :: skipn (S k) l) i
    = if (i =? k)%nat then Some x else nth_error l i.
Proof.
  induction l as [|y l IH]; intros k i Hk; simpl in Hk; [lia|].
  destruct k as [|k]; destruct i as [|i]; try reflexivity.
  cbn [firstn skipn app nth_error Nat.eqb]. apply IH. lia.
Qed.

Lemma CellKind_eqb_neq (a b : CellKind) : CellKind_eqb a b = false <-> a <> b.
Proof. destruct a, b; simpl; split; congruence. Qed.

(** X17.  [changeCellToKind] from the UI, on a writable editor and a
    cell of the document whose kind is not the one asked for, replaces
    that one cell in place: the cell at its index is a new cell of the
    new kind, with the language given (the kernel's first language or
    "plaintext" when none is given), the mime type given or else the old
    one, and the old outputs and metadata; every other cell stays where
    it was; focus and selections stay; and the new cell is focused, in
    its editor when the old cell was being edited and as container
    otherwise. *)
Theorem changeCellToKind_ui_replaces_in_place (kind : CellKind)
    (context : INotebookActionContext) (language mime : option string)
    (tm : NotebookTextModel) (c : Cell) :
  n_textModel (notebookEditor context) = Some tm ->
  isReadOnly (n_view (notebookEditor context)) = false ->
  ui context = true -> cell context = Some c ->
  cellKind c <> kind ->
  0 <= getCellIndex (mkActive (n_view (notebookEditor context)) tm) c ->
  let e := mkActive (n_view (notebookEditor context)) tm in
  let idx := Z.to_nat (getCellIndex e c) in
  let result := changeCellToKind kind context language mime in
  exists tm' newCell,
    n_textModel result = Some tm'
    /\ cells tm' = firstn idx (cells tm) ++ [newCell] ++ skipn (S idx) (cells tm)
    /\ nth_error (cells tm') idx = Some newCell
    /\ cellKind newCell = kind
    /\ handle newCell = nextHandle tm
    /\ Model.language newCell
       = match language with Some l => l | None => firstAvailableLanguage e end
    /\ Model.mime newCell = orElse mime (Model.mime c)
    /\ outputs newCell = outputs c
    /\ metadata newCell = metadata c
    /\ focus (n_view result) = focus (n_view (notebookEditor context))
    /\ selections (n_view result) = selections (n_view (notebookEditor context))
    /\ uiLog (n_view result)
       = uiLog (n_view (notebookEditor context))
         ++ [FocusNotebookCell (Some (nextHandle tm))
               (match editState c with
                | Editing => "editor"%string
                | Preview => "container"%string
                end)].
Proof.
  intros Htm Hro Hui Hcell Hkind Hidx e idx result. fold e in Hidx.
  destruct (getCellIndex_cell e c Hidx) as [Hlt _]. unfold getLength in Hlt.
  cbn [textModel e] in Hlt.
  assert (Hcells : forall begin endC,
    cells (textModel (applyEdits [fst (changeKindEdit kind e language mime c)] true
                                 begin endC true e))
    = firstn idx (cells tm)
      ++ [cellOfDto (nextHandle tm)
            (mkDto kind (getText c)
                   (match language with Some l => l | None => firstAvailableLanguage e end)
                   (orElse mime (Model.mime c)) (outputs c) (metadata c))]
      ++ skipn (S idx) (cells tm)).
  { intros begin endC. rewrite applyEdits_cells.
    cbn [fold_left applyEdit fst changeKindEdit cellsOfDtos textModel e].
    rewrite splice_in_range by lia.
    replace (Z.to_nat (getCellIndex e c + 1)) with (S idx) by (unfold idx; lia).
    reflexivity. }
  assert (Hnew : forall begin endC,
    cellAt (applyEdits [fst (changeKindEdit kind e language mime c)] true
                       begin endC true e) (getCellIndex e c)
    = Some (cellOfDto (nextHandle tm)
              (mkDto kind (getText c)
                     (match language with Some l => l | None => firstAvailableLanguage e end)
                     (orElse mime (Model.mime c)) (outputs c) (metadata c)))).
  { intros begin endC. unfold cellAt, cellAtList. rewrite Hcells.
    destruct (Z.ltb_spec (getCellIndex e c) 0); [lia|].
    fold idx. cbn [app]. rewrite nth_error_replace by (unfold idx; lia).
    rewrite Nat.eqb_refl. reflexivity. }
  subst result. unfold changeCellToKind. rewrite Htm. cbn [view isReadOnly].
  rewrite Hro, Hui, Hcell.
  rewrite (proj2 (CellKind_eqb_neq (cellKind c) kind) Hkind).
  fold e. rewrite Hnew.
  eexists.
  exists (cellOfDto (nextHandle tm)
            (mkDto kind (getText c)
                   (match language with Some l => l | None => firstAvailableLanguage e end)
                   (orElse mime (Model.mime c)) (outputs c) (metadata c))).
  split; [reflexivity|].
  split; [|split; [|repeat split]].
  - change (textModel (focusNotebookCell ?a ?b ?x)) with (textModel x). apply Hcells.
  - change (textModel (focusNotebookCell ?a ?b ?x)) with (textModel x). rewrite Hcells.
    cbn [app]. rewrite nth_error_replace by (unfold idx; lia).
    rewrite Nat.eqb_refl. reflexivity.
Qed.

Lemma changeCellToKind_ui_replaces_in_place_witness :
  exists tm' newCell,
    n_textModel (changeCellToKind Markup
                   (mkContext (toEditor twoCells) true (Some (codeCell 1 "b = 2")) None)
                   None None) = Some tm'
    /\ nth_error (cells tm') 1 = Some newCell
    /\ cellKind newCell = Markup.
Proof.
  destruct (changeCellToKind_ui_replaces_in_place Markup
              (mkContext (toEditor twoCells) true (Some (codeCell 1 "b = 2")) None)
              None None (textModel twoCells) (codeCell 1 "b = 2")
              eq_refl eq_refl eq_refl eq_refl ltac:(discriminate) ltac:(vm_compute; discriminate))
    as (tm' & newCell & H1 & _ & H2 & H3 & _).
  exists tm', newCell. split; [exact H1|]. split; [exact H2|exact H3].
Defined.

Section Selected.
Variable kind : CellKind.
Variable e : IActiveNotebookEditor.
Variable mime : option string.

(** One round of the loop over the selected cells. *)
Let step : list ICellEditOperation * option string -> Cell
           -> list ICellEditOperation * option string :=
  fun '(rawEdits, language) cell =>
    if CellKind_eqb (cellKind cell) kind then (rawEdits, language)
    else
      let '(edit, l) := changeKindEdit kind e language mime cell in
      (rawEdits ++ [edit], Some l).

(** The edits the loop collects: one Replace of one cell by one cell of
    the new kind for every selected cell of another kind, at that cell's
    index. *)
Lemma collected_edits (sel : list Cell) :
  forall (acc : list ICellEditOperation) (language : option string),
    (forall edit,
        In edit (fst (fold_left step sel (acc, language))) ->
        In edit acc
        \/ exists c d, In c sel /\ edit = CellReplaceEdit (getCellIndex e c) 1 [d]
                       /\ dto_cellKind d = kind)
    /\ (forall c, In c sel -> cellKind c <> kind ->
                  exists d, In (CellReplaceEdit (getCellIndex e c) 1 [d])
                               (fst (fold_left step sel (acc, language))))
    /\ (forall edit, In edit acc -> In edit (fst (fold_left step sel (acc, language)))).
Proof.
  induction sel as [|x sel IH]; intros acc language.
  - cbn [fold_left fst]. split; [|split].
    + intros edit H. left. exact H.
    + intros c [].
    + intros edit H. exact H.
  - cbn [fold_left].
    replace (step (acc, language) x)
      with (if CellKind_eqb (cellKind x) kind then (acc, language)
            else (acc ++ [fst (changeKindEdit kind e language mime x)],
                  Some (snd (changeKindEdit kind e language mime x))))
      by reflexivity.
    destruct (CellKind_eqb (cellKind x) kind) eqn:Hx.
    + destruct (IH acc language) as (H1 & H2 & H3). split; [|split].
      * intros edit H. destruct (H1 edit H) as [Ha|(c & d & Hc & He & Hd)]; [left; exact Ha|].
        right. exists c, d. split; [right; exact Hc|split; assumption].
      * intros c [<-|Hc] Hk.
        -- apply JoinFacts.CellKind_eqb_eq in Hx. contradiction.
        -- apply H2; assumption.
      * exact H3.
    + cbn [changeKindEdit].
      match goal with |- context [fold_left step sel (?a, ?l)] =>
        destruct (IH a l) as (H1 & H2 & H3) end.
      split; [|split].
      * intros edit H. destruct (H1 edit H) as [Ha|(c & d & Hc & He & Hd)].
        -- apply in_app_or in Ha as [Ha|[<-|[]]]; [left; exact Ha|].
           right. eexists x, _. split; [left; reflexivity|split; reflexivity].
        -- right. exists c, d. split; [right; exact Hc|split; assumption].
      * intros c [<-|Hc] Hk.
        -- eexists. apply H3. apply in_or_app. right. left. reflexivity.
        -- apply H2; assumption.
      * intros edit H. apply H3. apply in_or_app. left. exact H.
Qed.

(** Replacing single cells by cells of the new kind, one after the
    other: a place once of the new kind stays so, and a place no edit
    names keeps its cell. *)
Lemma apply_kind_edits (edits : list ICellEditOperation) :
  forall (cs : list Cell) (h : nat),
    List.Forall (fun edit => exists idx d,
                     edit = CellReplaceEdit idx 1 [d] /\ dto_cellKind d = kind
                     /\ 0 <= idx < Z.of_nat (length cs)) edits ->
    length (fst (fold_left applyEdit edits (cs, h))) = length cs
    /\ (forall i,
           nth_error (fst (fold_left applyEdit edits (cs, h))) i = nth_error cs i
           \/ exists c', nth_error (fst (fold_left applyEdit edits (cs, h))) i = Some c'
                         /\ cellKind c' = kind)
    /\ (forall idx d,
           In (CellReplaceEdit idx 1 [d]) edits ->
           exists c', nth_error (fst (fold_left applyEdit edits (cs, h))) (Z.to_nat idx)
                      = Some c'
                      /\ cellKind c' = kind)
    /\ (forall i,
           (forall idx d, In (CellReplaceEdit idx 1 [d]) edits -> Z.to_nat idx <> i) ->
           nth_error (fst (fold_left applyEdit edits (cs, h))) i = nth_error cs i).
Proof.
  induction edits as [|edit rest IH]; intros cs h Hall.
  - cbn [fold_left fst]. split; [reflexivity|]. split; [left; reflexivity|].
    split; [intros idx d []|reflexivity].
  - apply List.Forall_cons_iff in Hall as [(idx & d & -> & Hd & Hidx) Hrest].
    cbn [fold_left applyEdit cellsOfDtos].
    rewrite splice_in_range by lia.
    replace (Z.to_nat (idx + 1)) with (S (Z.to_nat idx)) by lia. cbn [app].
    set (cs1 := firstn (Z.to_nat idx) cs ++ cellOfDto h d :: skipn (S (Z.to_nat idx)) cs).
    assert (Hnth : forall i, nth_error cs1 i
                             = if (i =? Z.to_nat idx)%nat then Some (cellOfDto h d)
                               else nth_error cs i)
      by (intros i; apply nth_error_replace; lia).
    assert (Hlen : length cs1 = length cs).
    { unfold cs1. rewrite length_app, length_firstn. cbn [length]. rewrite length_skipn. lia. }
    destruct (IH cs1 (h + length [d])%nat) as (H1 & H2 & H3 & H4).
    { rewrite Hlen. exact Hrest. }
    split; [rewrite H1; exact Hlen|]. split; [|split].
    + intros i. destruct (H2 i) as [Hi|Hi]; [|right; exact Hi].
      rewrite Hnth in Hi. destruct (Nat.eqb_spec i (Z.to_nat idx)).
      * right. exists (cellOfDto h d). split; [exact Hi|exact Hd].
      * left. exact Hi.
    + intros idx' d' [Heq|Hin]; [|apply (H3 idx' d' Hin)].
      injection Heq as <- <-.
      destruct (H2 (Z.to_nat idx)) as [Hi|Hi]; [|exact Hi].
      rewrite Hnth, Nat.eqb_refl in Hi.
      exists (cellOfDto h d). split; [exact Hi|exact Hd].
    + intros i Hi. rewrite H4.
      * rewrite Hnth. destruct (Nat.eqb_spec i (Z.to_nat idx)) as [->|]; [|reflexivity].
        exfalso. apply (Hi idx d); [left; reflexivity|reflexivity].
      * intros idx' d' Hin. apply (Hi idx' d'). right. exact Hin.
Qed.

End Selected.

(** X18.  [changeCellToKind] on the selected cells (not from the UI), on
    a writable editor whose document holds each selected cell at the
    index it is found under: afterwards the place of every selected cell
    holds a cell of the kind asked for, every place that belongs to no
    selected cell holds the cell it held, the number of cells is the
    same, and focus and selections are as before. *)
Theorem changeCellToKind_selected_cells (kind : CellKind)
    (context : INotebookActionContext) (language mime : option string)
    (tm : NotebookTextModel) (sel : list Cell) :
  n_textModel (notebookEditor context) = Some tm ->
  isReadOnly (n_view (notebookEditor context)) = false ->
  ui context = false \/ cell context = None ->
  selectedCells context = Some sel ->
  (forall c, In c sel ->
             cellAt (mkActive (n_view (notebookEditor context)) tm)
                    (getCellIndex (mkActive (n_view (notebookEditor context)) tm) c)
             = Some c) ->
  let e := mkActive (n_view (notebookEditor context)) tm in
  let result := changeCellToKind kind context language mime in
  exists tm',
    n_textModel result = Some tm'
    /\ length (cells tm') = length (cells tm)
    /\ (forall c, In c sel ->
                  exists c', nth_error (cells tm') (Z.to_nat (getCellIndex e c)) = Some c'
                             /\ cellKind c' = kind)
    /\ (forall i, (forall c, In c sel -> Z.to_nat (getCellIndex e c) <> i) ->
                  nth_error (cells tm') i = nth_error (cells tm) i)
    /\ focus (n_view result) = focus (n_view (notebookEditor context))
    /\ selections (n_view result) = selections (n_view (notebookEditor context)).
Proof.
  intros Htm Hro Hbranch Hsel Hheld e result.
  assert (Hres : exists rawEdits,
    result = toEditor (applyEdits rawEdits true (currentSelectionState e)
                                  (fun staged => currentSelectionState staged) true e)
    /\ (forall edit, In edit rawEdits ->
          exists c d, In c sel /\ edit = CellReplaceEdit (getCellIndex e c) 1 [d]
                      /\ dto_cellKind d = kind)
    /\ (forall c, In c sel -> cellKind c <> kind ->
          exists d, In (CellReplaceEdit (getCellIndex e c) 1 [d]) rawEdits)).
  { destruct (collected_edits kind e mime sel [] language) as (H1 & H2 & _).
    subst result. unfold changeCellToKind. rewrite Htm. cbn [view isReadOnly].
    rewrite Hro, Hsel. fold e.
    destruct (fold_left _ sel ([], language)) as [rawEdits l] eqn:Hfold.
    cbn [fst] in H1, H2.
    exists rawEdits. split; [|split].
    - destruct Hbranch as [-> | ->]; [reflexivity|]. destruct (ui context); reflexivity.
    - intros edit Hin. destruct (H1 edit Hin) as [[]|H]. exact H.
    - exact H2. }
  destruct Hres as (rawEdits & -> & Hshape & Hdiffer).
  destruct (apply_kind_edits kind rawEdits (cells tm) (nextHandle tm)) as (H1 & H2 & H3 & H4).
  { apply List.Forall_forall. intros edit Hin.
    destruct (Hshape edit Hin) as (c & d & Hc & -> & Hd).
    exists (getCellIndex e c), d. split; [reflexivity|]. split; [exact Hd|].
    exact (proj1 (cellAt_Some e _ c (Hheld c Hc))). }
  eexists. split; [reflexivity|].
  cbn [toEditor n_textModel n_view]. rewrite applyEdits_cells. cbn [textModel e].
  split; [exact H1|]. split; [|split; [|split]].
  - intros c Hc. destruct (CellKind_eqb (cellKind c) kind) eqn:Hk.
    + apply JoinFacts.CellKind_eqb_eq in Hk.
      destruct (H2 (Z.to_nat (getCellIndex e c))) as [Hi|Hi]; [|exact Hi].
      exists c. split; [|exact Hk]. rewrite Hi.
      exact (proj2 (cellAt_Some e _ c (Hheld c Hc))).
    + apply CellKind_eqb_neq in Hk. destruct (Hdiffer c Hc Hk) as (d & Hin).
      apply (H3 _ d Hin).
  - intros i Hi. apply H4. intros idx d Hin.
    destruct (Hshape _ Hin) as (c & d' & Hc & Heq & _). injection Heq as -> _.
    apply Hi, Hc.
  - unfold applyEdits. destruct (fold_left applyEdit _ _). reflexivity.
  - unfold applyEdits. destruct (fold_left applyEdit _ _). reflexivity.
Qed.

Lemma changeCellToKind_selected_cells_witness :
  exists tm',
    n_textModel (changeCellToKind Markup
                   (mkContext (toEditor twoCells) false None
                              (Some [codeCell 1 "b = 2"; codeCell 0 "a = 1"]))
                   None None) = Some tm'
    /\ length (cells tm') = 2%nat.
Proof.
  destruct (changeCellToKind_selected_cells Markup
              (mkContext (toEditor twoCells) false None
                         (Some [codeCell 1 "b = 2"; codeCell 0 "a = 1"]))
              None None (textModel twoCells) [codeCell 1 "b = 2"; codeCell 0 "a = 1"]
              eq_refl eq_refl (or_introl eq_refl) eq_refl)
    as (tm' & H1 & H2 & _).
  - intros c [<-|[<-|[]]]; reflexivity.
  - exists tm'. split; [exact H1|exact H2].
Defined.

End KindMoreFacts.

(* ===================================================================== *)
(** ** Further properties of the debug adapter registry                   *)
(* ===================================================================== *)

Module DebugMoreFacts.
Import Debug DebugMore Examples ModelFacts.

Section Factories.
Context {IDebugAdapter : Type}.

Lemma register_lookup_out debugTypes (f : IDebugAdapterFactory IDebugAdapter)
    (fs : gmap string (IDebugAdapterFactory IDebugAdapter)) t :
  ~ In t debugTypes ->
  fold_left (fun fs debugType => <[debugType := f]> fs) debugTypes fs !! t = fs !! t.
Proof.
  revert fs. induction debugTypes as [|d ds IH]; intros fs Hout; [reflexivity|].
  cbn [fold_left]. rewrite IH by (intros H; apply Hout; right; exact H).
  apply lookup_insert_ne. intros ->. apply Hout. left. reflexivity.
Qed.

Lemma dispose_lookup_out debugTypes
    (fs : gmap string (IDebugAdapterFactory IDebugAdapter)) t :
  ~ In t debugTypes ->
  fold_left (fun fs debugType => delete debugType fs) debugTypes fs !! t = fs !! t.
Proof.
  revert fs. induction debugTypes as [|d ds IH]; intros fs Hout; [reflexivity|].
  cbn [fold_left]. rewrite IH by (intros H; apply Hout; right; exact H).
  apply lookup_delete_ne. intros ->. apply Hout. left. reflexivity.
Qed.

Lemma dispose_lookup_listed debugTypes
    (fs : gmap string (IDebugAdapterFactory IDebugAdapter)) t :
  In t debugTypes ->
  fold_left (fun fs debugType => delete debugType fs) debugTypes fs !! t = None.
Proof.
  revert fs. induction debugTypes as [|d ds IH]; intros fs Hin; [destruct Hin|].
  cbn [fold_left]. destruct (in_dec string_dec t ds) as [Hds|Hds].
  - apply IH, Hds.
  - rewrite dispose_lookup_out by exact Hds.
    destruct Hin as [->|Hin]; [apply lookup_delete_eq|contradiction].
Qed.

(** X19.  A registration of debug adapter factories touches the listed
    types only: for a session of any other type [createDebugAdapter]
    answers as before, after the registration and after its dispose.
    And when none of the listed types had a factory before, disposing the
    registration gives back the registry as it was. *)
Theorem registerDebugAdapterFactory_frame_and_round_trip
    (m : AdapterManager IDebugAdapter) (debugTypes : list string)
    (f : IDebugAdapterFactory IDebugAdapter) :
  (forall session,
      ~ In (configuration_type session) debugTypes ->
      createDebugAdapter (registerDebugAdapterFactory debugTypes f m) session
      = createDebugAdapter m session
      /\ createDebugAdapter (disposeDebugAdapterFactory debugTypes m) session
         = createDebugAdapter m session)
  /\ ((forall t, In t debugTypes -> debugAdapterFactories m !! t = None) ->
      disposeDebugAdapterFactory debugTypes (registerDebugAdapterFactory debugTypes f m) = m).
Proof.
  split.
  - intros session Hout. unfold createDebugAdapter, registerDebugAdapterFactory,
      disposeDebugAdapterFactory. cbn [debugAdapterFactories].
    rewrite register_lookup_out by exact Hout.
    rewrite dispose_lookup_out by exact Hout. split; reflexivity.
  - intros Hfree. destruct m as [fs]. unfold disposeDebugAdapterFactory,
      registerDebugAdapterFactory. cbn [debugAdapterFactories] in *. f_equal.
    apply map_eq. intros t. destruct (in_dec string_dec t debugTypes) as [Hin|Hout].
    + rewrite dispose_lookup_listed by exact Hin. symmetry. apply Hfree, Hin.
    + rewrite dispose_lookup_out by exact Hout. apply register_lookup_out, Hout.
Qed.

End Factories.

Lemma registerDebugAdapterFactory_frame_and_round_trip_witness :
  createDebugAdapter (registerDebugAdapterFactory ["python"%string] nodeFactory
                        (registerDebugAdapterFactory ["node"%string] nodeFactory emptyManager))
                     nodeSession
  = Some "adapter:s1"%string.
Proof.
  rewrite (proj1 (proj1 (registerDebugAdapterFactory_frame_and_round_trip
                           (registerDebugAdapterFactory ["node"%string] nodeFactory
                                                        emptyManager)
                           ["python"%string] nodeFactory) nodeSession
                        ltac:(intros [H|[]]; discriminate H))).
  reflexivity.
Defined.

Section DescriptorFacts.
Context {IAdapterDescriptor : Type}.

Lemma indexOf_bounds (l : list (IDebugAdapterDescriptorFactory IAdapterDescriptor)) p i :
  indexOf l p i = -1 \/ i <= indexOf l p i < i + Z.of_nat (length l).
Proof.
  revert i. induction l as [|x l IH]; intros i; cbn [indexOf length]; [left; reflexivity|].
  destruct (provider_ref x =? provider_ref p)%nat; [right; lia|].
  destruct (IH (i + 1)) as [H|H]; [left; exact H|right; lia].
Qed.

Lemma indexOf_shift (l : list (IDebugAdapterDescriptorFactory IAdapterDescriptor)) p i j :
  0 <= i -> 0 <= j ->
  indexOf l p j = if indexOf l p i =? -1 then -1 else indexOf l p i - i + j.
Proof.
  revert i j. induction l as [|x l IH]; intros i j Hi Hj; cbn [indexOf]; [reflexivity|].
  destruct (provider_ref x =? provider_ref p)%nat.
  - destruct (Z.eqb_spec i (-1)); lia.
  - rewrite (IH (i + 1) (j + 1)) by lia.
    destruct (Z.eqb_spec (indexOf l p (i + 1)) (-1)); lia.
Qed.

(** [unregisterDebugAdapterDescriptorFactory] takes out the first entry
    that is the provider. *)
Lemma unregister_cons (x p : IDebugAdapterDescriptorFactory IAdapterDescriptor) l :
  unregisterDebugAdapterDescriptorFactory p (x :: l)
  = if (provider_ref x =? provider_ref p)%nat then l
    else x :: unregisterDebugAdapterDescriptorFactory p l.
Proof.
  unfold unregisterDebugAdapterDescriptorFactory. cbn [indexOf].
  destruct (provider_ref x =? provider_ref p)%nat.
  - cbn. rewrite splice_in_range by (cbn [length]; lia). reflexivity.
  - rewrite (indexOf_shift l p 0 (0 + 1)) by lia.
    destruct (indexOf_bounds l p 0) as [Hnone|Hfound].
    + rewrite Hnone. reflexivity.
    + destruct (Z.eqb_spec (indexOf l p 0) (-1)) as [|_]; [lia|].
      destruct (Z.geb_spec (indexOf l p 0 - 0 + (0 + 1)) 0); [|lia].
      destruct (Z.geb_spec (indexOf l p 0) 0); [|lia].
      rewrite !splice_in_range by (cbn [length]; lia).
      replace (Z.to_nat (indexOf l p 0 - 0 + (0 + 1))) with (S (Z.to_nat (indexOf l p 0)))
        by lia.
      replace (Z.to_nat (indexOf l p 0 - 0 + (0 + 1) + 1))
        with (S (Z.to_nat (indexOf l p 0 + 1))) by lia.
      reflexivity.
Qed.

Lemma unregister_registered_perm
    (p : IDebugAdapterDescriptorFactory IAdapterDescriptor) fs :
  (forall q, In q fs -> provider_ref q = provider_ref p -> q = p) ->
  Permutation
    (unregisterDebugAdapterDescriptorFactory p (registerDebugAdapterDescriptorFactory p fs))
    fs.
Proof.
  unfold registerDebugAdapterDescriptorFactory.
  induction fs as [|x fs IH]; intros Hrefs.
  - cbn [app]. rewrite unregister_cons, Nat.eqb_refl. reflexivity.
  - cbn [app]. rewrite unregister_cons.
    destruct (Nat.eqb_spec (provider_ref x) (provider_ref p)) as [Heq|Hne].
    + rewrite (Hrefs x (or_introl eq_refl) Heq).
      symmetry. apply Permutation_cons_append.
    + apply Permutation_cons; [reflexivity|].
      apply IH. intros q Hq. apply Hrefs. right. exact Hq.
Qed.

Lemma unregister_registered_fresh
    (p : IDebugAdapterDescriptorFactory IAdapterDescriptor) fs :
  (forall q, In q fs -> provider_ref q <> provider_ref p) ->
  unregisterDebugAdapterDescriptorFactory p (registerDebugAdapterDescriptorFactory p fs) = fs.
Proof.
  unfold registerDebugAdapterDescriptorFactory.
  induction fs as [|x fs IH]; intros Hrefs.
  - cbn [app]. rewrite unregister_cons, Nat.eqb_refl. reflexivity.
  - cbn [app]. rewrite unregister_cons.
    destruct (Nat.eqb_spec (provider_ref x) (provider_ref p)) as [Heq|Hne].
    + destruct (Hrefs x (or_introl eq_refl) Heq).
    + f_equal. apply IH. intros q Hq. apply Hrefs. right. exact Hq.
Qed.

Lemma filter_perm {A} (f : A -> bool) (l l' : list A) :
  Permutation l l' -> Permutation (List.filter f l) (List.filter f l').
Proof.
  induction 1 as [|x l l' H IH|x y l|l l' l'' H1 IH1 H2 IH2]; cbn [List.filter].
  - reflexivity.
  - destruct (f x); [apply Permutation_cons; [reflexivity|exact IH]|exact IH].
  - destruct (f x), (f y); try reflexivity. apply perm_swap.
  - etransitivity; eassumption.
Qed.

(** The answer does not depend on the order of the registrations. *)
Lemma getDebugAdapterDescriptor_perm
    (fs fs' : list (IDebugAdapterDescriptorFactory IAdapterDescriptor)) session :
  Permutation fs fs' ->
  getDebugAdapterDescriptor fs session = getDebugAdapterDescriptor fs' session.
Proof.
  intros H. apply (filter_perm (providesFor session)) in H.
  unfold getDebugAdapterDescriptor.
  destruct (List.filter (providesFor session) fs) as [|a [|b r]] eqn:E.
  - apply Permutation_nil in H. rewrite H. reflexivity.
  - apply Permutation_length_1_inv in H. rewrite H. reflexivity.
  - apply Permutation_length in H.
    destruct (List.filter (providesFor session) fs') as [|a' [|b' r']];
      [discriminate H|discriminate H|reflexivity].
Qed.

(** X20.  Registering a debug adapter descriptor provider and disposing
    the registration again leaves every answer of
    [getDebugAdapterDescriptor] as it was (the registered providers being
    told apart by their identity); when the provider was not registered
    before, the list of providers is the same again.  The dispose takes
    out the first registration of the provider, so the list may come back
    in another order: the answers do not depend on the order. *)
Theorem descriptor_registration_round_trip
    (p : IDebugAdapterDescriptorFactory IAdapterDescriptor)
    (fs : list (IDebugAdapterDescriptorFactory IAdapterDescriptor)) :
  ((forall q, In q fs -> provider_ref q = provider_ref p -> q = p) ->
   forall session,
     getDebugAdapterDescriptor
       (unregisterDebugAdapterDescriptorFactory p
          (registerDebugAdapterDescriptorFactory p fs)) session
     = getDebugAdapterDescriptor fs session)
  /\ ((forall q, In q fs -> provider_ref q <> provider_ref p) ->
      unregisterDebugAdapterDescriptorFactory p
        (registerDebugAdapterDescriptorFactory p fs) = fs)
  /\ (forall fs' session,
         Permutation fs fs' ->
         getDebugAdapterDescriptor fs session = getDebugAdapterDescriptor fs' session).
Proof.
  split; [|split].
  - intros Hrefs session. apply getDebugAdapterDescriptor_perm.
    apply unregister_registered_perm, Hrefs.
  - apply unregister_registered_fresh.
  - intros fs' session. apply getDebugAdapterDescriptor_perm.
Qed.

(** X21.  [getDebugAdapterDescriptor] answers only when exactly one
    registered provider is of the session's type and can create
    descriptors, and then with that provider's descriptor; in particular,
    once it answers for a session, registering one more such provider
    for the type makes it answer [undefined]. *)
Theorem getDebugAdapterDescriptor_unique_provider
    (fs : list (IDebugAdapterDescriptorFactory IAdapterDescriptor))
    (session : IDebugSession) (d : IAdapterDescriptor) :
  getDebugAdapterDescriptor fs session = Some d ->
  (exists p create,
      List.filter (providesFor session) fs = [p]
      /\ In p fs
      /\ provider_type p = configuration_type session
      /\ createDebugAdapterDescriptor p = Some create
      /\ d = create session)
  /\ (forall p', providesFor session p' = true ->
                 getDebugAdapterDescriptor
                   (registerDebugAdapterDescriptorFactory p' fs) session = None).
Proof.
  unfold getDebugAdapterDescriptor. intros H.
  destruct (List.filter (providesFor session) fs) as [|p [|q r]] eqn:E; try discriminate H.
  assert (Hp : In p fs /\ providesFor session p = true).
  { apply filter_In. rewrite E. left. reflexivity. }
  destruct Hp as [Hin Hprov].
  destruct (createDebugAdapterDescriptor p) as [create|] eqn:Hc; [|discriminate H].
  injection H as <-. split.
  - exists p, create. split; [reflexivity|]. split; [exact Hin|].
    split; [|split; [exact Hc|reflexivity]].
    unfold providesFor in Hprov. apply andb_true_iff in Hprov as [Ht _].
    apply String.eqb_eq, Ht.
  - intros p' Hp'. unfold registerDebugAdapterDescriptorFactory.
    rewrite List.filter_app, E. cbn [List.filter]. rewrite Hp'. reflexivity.
Qed.

End DescriptorFacts.

Lemma descriptor_registration_round_trip_witness :
  getDebugAdapterDescriptor
    (unregisterDebugAdapterDescriptorFactory nodeProvider
       (registerDebugAdapterDescriptorFactory nodeProvider [nodeProvider; pythonProvider]))
    nodeSession
  = Some "exec:s1"%string.
Proof.
  rewrite (proj1 (descriptor_registration_round_trip nodeProvider
                    [nodeProvider; pythonProvider])).
  - reflexivity.
  - intros q [<-|[<-|[]]] Href; [reflexivity|discriminate Href].
Defined.

Lemma getDebugAdapterDescriptor_unique_provider_witness :
  getDebugAdapterDescriptor
    (registerDebugAdapterDescriptorFactory otherNodeProvider [nodeProvider; pythonProvider])
    nodeSession
  = None.
Proof.
  apply (proj2 (getDebugAdapterDescriptor_unique_provider [nodeProvider; pythonProvider]
                  nodeSession "exec:s1"%string eq_refl)).
  reflexivity.
Defined.

Lemma removed_languages (languages : list string) (s : gset string) (l : string) :
  l ∈ fold_left (fun s language => s ∖ {[language]}) languages s
  <-> l ∈ s /\ ~ In l languages.
Proof.
  revert s. induction languages as [|x ls IH]; intros s; cbn [fold_left].
  - split; [intros H; split; [exact H|intros []]|intros [H _]; exact H].
  - rewrite IH. rewrite elem_of_difference, elem_of_singleton. cbn [In].
    split; [intros [[H1 H2] H3]|intros [H1 H2]].
    + split; [exact H1|]. intros [->|H]; [apply H2; reflexivity|apply H3, H].
    + split; [split; [exact H1|]|]; intros H; apply H2; [left; symmetry|right]; exact H.
Qed.

Lemma added_languages (languages : list string) (s : gset string) (l : string) :
  l ∈ fold_left (fun s language => {[language]} ∪ s) languages s
  <-> l ∈ s \/ In l languages.
Proof.
  revert s. induction languages as [|x ls IH]; intros s; cbn [fold_left].
  - split; [intros H; left; exact H|intros [H|[]]; exact H].
  - rewrite IH. rewrite elem_of_union, elem_of_singleton. cbn [In].
    split; [intros [[->|H]|H]|intros [H|[->|H]]]; auto.
Qed.

(** The languages in the set after the handler of the breakpoints
    extension point has run. *)
Lemma breakpointsExtPointHandler_elem (removed added : list (list string))
    (s : gset string) (l : string) :
  l ∈ breakpointsExtPointHandler removed added s
  <-> In l (concat added) \/ (l ∈ s /\ ~ In l (concat removed)).
Proof.
  unfold breakpointsExtPointHandler.
  assert (Hrem : forall rs (s0 : gset string),
    l ∈ fold_left (fun s breakpoints =>
                     fold_left (fun s language => s ∖ {[language]}) breakpoints s) rs s0
    <-> l ∈ s0 /\ ~ In l (concat rs)).
  { induction rs as [|r rs IH]; intros s0; cbn [fold_left concat].
    - split; [intros H; split; [exact H|intros []]|intros [H _]; exact H].
    - rewrite IH, removed_languages, in_app_iff. tauto. }
  assert (Hadd : forall ads (s0 : gset string),
    l ∈ fold_left (fun s breakpoints =>
                     fold_left (fun s language => {[language]} ∪ s) breakpoints s) ads s0
    <-> l ∈ s0 \/ In l (concat ads)).
  { induction ads as [|a ads IH]; intros s0; cbn [fold_left concat].
    - split; [intros H; left; exact H|intros [H|[]]; exact H].
    - rewrite IH, added_languages, in_app_iff. tauto. }
  rewrite Hadd, Hrem. tauto.
Qed.

(** X22.  [canSetBreakpointsIn] never allows breakpoints in a model
    without language id or with the language "jsonc" or "log", whatever
    the setting and the contributions.  For every other language it
    allows them when [debug.allowBreakpointsEverywhere] is set, and
    otherwise exactly when the language is in [breakpointModeIdsSet];
    after the handler of the breakpoints extension point has run these
    are the languages just added and those that were there and were not
    removed: a language both removed and added is in. *)
Theorem canSetBreakpointsIn_after_handler (languageId : string)
    (allowBreakpointsEverywhere : bool) (removed added : list (list string))
    (breakpointModeIdsSet : gset string) :
  (languageId = ""%string \/ languageId = "jsonc"%string \/ languageId = "log"%string ->
   canSetBreakpointsIn languageId allowBreakpointsEverywhere
     (breakpointsExtPointHandler removed added breakpointModeIdsSet) = false)
  /\ (languageId <> ""%string -> languageId <> "jsonc"%string ->
      languageId <> "log"%string ->
      (canSetBreakpointsIn languageId allowBreakpointsEverywhere
         (breakpointsExtPointHandler removed added breakpointModeIdsSet) = true
       <-> allowBreakpointsEverywhere = true
           \/ In languageId (concat added)
           \/ (languageId ∈ breakpointModeIdsSet /\ ~ In languageId (concat removed)))).
Proof.
  unfold canSetBreakpointsIn. split.
  - intros [H|[H|H]]; rewrite H; reflexivity.
  - intros H1 H2 H3.
    apply String.eqb_neq in H1, H2, H3. rewrite H1, H2, H3. cbn [orb].
    destruct allowBreakpointsEverywhere.
    + split; [intros _; left; reflexivity|reflexivity].
    + rewrite bool_decide_eq_true, breakpointsExtPointHandler_elem.
      split; [intros H; right; exact H|intros [H|H]; [discriminate H|exact H]].
Qed.

Lemma canSetBreakpointsIn_after_handler_witness :
  canSetBreakpointsIn "python" false
    (breakpointsExtPointHandler [["python"%string]] [["python"%string; "sql"%string]]
                                {["python"%string]})
  = true.
Proof.
  apply (proj2 (canSetBreakpointsIn_after_handler "python" false [["python"%string]]
                  [["python"%string; "sql"%string]] {["python"%string]})
               ltac:(discriminate) ltac:(discriminate) ltac:(discriminate)).
  right. left. left. reflexivity.
Defined.

End DebugMoreFacts.

(* ===================================================================== *)
(** ** Properties of the line data addon                                  *)
(* ===================================================================== *)

Module TerminalFacts.
Import Terminal CellOperationsMore.

Lemma append_assoc' (a b c : string) :
  String.append (String.append a b) c = String.append a (String.append b c).
Proof. apply SplitMoreFacts.append_assoc. Qed.

Lemma concatStrings_snoc (l : list string) (x : string) :
  concatStrings (l ++ [x]) = String.append (concatStrings l) x.
Proof.
  induction l as [|y l IH].
  - cbn [app]. rewrite SplitMoreFacts.concatStrings_cons. cbn [concatStrings fold_right].
    rewrite SplitMoreFacts.append_nil_r. reflexivity.
  - cbn [app]. rewrite !SplitMoreFacts.concatStrings_cons, IH, append_assoc'. reflexivity.
Qed.

Lemma removelast_snoc2 {A} (l : list A) (x y : A) :
  removelast (x :: l ++ [y]) = x :: l.
Proof.
  change (x :: l ++ [y]) with ((x :: l) ++ [y]). apply removelast_last.
Qed.

Lemma last_cons_default {A} (l : list A) :
  forall (x d : A), List.last (x :: l) d = List.last l x.
Proof.
  induction l as [|y l IH]; intros x d; [reflexivity|].
  change (List.last (x :: y :: l) d) with (List.last (y :: l) d).
  rewrite (IH y d). symmetry. apply IH.
Qed.

Lemma nth_error_last_of_run {A} (before : list A) (w after : list A) :
  forall first,
    nth_error (before ++ first :: w ++ after) (length before + length w)
    = Some (List.last w first).
Proof.
  intros first. rewrite nth_error_app2 by lia.
  replace (length before + length w - length before)%nat with (length w) by lia.
  revert first. induction w as [|x w IH]; intros first; [reflexivity|].
  cbn [length app nth_error]. rewrite IH. rewrite last_cons_default. reflexivity.
Qed.

Section LogicalLine.
Variable buffer : IBuffer.
Variable before after : list IBufferLine.
Variable first : IBufferLine.
Hypothesis Hstart : isWrapped first = false \/ before = [].

(** The loop, started on the last line of a run of wrapped lines. *)
Lemma collectWrapped_run (w : list IBufferLine) :
  lines buffer = before ++ first :: w ++ after ->
  List.Forall (fun l => isWrapped l = true) w ->
  forall lineData,
    collectWrapped buffer (length before + length w) (List.last w first) lineData
    = String.append
        (concatStrings (map (fun l => translateToString l false) (removelast (first :: w))))
        lineData.
Proof.
  revert after. induction w as [|l w IH] using rev_ind; intros after' Hlines Hall lineData.
  - cbn [List.last removelast map concatStrings fold_right length].
    rewrite Nat.add_0_r. destruct (length before) as [|k] eqn:Hk.
    + reflexivity.
    + cbn [collectWrapped]. destruct Hstart as [->|Hnil]; [reflexivity|].
      rewrite Hnil in Hk. discriminate Hk.
  - apply List.Forall_app in Hall as [Hall Hl].
    apply List.Forall_cons_iff in Hl as [Hl _].
    rewrite last_last, length_app. cbn [length].
    replace (length before + (length w + 1))%nat with (S (length before + length w)) by lia.
    cbn [collectWrapped]. rewrite Hl.
    unfold getLine. destruct (Z.ltb_spec (Z.of_nat (length before + length w)) 0); [lia|].
    rewrite Nat2Z.id, Hlines, <- app_assoc.
    rewrite nth_error_last_of_run.
    rewrite (IH ([l] ++ after')) by (try exact Hall; rewrite Hlines, <- app_assoc; reflexivity).
    rewrite <- append_assoc'. f_equal.
    rewrite removelast_snoc2.
    destruct w as [|x w'] using rev_ind.
    + cbn [removelast List.last map]. rewrite SplitMoreFacts.concatStrings_cons.
      cbn [concatStrings fold_right]. rewrite SplitMoreFacts.append_nil_r. reflexivity.
    + rewrite removelast_snoc2, last_last.
      change (first :: w' ++ [x]) with ((first :: w') ++ [x]).
      rewrite map_app. cbn [map]. apply eq_sym, concatStrings_snoc.
Qed.

End LogicalLine.

(** X23.  [_sendLineData] sends a whole logical line.  When the line at
    [lineIndex] ends a run of wrapped lines that starts with a line that
    is not wrapped (or with the first line of the buffer), the data fired
    is the text of the lines of the run before it, with their white space
    at the end, followed by the text of the line itself without its
    white space at the end.  For an index outside the buffer nothing is
    fired. *)
Theorem _sendLineData_logical_line (buffer : IBuffer)
    (before after wrapped : list IBufferLine) (first : IBufferLine) :
  lines buffer = before ++ first :: wrapped ++ after ->
  List.Forall (fun l => isWrapped l = true) wrapped ->
  isWrapped first = false \/ before = [] ->
  _sendLineData buffer (Z.of_nat (length before + length wrapped))
  = Some (String.append
            (concatStrings (map (fun l => translateToString l false)
                                (removelast (first :: wrapped))))
            (translateToString (List.last wrapped first) true))
  /\ (forall lineIndex,
         lineIndex < 0 \/ Z.of_nat (length (lines buffer)) <= lineIndex ->
         _sendLineData buffer lineIndex = None).
Proof.
  intros Hlines Hall Hstart. split.
  - unfold _sendLineData, getLine.
    destruct (Z.ltb_spec (Z.of_nat (length before + length wrapped)) 0); [lia|].
    rewrite Nat2Z.id, Hlines, nth_error_last_of_run. f_equal.
    apply (collectWrapped_run buffer before after first Hstart wrapped Hlines Hall).
  - intros lineIndex Hout. unfold _sendLineData, getLine.
    destruct (Z.ltb_spec lineIndex 0); [reflexivity|].
    destruct (nth_error (lines buffer) (Z.to_nat lineIndex)) eqn:E; [|reflexivity].
    assert (Z.to_nat lineIndex < length (lines buffer))%nat
      by (apply nth_error_Some; rewrite E; discriminate).
    lia.
Qed.

Lemma _sendLineData_logical_line_witness :
  _sendLineData
    (mkTerminalBuffer [textLine false "$ ls" "    "; textLine false "a very long li" "";
                       textLine true "ne" "      "; textLine false "" "        "] 0 3) 2
  = Some "a very long line"%string.
Proof.
  apply (proj1 (_sendLineData_logical_line
                  (mkTerminalBuffer [textLine false "$ ls" "    ";
                                     textLine false "a very long li" "";
                                     textLine true "ne" "      ";
                                     textLine false "" "        "] 0 3)
                  [textLine false "$ ls" "    "] [textLine false "" "        "]
                  [textLine true "ne" "      "] (textLine false "a very long li" "")
                  eq_refl ltac:(repeat constructor) (or_introl eq_refl))).
Defined.

(** X24.  Only the first [setOperatingSystem] after [activate] counts: a
    call before [activate] changes nothing (and a later call still
    counts), a second call after it changes nothing, and however many
    calls are made at most one CSI handler is registered. *)
Theorem setOperatingSystem_first_call_counts (a : LineDataEventAddon)
    (os os' : OperatingSystem) (calls : list OperatingSystem) :
  (xtermSet a = false -> setOperatingSystem os a = a)
  /\ setOperatingSystem os' (setOperatingSystem os (activate a))
     = setOperatingSystem os (activate a)
  /\ (csiHandlers (fold_left (fun a os => setOperatingSystem os a) calls a)
      <= S (csiHandlers a))%nat
  /\ (_isOsSet a = false ->
      csiHandlers (fold_left (fun a os => setOperatingSystem os a) (os :: calls)
                             (activate a))
      = match os with
        | Windows => S (csiHandlers a)
        | _ => csiHandlers a
        end).
Proof.
  assert (Hset : forall b calls', _isOsSet b = true ->
                   fold_left (fun a os => setOperatingSystem os a) calls' b = b).
  { intros b calls' Hb. induction calls' as [|o cs IH]; [reflexivity|].
    cbn [fold_left]. unfold setOperatingSystem at 2. rewrite Hb. exact IH. }
  split; [|split; [|split]].
  - intros Hx. unfold setOperatingSystem. rewrite Hx, orb_true_r. reflexivity.
  - unfold setOperatingSystem, activate. cbn [_isOsSet xtermSet negb orb].
    destruct (_isOsSet a); [reflexivity|destruct os; reflexivity].
  - revert a. induction calls as [|o cs IH]; intros a; cbn [fold_left]; [lia|].
    unfold setOperatingSystem at 2.
    destruct (_isOsSet a || negb (xtermSet a)); [apply IH|].
    destruct o; rewrite Hset by reflexivity; cbn [csiHandlers]; lia.
  - intros Ha. cbn [fold_left]. unfold setOperatingSystem at 2, activate.
    cbn [_isOsSet xtermSet negb]. rewrite Ha. cbn [orb].
    destruct os; rewrite Hset by reflexivity; reflexivity.
Qed.

Lemma setOperatingSystem_first_call_counts_witness :
  setOperatingSystem Windows (activate (setOperatingSystem Linux newAddon))
  = mkAddon true true 1.
Proof.
  rewrite (proj1 (setOperatingSystem_first_call_counts newAddon Linux Linux []) eq_refl).
  reflexivity.
Defined.

End TerminalFacts.

(* ===================================================================== *)
(** ** Properties of the instrumenter's path functions                    *)
(* ===================================================================== *)

Module InstrumentFacts.
Import Text Instrument.

Local Arguments String.append : simpl nomatch.

Lemma lower_upper (c : ascii) :
  isLowerLetter c = true ->
  isUpperLetter (toUpperCase c) = true /\ toLowerCase (toUpperCase c) = c
  /\ isLowerLetter (toUpperCase c) = false.
Proof.
  destruct c as [[] [] [] [] [] [] [] []]; vm_compute; intros H;
    first [discriminate H | repeat split].
Qed.

Lemma upper_lower (c : ascii) :
  isUpperLetter c = true ->
  isLowerLetter (toLowerCase c) = true /\ toUpperCase (toLowerCase c) = c
  /\ isUpperLetter (toLowerCase c) = false.
Proof.
  destruct c as [[] [] [] [] [] [] [] []]; vm_compute; intros H;
    first [discriminate H | repeat split].
Qed.

Lemma not_both (c : ascii) : isLowerLetter c = true -> isUpperLetter c = false.
Proof.
  destruct c as [[] [] [] [] [] [] [] []]; vm_compute; intros H;
    first [discriminate H | reflexivity].
Qed.

Lemma toUpperDriveLetter_cases (str : string) :
  (lowerDriveTest str = false /\ toUpperDriveLetter str = str)
  \/ (exists c d rest,
         str = String c (String d rest) /\ isLowerLetter c = true /\ d = ":"%char
         /\ toUpperDriveLetter str = String (toUpperCase c) (String d rest)).
Proof.
  unfold toUpperDriveLetter. destruct (lowerDriveTest str) eqn:E; [right|left; auto].
  destruct str as [|c [|d rest]]; try discriminate E.
  cbn [lowerDriveTest] in E. apply andb_true_iff in E as [Hc Hd].
  apply Ascii.eqb_eq in Hd. exists c, d, rest. auto.
Qed.

Lemma toLowerDriveLetter_cases (str : string) :
  (upperDriveTest str = false /\ toLowerDriveLetter str = str)
  \/ (exists c d rest,
         str = String c (String d rest) /\ isUpperLetter c = true /\ d = ":"%char
         /\ toLowerDriveLetter str = String (toLowerCase c) (String d rest)).
Proof.
  unfold toLowerDriveLetter. destruct (upperDriveTest str) eqn:E; [right|left; auto].
  destruct str as [|c [|d rest]]; try discriminate E.
  cbn [upperDriveTest] in E. apply andb_true_iff in E as [Hc Hd].
  apply Ascii.eqb_eq in Hd. exists c, d, rest. auto.
Qed.

(** X25.  The two drive letter functions undo each other on the paths
    they change: lowering after raising gives back a path that started
    with a lower-case drive letter, and raising after lowering one that
    started with an upper-case drive letter.  Each is idempotent, each
    absorbs the other ([lower (upper s) = lower s]), and neither changes
    the length of the path. *)
Theorem drive_letter_round_trip (str : string) :
  (lowerDriveTest str = true -> toLowerDriveLetter (toUpperDriveLetter str) = str)
  /\ (upperDriveTest str = true -> toUpperDriveLetter (toLowerDriveLetter str) = str)
  /\ toLowerDriveLetter (toUpperDriveLetter str) = toLowerDriveLetter str
  /\ toUpperDriveLetter (toLowerDriveLetter str) = toUpperDriveLetter str
  /\ toUpperDriveLetter (toUpperDriveLetter str) = toUpperDriveLetter str
  /\ toLowerDriveLetter (toLowerDriveLetter str) = toLowerDriveLetter str
  /\ String.length (toUpperDriveLetter str) = String.length str
  /\ String.length (toLowerDriveLetter str) = String.length str.
Proof.
  assert (Hup : forall c rest, isLowerLetter c = true ->
            toUpperDriveLetter (String c (String ":" rest))
            = String (toUpperCase c) (String ":" rest)).
  { intros c rest Hc. unfold toUpperDriveLetter. cbn [lowerDriveTest].
    rewrite Hc. reflexivity. }
  assert (Hlow : forall c rest, isUpperLetter c = true ->
            toLowerDriveLetter (String c (String ":" rest))
            = String (toLowerCase c) (String ":" rest)).
  { intros c rest Hc. unfold toLowerDriveLetter. cbn [upperDriveTest].
    rewrite Hc. reflexivity. }
  assert (Hup' : forall s, lowerDriveTest s = false -> toUpperDriveLetter s = s).
  { intros s Hs. unfold toUpperDriveLetter. rewrite Hs. reflexivity. }
  assert (Hlow' : forall s, upperDriveTest s = false -> toLowerDriveLetter s = s).
  { intros s Hs. unfold toLowerDriveLetter. rewrite Hs. reflexivity. }
  destruct (toUpperDriveLetter_cases str)
    as [[Hl Hu]|(c & d & rest & Heq1 & Hc & -> & Hu)];
    destruct (toLowerDriveLetter_cases str)
      as [[Hl2 Hd2]|(c2 & d2 & rest2 & Heq & Hc2 & -> & Hd2)];
    try subst str.
  - rewrite ?Hu, ?Hd2, Hl, Hl2.
    repeat split; intros; first [reflexivity | discriminate | assumption | congruence].
  - rewrite ?Hu, ?Hd2.
    destruct (upper_lower c2 Hc2) as (H1 & H2 & H3).
    rewrite (Hup _ rest2 H1), H2.
    rewrite (Hlow' (String (toLowerCase c2) (String ":" rest2)))
      by (cbn [upperDriveTest]; rewrite H3; reflexivity).
    rewrite Hl.
    repeat split; intros; first [reflexivity | discriminate | assumption | congruence].
  - rewrite ?Hu, ?Hd2.
    destruct (lower_upper c Hc) as (H1 & H2 & H3).
    rewrite (Hlow _ rest H1), H2.
    rewrite (Hup' (String (toUpperCase c) (String ":" rest)))
      by (cbn [lowerDriveTest]; rewrite H3; reflexivity).
    rewrite Hl2.
    repeat split; intros; first [reflexivity | discriminate | assumption | congruence].
  - injection Heq as <- <-. rewrite (not_both c Hc) in Hc2. discriminate Hc2.
Qed.

Lemma drive_letter_round_trip_witness :
  toLowerDriveLetter (toUpperDriveLetter "c:\repo\out") = "c:\repo\out"%string.
Proof.
  apply (proj1 (drive_letter_round_trip "c:\repo\out") eq_refl).
Defined.

Lemma prefix_append (pat s : string) :
  String.prefix pat s = true <-> exists rest, s = String.append pat rest.
Proof.
  revert s. induction pat as [|a pat IH]; intros s.
  - split; [intros _; exists s; reflexivity|intros _; destruct s; reflexivity].
  - destruct s as [|b s]; cbn [String.prefix].
    + split; [discriminate|intros (rest & H); discriminate H].
    + destruct (ascii_dec a b) as [->|Hne].
      * rewrite IH. split; intros (rest & H); exists rest.
        -- rewrite H. reflexivity.
        -- cbn in H. injection H as H. exact H.
      * split; [discriminate|]. intros (rest & H). cbn in H. injection H as H _.
        congruence.
Qed.

(** What [lastIndexOf] finds: an occurrence, and none behind it. *)
Lemma lastIndexOf_spec (pat : string) (str : string) :
  (lastIndexOf str pat = -1
   /\ forall n rest, (n <= String.length str)%nat ->
                     dropString n str <> String.append pat rest)
  \/ (0 <= lastIndexOf str pat <= Z.of_nat (String.length str)
      /\ (exists rest,
             dropString (Z.to_nat (lastIndexOf str pat)) str = String.append pat rest)
      /\ forall n rest, (Z.to_nat (lastIndexOf str pat) < n <= String.length str)%nat ->
                        dropString n str <> String.append pat rest).
Proof.
  induction str as [|c str IH].
  - cbn [lastIndexOf String.length]. destruct (String.eqb_spec pat EmptyString) as [->|Hne].
    + right. split; [lia|]. split; [exists EmptyString; reflexivity|].
      intros n rest Hn. lia.
    + left. split; [reflexivity|]. intros n rest Hn. destruct n; [|lia].
      cbn [dropString]. intros H. destruct pat; [contradiction|discriminate H].
  - cbn [lastIndexOf String.length].
    destruct IH as [[Hnone Hno]|(Hk & (rest & Hrest) & Hlast)].
    + rewrite Hnone. change (-1 >=? 0) with false. cbv iota.
      destruct (String.prefix pat (String c str)) eqn:Hp.
      * right. split; [lia|]. split.
        -- apply prefix_append in Hp as (rest & ->). exists rest. reflexivity.
        -- intros n rest Hn. destruct n as [|n]; [lia|]. cbn [dropString].
           apply Hno. lia.
      * left. split; [reflexivity|]. intros n rest Hn H. destruct n as [|n].
        -- cbn [dropString] in H.
           assert (Ht : String.prefix pat (String c str) = true)
             by (apply prefix_append; exists rest; exact H).
           congruence.
        -- cbn [dropString] in H. apply (Hno n rest); [lia|exact H].
    + destruct (Z.geb_spec (lastIndexOf str pat) 0); [|lia].
      right. split; [lia|].
      replace (Z.to_nat (lastIndexOf str pat + 1)) with (S (Z.to_nat (lastIndexOf str pat)))
        by lia.
      split.
      * exists rest. cbn [dropString]. exact Hrest.
      * intros n rest' Hn. destruct n as [|n]; [lia|]. cbn [dropString].
        apply Hlast. lia.
Qed.

Lemma lowerDriveTest_upper (base : string) : lowerDriveTest (toUpperDriveLetter base) = false.
Proof.
  destruct (toUpperDriveLetter_cases base) as [[H ->]|(c & d & rest & -> & Hc & -> & ->)];
    [exact H|].
  cbn [lowerDriveTest]. destruct (lower_upper c Hc) as (_ & _ & ->). reflexivity.
Qed.

(** X26.  [fixPath] cuts the broken path at the last place where
    [REPO_PATH] occurs in it and lowers the drive letter.  With
    [REPO_PATH] of at least two characters occurring in the path, the
    fixed path is [REPO_PATH] with its drive letter lowered, followed by
    what follows that last occurrence; and where [REPO_PATH] is the
    result of [toUpperDriveLetter], as the script defines it, raising the
    drive letter of the fixed path gives a path that starts with
    [REPO_PATH].  When [REPO_PATH] does not occur, which is when
    [lastIndexOf] answers -1, only the drive letter is lowered. *)
Theorem fixPath_from_last_occurrence (REPO_PATH brokenPath : string) :
  (lastIndexOf brokenPath REPO_PATH = -1
   <-> forall n rest, (n <= String.length brokenPath)%nat ->
                      dropString n brokenPath <> String.append REPO_PATH rest)
  /\ (lastIndexOf brokenPath REPO_PATH = -1 ->
      fixPath REPO_PATH brokenPath = toLowerDriveLetter brokenPath)
  /\ (lastIndexOf brokenPath REPO_PATH <> -1 ->
      (2 <= String.length REPO_PATH)%nat ->
      exists rest,
        dropString (Z.to_nat (lastIndexOf brokenPath REPO_PATH)) brokenPath
        = String.append REPO_PATH rest
        /\ (forall n rest',
               (Z.to_nat (lastIndexOf brokenPath REPO_PATH) < n
                <= String.length brokenPath)%nat ->
               dropString n brokenPath <> String.append REPO_PATH rest')
        /\ fixPath REPO_PATH brokenPath
           = String.append (toLowerDriveLetter REPO_PATH) rest
        /\ (forall base, REPO_PATH = toUpperDriveLetter base ->
                         toUpperDriveLetter (fixPath REPO_PATH brokenPath)
                         = String.append REPO_PATH rest)).
Proof.
  destruct (lastIndexOf_spec REPO_PATH brokenPath)
    as [[Hnone Hno]|(Hk & (rest & Hrest) & Hlast)].
  - split; [split; [intros _; exact Hno|intros _; exact Hnone]|].
    split; [|intros H; contradiction].
    intros _. unfold fixPath. rewrite Hnone. reflexivity.
  - split; [|split].
    + split; [intros H; lia|]. intros Hno. exfalso.
      apply (Hno (Z.to_nat (lastIndexOf brokenPath REPO_PATH)) rest); [lia|exact Hrest].
    + intros H. lia.
    + intros _ Hlen. exists rest. split; [exact Hrest|]. split; [exact Hlast|].
      destruct REPO_PATH as [|c [|d r]]; cbn [String.length] in Hlen; try lia.
      assert (Hfix : fixPath (String c (String d r)) brokenPath
                     = String.append (toLowerDriveLetter (String c (String d r))) rest).
      { unfold fixPath.
        destruct (Z.eqb_spec (lastIndexOf brokenPath (String c (String d r))) (-1)); [lia|].
        rewrite Hrest. unfold toLowerDriveLetter. cbn [String.append upperDriveTest].
        destruct (isUpperLetter c && Ascii.eqb d ":"); reflexivity. }
      split; [exact Hfix|].
      intros base Hbase. rewrite Hfix.
      pose proof (lowerDriveTest_upper base) as Hlow. rewrite <- Hbase in Hlow.
      cbn [lowerDriveTest] in Hlow.
      destruct (toLowerDriveLetter_cases (String c (String d r)))
        as [[_ ->]|(c' & d' & r' & Heq & Hc' & Hd' & ->)].
      * unfold toUpperDriveLetter. cbn [String.append lowerDriveTest].
        rewrite Hlow. reflexivity.
      * injection Heq as -> -> ->. destruct (upper_lower c' Hc') as (H1 & H2 & _).
        unfold toUpperDriveLetter. cbn [String.append lowerDriveTest].
        rewrite H1, H2, Hd', Ascii.eqb_refl. reflexivity.
Qed.

Lemma fixPath_from_last_occurrence_witness :
  fixPath "C:\repo" "x:\build\C:\repo\out\sql\a.js" = "c:\repo\out\sql\a.js"%string.
Proof.
  destruct (proj2 (proj2 (fixPath_from_last_occurrence "C:\repo"
                            "x:\build\C:\repo\out\sql\a.js"))
              ltac:(vm_compute; discriminate) ltac:(vm_compute; lia))
    as (rest & Hrest & _ & Hfix & _).
  rewrite Hfix. vm_compute in Hrest. injection Hrest as <-. reflexivity.
Defined.

End InstrumentFacts.

(* ===================================================================== *)
(** ** Properties of the telemetry services by endpoint                   *)
(* ===================================================================== *)

Module TelemetryFacts.
Import Telemetry.



End TelemetryFacts.

(* ===================================================================== *)
(** ** Properties of the context menu of the status bar                   *)
(* ===================================================================== *)

Module StatusbarFacts.
Import Statusbar.

Lemma find_app_first {A} (f : A -> bool) (l1 l2 : list A) (x : A) :
  find f l1 = Some x -> find f (l1 ++ l2) = Some x.
Proof.
  induction l1 as [|y l1 IH]; cbn [find app]; [discriminate|].
  destruct (f y); [trivial|exact IH].
Qed.

Lemma find_app_none {A} (f : A -> bool) (l1 l2 : list A) :
  (forall y, In y l1 -> f y = false) -> find f (l1 ++ l2) = find f l2.
Proof.
  induction l1 as [|y l1 IH]; intros H; cbn [find app]; [reflexivity|].
  rewrite (H y (or_introl eq_refl)). apply IH. intros z Hz. apply H. right. exact Hz.
Qed.

(** The loop over the entries: one toggle action for the first entry of
    every id. *)
Lemma entryActions_firsts (todo : list IStatusbarViewModelEntry) :
  forall (done firsts : list IStatusbarViewModelEntry) (base : list IAction)
         (handledEntries : gset string),
    (forall id, id ∈ handledEntries <-> In id (map entry_id firsts)) ->
    (forall id, In id (map entry_id firsts) <-> In id (map entry_id done)) ->
    List.NoDup (map entry_id firsts) ->
    (forall e, In e firsts ->
               find (fun x => String.eqb (entry_id x) (entry_id e)) done = Some e) ->
    sublist firsts done ->
    exists firsts',
      fst (fold_left
             (fun '(actions, handledEntries) entry =>
                if bool_decide (entry_id entry ∈ handledEntries)
                then (actions, handledEntries)
                else
                  (actions ++ [ToggleStatusbarEntryVisibilityAction
                                 (entry_id entry) (entry_name entry)],
                   {[entry_id entry]} ∪ handledEntries))
             todo (base ++ map toggleOf firsts, handledEntries))
      = base ++ map toggleOf firsts'
      /\ (forall id, In id (map entry_id firsts') <-> In id (map entry_id (done ++ todo)))
      /\ List.NoDup (map entry_id firsts')
      /\ (forall e, In e firsts' ->
                    find (fun x => String.eqb (entry_id x) (entry_id e)) (done ++ todo)
                    = Some e)
      /\ sublist firsts' (done ++ todo).
Proof.
  induction todo as [|x todo IH]; intros done firsts base handled H1 H2 H3 H4 H5.
  - exists firsts. rewrite app_nil_r. cbn [fold_left fst]. auto.
  - cbn [fold_left]. destruct (bool_decide (entry_id x ∈ handled)) eqn:Hx.
    + apply bool_decide_eq_true in Hx.
      destruct (IH (done ++ [x]) firsts base handled)
        as (firsts' & Ha & Hb & Hc & Hd & He).
      * exact H1.
      * intros id. rewrite H2, map_app, in_app_iff. cbn [map In].
        split; [intros H; left; exact H|].
        intros [H|[<-|[]]]; [exact H|]. apply H2, H1, Hx.
      * exact H3.
      * intros e He. apply find_app_first, H4, He.
      * apply sublist_inserts_r, H5.
      * exists firsts'. rewrite <- app_assoc in Hb, Hd, He. auto.
    + apply bool_decide_eq_false in Hx.
      assert (Hfresh : ~ In (entry_id x) (map entry_id done))
        by (intros H; apply Hx, H1, H2, H).
      destruct (IH (done ++ [x]) (firsts ++ [x]) base ({[entry_id x]} ∪ handled))
        as (firsts' & Ha & Hb & Hc & Hd & He).
      * intros id. rewrite elem_of_union, elem_of_singleton, H1, map_app, in_app_iff.
        cbn [map In]. split; [intros [->|H]|intros [H|[<-|[]]]]; auto.
      * intros id. rewrite !map_app, !in_app_iff, H2. reflexivity.
      * rewrite map_app. cbn [map]. apply List.NoDup_app.
        -- exact H3.
        -- constructor; [intros []|constructor].
        -- intros a Ha [<-|[]]. apply Hfresh, H2, Ha.
      * intros e He. apply in_app_or in He as [He|[<-|[]]].
        -- apply find_app_first, H4, He.
        -- rewrite find_app_none.
           ++ cbn [find]. rewrite String.eqb_refl. reflexivity.
           ++ intros y Hy. apply String.eqb_neq. intros Heq. apply Hfresh.
              rewrite <- Heq. apply in_map, Hy.
      * apply sublist_app; [exact H5|reflexivity].
      * exists firsts'. rewrite <- app_assoc in Hb, Hd, He.
        rewrite map_app in Ha. cbn [map] in Ha. rewrite app_assoc in Ha.
        split; [exact Ha|auto].
Qed.

Section Menu.
Variable findEntry : nat -> option IStatusbarViewModelEntry.

(** X28.  The context menu of the status bar starts with the action that
    hides the status bar and a separator; then comes one toggle action
    for every entry id, however many entries share the id: the toggle
    actions are those of the entries that are the first of their id, in
    the order of the entries; and it ends, when an element from the event's target
    upwards belongs to an entry, with a separator and the hide action of
    the entry found first on that way, and with nothing more otherwise. *)
Theorem getContextMenuActions_one_toggle_per_id
    (entries : list IStatusbarViewModelEntry) (elements : list nat) :
  exists firsts,
    getContextMenuActions findEntry entries elements
    = [ToggleStatusbarVisibilityAction; Separator] ++ map toggleOf firsts
      ++ match statusEntryUnderMouse findEntry elements with
         | Some entry =>
             [Separator; HideStatusbarEntryAction (entry_id entry) (entry_name entry)]
         | None => []
         end
    /\ (forall id, In id (map entry_id firsts) <-> In id (map entry_id entries))
    /\ List.NoDup (map entry_id firsts)
    /\ (forall e, In e firsts ->
                  find (fun x => String.eqb (entry_id x) (entry_id e)) entries = Some e)
    /\ sublist firsts entries
    /\ (forall entry,
           statusEntryUnderMouse findEntry elements = Some entry <->
           exists before element after,
             elements = before ++ element :: after
             /\ List.Forall (fun el => findEntry el = None) before
             /\ findEntry element = Some entry).
Proof.
  destruct (entryActions_firsts entries [] [] [ToggleStatusbarVisibilityAction; Separator] ∅)
    as (firsts & Ha & Hb & Hc & Hd & He).
  - intros id. cbn [map In]. rewrite elem_of_empty. reflexivity.
  - reflexivity.
  - constructor.
  - intros e [].
  - constructor.
  - exists firsts.
    split; [|split; [exact Hb|split; [exact Hc|split; [exact Hd|split; [exact He|]]]]].
    + unfold getContextMenuActions, entryActions.
      cbn [map] in Ha. rewrite app_nil_r in Ha.
      destruct (fold_left _ entries _) as [actions handled]. cbn [fst] in Ha. subst actions.
      destruct (statusEntryUnderMouse findEntry elements).
      * rewrite <- app_assoc. reflexivity.
      * rewrite app_nil_r. reflexivity.
    + intros entry. induction elements as [|el els IH]; cbn [statusEntryUnderMouse].
      * split; [discriminate|]. intros (before & element & after & H & _).
        destruct before; discriminate H.
      * destruct (findEntry el) as [found|] eqn:Hel.
        -- split.
           ++ intros [= <-]. exists [], el, els. split; [reflexivity|].
              split; [constructor|exact Hel].
           ++ intros (before & element & after & H & Hall & Hfound).
              destruct before as [|b before]; cbn [app] in H; injection H as H5 H6; subst.
              ** congruence.
              ** apply List.Forall_cons_iff in Hall as [Hb' _]. congruence.
        -- rewrite IH. split.
           ++ intros (before & element & after & Heq & Hall & Hfound).
              exists (el :: before), element, after. split; [cbn [app]; congruence|].
              split; [constructor; assumption|exact Hfound].
           ++ intros (before & element & after & H & Hall & Hfound).
              destruct before as [|b before]; cbn [app] in H; injection H as H5 H6; subst.
              ** congruence.
              ** apply List.Forall_cons_iff in Hall as [_ Hall].
                 exists before, element, after. auto.
Qed.

End Menu.

Lemma getContextMenuActions_example :
  getContextMenuActions findByContainer [gitEntry; firstExtEntry; secondExtEntry] [7; 12; 3]%nat
  = [ToggleStatusbarVisibilityAction; Separator;
     ToggleStatusbarEntryVisibilityAction "git.status" "Git";
     ToggleStatusbarEntryVisibilityAction "ext.item" "Ext A";
     Separator; HideStatusbarEntryAction "ext.item" "Ext B"].
Proof. reflexivity. Qed.

(** The loop reads of a part only the pending entry objects it is to
    create, the items and the next free item. *)
Lemma fillPendingEntries_agree (shifted : list nat) :
  forall part part' : StatusbarPart,
    (forall r, In r shifted -> pendingObjects part !! r = pendingObjects part' !! r) ->
    items part = items part' -> nextItem part = nextItem part' ->
    items (fillPendingEntries shifted part) = items (fillPendingEntries shifted part')
    /\ nextItem (fillPendingEntries shifted part)
       = nextItem (fillPendingEntries shifted part').
Proof.
  induction shifted as [|ref rest IH]; intros part part' Hobj Hitems Hnext.
  - split; assumption.
  - cbn [fillPendingEntries pendingObjects doAddEntry].
    rewrite <- (Hobj ref (or_introl eq_refl)).
    destruct (pendingObjects part !! ref) as [pending|].
    + apply IH; cbn [pendingObjects items nextItem element pendingEntries nextPending].
      * intros r Hr. rewrite Hnext.
        destruct (Nat.eq_dec ref r) as [->|Hne].
        -- rewrite !lookup_insert_eq. reflexivity.
        -- rewrite !lookup_insert_ne by exact Hne. apply Hobj. right. exact Hr.
      * rewrite Hitems, Hnext. reflexivity.
      * rewrite Hnext. reflexivity.
    + apply IH; cbn [pendingObjects items nextItem].
      * intros r Hr. apply Hobj. right. exact Hr.
      * exact Hitems.
      * exact Hnext.
Qed.

(** The entry pushed last is created last. *)
Lemma fillPendingEntries_last (shifted : list nat) (ref : nat)
    (pending : IPendingStatusbarEntry) :
  ~ In ref shifted ->
  forall part part' : StatusbarPart,
    (forall r, In r shifted -> pendingObjects part !! r = pendingObjects part' !! r) ->
    pendingObjects part !! ref = Some pending ->
    items part = items part' -> nextItem part = nextItem part' ->
    items (fillPendingEntries (shifted ++ [ref]) part)
    = items (fillPendingEntries shifted part')
      ++ [mkItem (nextItem (fillPendingEntries shifted part')) (pending_entry pending)
                 (pending_id pending) (pending_alignment pending) (pending_primary pending)]
    /\ pendingObjects (fillPendingEntries (shifted ++ [ref]) part) !! ref
       = Some (mkPending (pending_entry pending) (pending_id pending)
                         (pending_alignment pending) (pending_primary pending)
                         (Some (nextItem (fillPendingEntries shifted part')))).
Proof.
  induction shifted as [|x rest IH]; intros Hout part part' Hsame Hobj Hitems Hnext.
  - cbn [app fillPendingEntries pendingObjects doAddEntry items nextItem]. rewrite Hobj.
    cbn [fillPendingEntries items pendingObjects nextItem]. rewrite lookup_insert_eq.
    rewrite Hitems, Hnext. split; reflexivity.
  - assert (Hne : x <> ref) by (intros ->; apply Hout; left; reflexivity).
    assert (Hout' : ~ In ref rest) by (intros H; apply Hout; right; exact H).
    cbn [app fillPendingEntries pendingObjects doAddEntry element pendingEntries items
         nextPending nextItem].
    rewrite <- (Hsame x (or_introl eq_refl)).
    destruct (pendingObjects part !! x) as [px|].
    + apply (IH Hout'); cbn [pendingObjects items nextItem].
      * intros r Hr. rewrite Hnext. destruct (Nat.eq_dec x r) as [->|Hxr].
        -- rewrite !lookup_insert_eq. reflexivity.
        -- rewrite !lookup_insert_ne by exact Hxr. apply Hsame. right. exact Hr.
      * rewrite lookup_insert_ne by exact Hne. exact Hobj.
      * rewrite Hitems, Hnext. reflexivity.
      * rewrite Hnext. reflexivity.
    + apply (IH Hout'); cbn [pendingObjects items nextItem].
      * intros r Hr. apply Hsame. right. exact Hr.
      * exact Hobj.
      * exact Hitems.
      * exact Hnext.
Qed.

(** The handles of the items stay below the next free one. *)
Lemma fillPendingEntries_handles (shifted : list nat) :
  forall part : StatusbarPart,
    List.Forall (fun it => (item_handle it < nextItem part)%nat) (items part) ->
    List.Forall (fun it => (item_handle it < nextItem (fillPendingEntries shifted part))%nat)
                (items (fillPendingEntries shifted part)).
Proof.
  induction shifted as [|x rest IH]; intros part H; [exact H|].
  cbn [fillPendingEntries pendingObjects doAddEntry element pendingEntries items
       nextPending nextItem].
  destruct (pendingObjects part !! x) as [px|]; apply IH; cbn [items nextItem]; [|exact H].
  apply List.Forall_app. split.
  - apply (List.Forall_impl _ (P := fun it => (item_handle it < nextItem part)%nat));
      [intros it Hit; lia|exact H].
  - constructor; [cbn [item_handle]; lia|constructor].
Qed.

Lemma filter_out_last (refs : list nat) (ref : nat) :
  ~ In ref refs ->
  List.filter (fun entry => negb (entry =? ref)%nat) (refs ++ [ref]) = refs.
Proof.
  intros Hout. rewrite List.filter_app. cbn [List.filter]. rewrite Nat.eqb_refl.
  cbn [negb]. rewrite app_nil_r.
  induction refs as [|x refs IH]; [reflexivity|]. cbn [List.filter].
  destruct (Nat.eqb_spec x ref) as [->|Hne]; [exfalso; apply Hout; left; reflexivity|].
  cbn [negb]. f_equal. apply IH. intros H. apply Hout. right. exact H.
Qed.

Lemma items_below_unchanged (its : list StatusbarItem) (h : nat) (entry : string) :
  List.Forall (fun it => (item_handle it < h)%nat) its ->
  map (fun it => if (item_handle it =? h)%nat
                 then mkItem (item_handle it) entry (item_id it)
                             (item_alignment it) (item_primary it)
                 else it) its = its
  /\ List.filter (fun it => negb (item_handle it =? h)%nat) its = its.
Proof.
  induction 1 as [|it its Hit Hall [IH1 IH2]]; [split; reflexivity|].
  cbn [map List.filter]. destruct (Nat.eqb_spec (item_handle it) h); [lia|].
  cbn [negb]. rewrite IH1, IH2. split; reflexivity.
Qed.

(** X29.  An entry added to the status bar before the part is created
    waits as a pending entry, and its accessor works before and after the
    creation.  On a part not yet created (its references in use below the
    next free ones): when the entry is updated before the creation, the
    creation adds, after the items of the entries that were pending
    before, one item with the updated text; when the accessor is disposed
    before the creation, the creation adds no item for it; and after the
    creation the same accessor updates the text of the item made for the
    entry, or removes that item.  The other items are never touched. *)
Theorem pending_entry_accessor (part : StatusbarPart)
    (entry entry' id : string) (alignment : StatusbarAlignment) (primary : Z) :
  element part = false ->
  wellFormed part ->
  let accessor := fst (addEntry entry id alignment primary part) in
  let added := snd (addEntry entry id alignment primary part) in
  let others := items (createContentArea part) in
  let handle := nextItem (createContentArea part) in
  items added = items part
  /\ items (createContentArea added)
     = others ++ [mkItem handle entry id alignment primary]
  /\ items (createContentArea (update accessor entry' added))
     = others ++ [mkItem handle entry' id alignment primary]
  /\ items (createContentArea (dispose accessor added)) = others
  /\ items (update accessor entry' (createContentArea added))
     = others ++ [mkItem handle entry' id alignment primary]
  /\ items (dispose accessor (createContentArea added)) = others.
Proof.
  intros Hel [Hrefs Hitems] accessor added others handle.
  assert (Hacc : accessor = PendingAccessor (nextPending part))
    by (unfold accessor, addEntry; rewrite Hel; reflexivity).
  assert (Hadded : added
                   = mkPart false (pendingEntries part ++ [nextPending part])
                            (<[nextPending part := mkPending entry id alignment primary None]>
                               (pendingObjects part))
                            (items part) (S (nextPending part)) (nextItem part))
    by (unfold added, addEntry, doAddPendingEntry; rewrite Hel; reflexivity).
  clearbody accessor added. subst accessor added.
  assert (Hout : ~ In (nextPending part) (pendingEntries part)).
  { intros Hin. pose proof (proj1 (List.Forall_forall _ _) Hrefs _ Hin) as Hlt.
    cbn beta in Hlt. lia. }
  assert (Hcreate : forall text objs n,
    objs !! nextPending part = Some (mkPending text id alignment primary None) ->
    (forall r, In r (pendingEntries part) -> objs !! r = pendingObjects part !! r) ->
    let created :=
      fillPendingEntries (pendingEntries part ++ [nextPending part])
        (mkPart true (pendingEntries part ++ [nextPending part]) objs (items part) n
                (nextItem part)) in
    items created = others ++ [mkItem handle text id alignment primary]
    /\ pendingObjects created !! nextPending part
       = Some (mkPending text id alignment primary (Some handle))).
  { intros text objs n Hobj Hsame created.
    exact (fillPendingEntries_last (pendingEntries part) (nextPending part)
             (mkPending text id alignment primary None) Hout
             (mkPart true (pendingEntries part ++ [nextPending part]) objs (items part) n
                     (nextItem part))
             (mkPart true (pendingEntries part) (pendingObjects part) (items part)
                     (nextPending part) (nextItem part))
             Hsame Hobj eq_refl eq_refl). }
  assert (Hbelow : List.Forall (fun it => (item_handle it < handle)%nat) others).
  { apply fillPendingEntries_handles. exact Hitems. }
  split; [reflexivity|].
  split; [|split; [|split; [|split]]].
  - apply Hcreate.
    + apply lookup_insert_eq.
    + intros r Hr. apply lookup_insert_ne. intros <-. contradiction.
  - unfold update. cbn [pendingObjects]. rewrite lookup_insert_eq.
    cbn [pending_accessor pending_id pending_alignment pending_primary].
    unfold createContentArea.
    cbn [pendingEntries pendingObjects items nextPending nextItem element].
    apply Hcreate.
    + apply lookup_insert_eq.
    + intros r Hr. rewrite !lookup_insert_ne by (intros <-; contradiction). reflexivity.
  - unfold dispose. cbn [pendingObjects]. rewrite lookup_insert_eq.
    cbn [pending_accessor]. unfold createContentArea.
    cbn [pendingEntries pendingObjects items nextPending nextItem element].
    rewrite filter_out_last by exact Hout.
    apply fillPendingEntries_agree; [|reflexivity|reflexivity].
    intros r Hr. apply lookup_insert_ne. intros <-. contradiction.
  - destruct (Hcreate entry (<[nextPending part := mkPending entry id alignment primary None]>
                               (pendingObjects part)) (S (nextPending part)))
      as [H1 H2].
    + apply lookup_insert_eq.
    + intros r Hr. apply lookup_insert_ne. intros <-. contradiction.
    + unfold update, createContentArea.
      cbn [pendingEntries pendingObjects items nextPending nextItem element].
      rewrite H2. cbn [pending_accessor]. unfold updateItem. cbn [items].
      rewrite H1, map_app. cbn [map item_handle]. rewrite Nat.eqb_refl.
      rewrite (proj1 (items_below_unchanged others handle entry' Hbelow)). reflexivity.
  - destruct (Hcreate entry (<[nextPending part := mkPending entry id alignment primary None]>
                               (pendingObjects part)) (S (nextPending part)))
      as [H1 H2].
    + apply lookup_insert_eq.
    + intros r Hr. apply lookup_insert_ne. intros <-. contradiction.
    + unfold dispose, createContentArea.
      cbn [pendingEntries pendingObjects items nextPending nextItem element].
      rewrite H2. cbn [pending_accessor]. unfold removeItem. cbn [items].
      rewrite H1, List.filter_app. cbn [List.filter item_handle]. rewrite Nat.eqb_refl.
      cbn [negb]. rewrite app_nil_r.
      apply (proj2 (items_below_unchanged others handle entry Hbelow)).
Qed.

Lemma pending_entry_accessor_witness :
  items (createContentArea
           (update (fst (addEntry "main" "git.status" LEFT 100 newPart)) "feature"
                   (snd (addEntry "main" "git.status" LEFT 100 newPart))))
  = [mkItem 0 "feature" "git.status" LEFT 100].
Proof.
  apply (proj1 (proj2 (proj2 (pending_entry_accessor newPart "main" "feature" "git.status"
                                LEFT 100 eq_refl
                                (conj (List.Forall_nil _) (List.Forall_nil _)))))).
Defined.

End StatusbarFacts.

(* ===================================================================== *)
(** ** Properties of joinCellsWithSurrounds                               *)
(* ===================================================================== *)

Module SurroundsFacts.
Import NotebookCommon Text Model CellOperations CellOperationsMore Examples.

Section Loop.
Variable cellRangeContains : ICellRange -> ICellRange -> bool.
Variable editor : IActiveNotebookEditor.
Variable direction : JoinDirection.
Variable focus : ICellRange.

(** What the loop has collected when it runs through. *)
Lemma joinSelections_collects (visited : list ICellRange) :
  forall edits cell cells edits' cell' cells',
    joinSelections cellRangeContains editor direction focus visited (edits, cell, cells)
    = Returns (Some (edits', cell', cells')) ->
    (forall e, In e edits -> In e edits')
    /\ (forall c, In c cells -> In c cells')
    /\ (edits' = edits \/ isReadOnly (view editor) = false)
    /\ (cell' = cell
        \/ exists selection, In selection visited
                             /\ cellRangeContains selection focus = true)
    /\ (forall selection,
           In selection visited ->
           atDocumentEdge editor direction selection = true
           \/ exists r,
                joinNotebookCells editor selection direction None = Returns (Some r)
                /\ (forall e, In e (CellOperations.edits r) -> In e edits')
                /\ In (join_cell r) cells').
Proof.
  induction visited as [|selection rest IH]; intros edits cell cells edits' cell' cells' H.
  - cbn [joinSelections] in H. injection H as <- <- <-.
    split; [auto|]. split; [auto|]. split; [left; reflexivity|].
    split; [left; reflexivity|intros selection []].
  - cbn [joinSelections joinSelection] in H.
    destruct (atDocumentEdge editor direction selection) eqn:Hedge.
    + apply IH in H as (H1 & H2 & H3 & H4 & H5).
      split; [exact H1|]. split; [intros c Hc; apply H2, in_or_app; left; exact Hc|].
      split; [exact H3|]. split.
      * destruct H4 as [->|(sel & Hsel & Hcont)].
        -- destruct (cellRangeContains selection focus) eqn:Hc; [|left; reflexivity].
           right. exists selection. split; [left; reflexivity|exact Hc].
        -- right. exists sel. split; [right; exact Hsel|exact Hcont].
      * intros sel [<-|Hsel]; [left; exact Hedge|apply H5, Hsel].
    + destruct (joinNotebookCells editor selection direction None) as [[r|]|] eqn:Hjoin;
        try discriminate H.
      apply IH in H as (H1 & H2 & H3 & H4 & H5).
      split; [intros e He; apply H1, in_or_app; left; exact He|].
      split; [intros c Hc; apply H2, in_or_app; left; exact Hc|].
      split; [|split].
      * right. unfold joinNotebookCells in Hjoin.
        destruct (isReadOnly (view editor)); [discriminate Hjoin|reflexivity].
      * destruct H4 as [->|(sel & Hsel & Hcont)].
        -- destruct (cellRangeContains selection focus) eqn:Hc; [|left; reflexivity].
           right. exists selection. split; [left; reflexivity|exact Hc].
        -- right. exists sel. split; [right; exact Hsel|exact Hcont].
      * intros sel [<-|Hsel]; [|apply H5, Hsel].
        right. exists r. split; [exact Hjoin|]. split.
        -- intros e He. apply H1, in_or_app. right. exact He.
        -- apply H2, in_or_app. right. left. reflexivity.
Qed.

End Loop.

(** X30.  When [joinCellsWithSurrounds], on the selections, goes on to
    apply edits, then the editor is writable, there are edits and cells,
    one of the selections contains the focus, and every selection either
    lies at the edge of the document on the side of the join, or was
    joined: its two edits are among the edits and its surviving cell is
    among the cells.  So one selection that cannot be joined keeps the
    function from applying anything, also for the other selections. *)
Theorem joinCellsWithSurrounds_all_or_nothing
    (cellRangeContains : ICellRange -> ICellRange -> bool)
    (editor : IActiveNotebookEditor) (direction : JoinDirection) (plan : SurroundsPlan) :
  joinCellsWithSurrounds cellRangeContains editor direction = Returns (Some plan) ->
  isReadOnly (view editor) = false
  /\ plan_edits plan <> []
  /\ plan_cells plan <> []
  /\ (exists selection,
         In selection (getSelections editor)
         /\ cellRangeContains selection (getFocus editor) = true)
  /\ (forall selection,
         In selection (getSelections editor) ->
         atDocumentEdge editor direction selection = true
         \/ exists r,
              joinNotebookCells editor selection direction None = Returns (Some r)
              /\ (forall e, In e (CellOperations.edits r) -> In e (plan_edits plan))
              /\ In (join_cell r) (plan_cells plan)).
Proof.
  unfold joinCellsWithSurrounds. intros H.
  destruct (getSelections editor) as [|s0 ss] eqn:Hsels; [discriminate H|].
  rewrite <- Hsels in *.
  destruct (joinSelections cellRangeContains editor direction (getFocus editor)
              (rev (getSelections editor)) ([], None, []))
    as [[[[edits cell] cells]|]|] eqn:Hloop; try discriminate H.
  destruct (joinSelections_collects cellRangeContains editor direction (getFocus editor)
              _ _ _ _ _ _ _ Hloop) as (_ & _ & H3 & H4 & H5).
  destruct edits as [|e edits]; [discriminate H|].
  destruct cell as [cell|]; [|discriminate H].
  destruct cells as [|c cells]; [discriminate H|].
  injection H as <-. cbn [plan_edits plan_cells].
  split; [destruct H3 as [H3|H3]; [discriminate H3|exact H3]|].
  split; [discriminate|]. split; [discriminate|]. split.
  - destruct H4 as [H4|(sel & Hsel & Hcont)]; [discriminate H4|].
    exists sel. split; [apply in_rev, Hsel|exact Hcont].
  - intros sel Hsel. apply H5, in_rev. rewrite rev_involutive. exact Hsel.
Qed.

Lemma joinCellsWithSurrounds_all_or_nothing_witness :
  exists plan,
    joinCellsWithSurrounds containsRange threeCells below = Returns (Some plan)
    /\ map handle (plan_cells plan) = [2; 0]%nat
    /\ plan_edits plan <> [].
Proof.
  eexists. split; [reflexivity|]. split; [reflexivity|].
  exact (proj1 (proj2 (joinCellsWithSurrounds_all_or_nothing containsRange threeCells below
                         _ eq_refl))).
Defined.

End SurroundsFacts.
